(** * tools/fetch_assets.py: asset acquisition and manifest build

    A shallow embedding of the fetch / extract / classify / manifest
    pipeline of [tools/fetch_assets.py], and the properties of its
    specification settled against it.

    Conventions of the embedding:
    - a Python [str] is a [string] whose characters are the code points
      0..255 (ASCII and the Latin-1 supplement);
    - a [pathlib.Path] is the list of its components from the filesystem
      root; [resolve()] is the identity (the model has no symbolic links
      and no relative paths);
    - the filesystem is an association list from paths to nodes, in
      directory-listing order;
    - the network, the ZIP decoder and the clock are an environment the
      program reads; every call that goes to the network is recorded in
      the state;
    - a function that can raise runs in a state-and-exception monad. *)

From Stdlib Require Import String Ascii List Bool Arith NArith Lia.
From stdpp Require Import base option list strings gmap.
Import ListNotations.

Local Open Scope string_scope.
Local Open Scope list_scope.

(* ================================================================== *)
(** ** Python string operations *)
(* ================================================================== *)

Module Py.

Definition code (c : ascii) : N := N_of_ascii c.

Definition between (lo hi n : N) : bool := (N.leb lo n && N.leb n hi)%bool.

(** [str.lower] on one code point below 256: A-Z, and the upper-case
    letters of Latin-1 (all of U+00C0..U+00DE but the multiplication
    sign), move up by 32. *)
Definition lower_char (c : ascii) : ascii :=
  let n := code c in
  if (between 65 90 n || (between 192 222 n && negb (N.eqb n 215)))%bool
  then ascii_of_N (n + 32) else c.

Fixpoint lower (s : string) : string :=
  match s with
  | EmptyString => EmptyString
  | String c s' => String (lower_char c) (lower s')
  end.

(** Whitespace as [str.isspace] and the regex class [\s] see it. *)
Definition is_space (c : ascii) : bool :=
  let n := code c in
  (between 9 13 n || between 28 32 n || N.eqb n 133 || N.eqb n 160)%bool.

(** [needle in hay]. *)
Fixpoint contains (needle hay : string) : bool :=
  (String.prefix needle hay ||
   match hay with
   | EmptyString => false
   | String _ hay' => contains needle hay'
   end)%bool.

(** [s[k:]] and [s[:k]]. *)
Fixpoint drop_str (k : nat) (s : string) : string :=
  match k, s with
  | S k', String _ s' => drop_str k' s'
  | _, _ => s
  end.

Fixpoint take_str (k : nat) (s : string) : string :=
  match k, s with
  | S k', String c s' => String c (take_str k' s')
  | _, _ => EmptyString
  end.

Definition startswith (s p : string) : bool := String.prefix p s.

Definition endswith (s p : string) : bool :=
  String.eqb (drop_str (String.length s - String.length p) s) p
  && Nat.leb (String.length p) (String.length s).

(** [s.replace(old, new)] for a non-empty [old]: occurrences are taken
    left to right and do not overlap. [skip] counts the characters of
    the occurrence just replaced that are still to be dropped. *)
Fixpoint replace_from (old new : string) (skip : nat) (s : string) : string :=
  match s with
  | EmptyString => EmptyString
  | String c s' =>
      match skip with
      | S k => replace_from old new k s'
      | O =>
          if String.prefix old s
          then new +:+ replace_from old new (pred (String.length old)) s'
          else String c (replace_from old new O s')
      end
  end.

Fixpoint intersperse_str (new s : string) : string :=
  match s with
  | EmptyString => EmptyString
  | String c s' => String c (new +:+ intersperse_str new s')
  end.

Definition replace (old new s : string) : string :=
  match old with
  | EmptyString => new +:+ intersperse_str new s
  | _ => replace_from old new O s
  end.

Fixpoint lstrip (s : string) : string :=
  match s with
  | String c s' => if is_space c then lstrip s' else s
  | EmptyString => EmptyString
  end.

Fixpoint rstrip (s : string) : string :=
  match s with
  | EmptyString => EmptyString
  | String c s' =>
      match rstrip s' with
      | EmptyString => if is_space c then EmptyString else String c EmptyString
      | r => String c r
      end
  end.

Definition strip (s : string) : string := rstrip (lstrip s).

Fixpoint join (sep : string) (xs : list string) : string :=
  match xs with
  | [] => EmptyString
  | [x] => x
  | x :: xs' => x +:+ sep +:+ join sep xs'
  end.

(** [s.rfind] of a dot: the index of the last dot. *)
Fixpoint rfind_dot (s : string) : option nat :=
  match s with
  | EmptyString => None
  | String c s' =>
      match rfind_dot s' with
      | Some i => Some (S i)
      | None => if Ascii.eqb c "." then Some O else None
      end
  end.

End Py.

(* ================================================================== *)
(** ** Regular expressions *)
(* ================================================================== *)

(** The expressions of the program are sequences of literal text, the
    wildcard and one character class under [+] or [*]. [match_here] is
    the backtracking matcher of [re]: a greedy repetition takes a
    character whenever the rest of the expression can still match after
    it, and gives it back otherwise. *)

Module Re.

Inductive atom :=
  | Lit (text : string)
  | One (cls : ascii -> bool)
  | Star (cls : ascii -> bool)
  | Plus (cls : ascii -> bool).

Definition regex := list atom.

(** The length of the match of [r] at the head of the text, if any. *)
Fixpoint match_here (r : regex) : string -> option nat :=
  match r with
  | [] => fun _ => Some O
  | a :: r' =>
      let rest := match_here r' in
      let star cls :=
        fix star (s : string) : option nat :=
          match s with
          | String c s' =>
              match (if cls c : bool then star s' else None) with
              | Some n => Some (S n)
              | None => rest s
              end
          | EmptyString => rest s
          end in
      match a with
      | Lit text => fun s =>
          if String.prefix text s
          then (fun n => String.length text + n) <$>
                 rest (Py.drop_str (String.length text) s)
          else None
      | One cls => fun s =>
          match s with
          | String c s' => if cls c then S <$> rest s' else None
          | EmptyString => None
          end
      | Star cls => star cls
      | Plus cls => fun s =>
          match s with
          | String c s' => if cls c then S <$> star cls s' else None
          | EmptyString => None
          end
      end
  end.

(** [re.findall] for an expression without groups: the matches from left
    to right, the scan resuming where the last match ended (one
    character further after an empty match). [skip] counts the
    characters of the last match still to be passed. *)
Fixpoint findall_from (r : regex) (skip : nat) (s : string) : list string :=
  match s with
  | EmptyString =>
      match skip, match_here r EmptyString with
      | O, Some _ => [EmptyString]
      | _, _ => []
      end
  | String _ s' =>
      match skip with
      | S k => findall_from r k s'
      | O =>
          match match_here r s with
          | Some n => Py.take_str n s :: findall_from r (pred n) s'
          | None => findall_from r O s'
          end
      end
  end.

Definition findall (r : regex) (s : string) : list string :=
  findall_from r O s.

Definition backslash : ascii := ascii_of_N 92.
Definition newline : ascii := ascii_of_N 10.
Definition dquote : ascii := ascii_of_N 34.

(** The wildcard: any character but a newline. *)
Definition dot (c : ascii) : bool := negb (Ascii.eqb c newline).

(** The class of the Kenney expression: every character but the double
    quote, the single quote, <, > and whitespace. *)
Definition url_char (c : ascii) : bool :=
  negb (Ascii.eqb c dquote || Ascii.eqb c "'" || Ascii.eqb c "<"
        || Ascii.eqb c ">" || Py.is_space c)%bool.

(** The class of the Poly Haven expressions lists the space as well,
    which is whitespace already. *)
Definition url_char_sp (c : ascii) : bool :=
  negb (Ascii.eqb c dquote || Ascii.eqb c "'" || Ascii.eqb c "<"
        || Ascii.eqb c " " || Ascii.eqb c ">" || Py.is_space c)%bool.

End Re.

(** The pattern of [_pick_best_kenney_zip_link] is a raw literal in which
    each dot of the URL is written backslash, backslash, dot. In a raw
    literal a backslash stays, so the regex engine reads backslash,
    backslash as one literal backslash and the dot after it as the
    wildcard:
      https://kenney BS . nl/ CLASS+ BS . zip
    with BS a literal backslash. *)
Definition kenney_zip_re : Re.regex :=
  [ Re.Lit "https://kenney"; Re.Lit (String Re.backslash ""); Re.One Re.dot;
    Re.Lit "nl/"; Re.Plus Re.url_char;
    Re.Lit (String Re.backslash ""); Re.One Re.dot; Re.Lit "zip" ].

(** [_pick_best_kenney_zip_link] *)
Definition _pick_best_kenney_zip_link (html : string) : option string :=
  let zips := Re.findall kenney_zip_re html in
  match zips with
  | [] => None
  | _ =>
      match List.find (fun cand =>
                         Py.contains "/media/pages/assets/" cand
                         && Py.contains "kenney_" cand)%bool
                      (rev zips) with
      | Some cand => Some cand
      | None => last zips
      end
  end.

(* ================================================================== *)
(** ** fnmatch *)
(* ================================================================== *)

Module Fnmatch.

(** One piece of a translated pattern: what [fnmatch.translate] turns a
    star, a question mark, a bracket expression or any other character
    into. A set holds single characters and ranges, as the character set
    of the regular expression it becomes. *)
Inductive piece :=
  | Star
  | AnyChar
  | Chr (c : ascii)
  | CharSet (negated : bool) (singles : list ascii) (ranges : list (ascii * ascii))
  | Never.

Definition code_lt (a b : ascii) : bool := N.ltb (N_of_ascii a) (N_of_ascii b).
Definition code_le (a b : ascii) : bool := N.leb (N_of_ascii a) (N_of_ascii b).

(** The index of the first closing bracket. *)
Fixpoint find_close (s : list ascii) : option nat :=
  match s with
  | [] => None
  | c :: s' => if Ascii.eqb c "]" then Some O else S <$> find_close s'
  end.

(** [translate]'s search for the end of a bracket expression in the text
    after the opening bracket: an exclamation mark and then a closing
    bracket at the head do not end it. The result is the index of the
    closing bracket, [None] when there is none. *)
Definition class_end (s : list ascii) : option nat :=
  let j := match s with c :: _ => if Ascii.eqb c "!" then 1 else 0 | [] => 0 end in
  let j := match nth_error s j with
           | Some c => if Ascii.eqb c "]" then S j else j
           | None => j
           end in
  (fun k => j + k) <$> find_close (drop j s).

(** The chunks [translate] cuts the inside of a bracket expression into
    at the hyphens that make ranges. [guard] counts the characters ahead
    that cannot be such a hyphen: the first character, the one after a
    leading exclamation mark, and the two after a hyphen that was one. *)
Fixpoint cut (guard : nat) (cur : list ascii) (s : list ascii)
  : list (list ascii) :=
  match s with
  | [] => [cur]
  | c :: s' =>
      match guard with
      | S g => cut g (cur ++ [c]) s'
      | O => if Ascii.eqb c "-" then cur :: cut 2 [] s'
             else cut 0 (cur ++ [c]) s'
      end
  end.

(** [if chunk: chunks.append(chunk) else: chunks[-1] += '-'] *)
Fixpoint close_last (chunks : list (list ascii)) : list (list ascii) :=
  match chunks with
  | [c; []] => [c ++ ["-"%char]]
  | c :: rest => c :: close_last rest
  | [] => []
  end.

(** The loop that removes empty ranges, from the last pair of chunks to
    the first. *)
Definition merge_step (c : list ascii) (rest : list (list ascii))
  : list (list ascii) :=
  match rest with
  | d :: more =>
      match last c, head d with
      | Some x, Some y =>
          if code_lt y x then (removelast c ++ tail d) :: more else c :: rest
      | _, _ => c :: rest
      end
  | [] => [c]
  end.

Definition merge (chunks : list (list ascii)) : list (list ascii) :=
  fold_right merge_step [] chunks.

(** The chunks joined by hyphens, as the regular-expression parser reads
    them: every character of a chunk is escaped where it has to be and
    stands for itself, a joining hyphen between two characters makes a
    range. *)
Inductive token := Atom (c : ascii) | Dash.

Definition token_char (t : token) : ascii :=
  match t with Atom c => c | Dash => "-"%char end.

Fixpoint join_chunks (chunks : list (list ascii)) : list token :=
  match chunks with
  | [] => []
  | [c] => map Atom c
  | c :: rest => map Atom c ++ Dash :: join_chunks rest
  end.

Fixpoint parse_set (ts : list token)
  : list ascii * list (ascii * ascii) :=
  match ts with
  | [] => ([], [])
  | t :: ts' =>
      match ts' with
      | Dash :: t2 :: ts'' =>
          let r := parse_set ts'' in
          (r.1, (token_char t, token_char t2) :: r.2)
      | _ =>
          let r := parse_set ts' in
          (token_char t :: r.1, r.2)
      end
  end.

(** The piece a bracket expression with the inside [stuff] becomes: no
    character when nothing is left of it, any character when an
    exclamation mark is all that is left, and otherwise the set its
    chunks spell, negated when it opens with an exclamation mark. *)
Definition class_of (stuff : list ascii) : piece :=
  let guard := match stuff with
               | c :: _ => if Ascii.eqb c "!" then 2 else 1
               | [] => 1
               end in
  let chunks := merge (close_last (cut guard [] stuff)) in
  match chunks with
  | [] | [[]] => Never
  | c0 :: _ =>
      if bool_decide (chunks = [["!"%char]]) then AnyChar
      else
        let negated := match c0 with
                       | c :: _ => Ascii.eqb c "!"
                       | [] => false
                       end in
        let tokens := join_chunks chunks in
        let r := parse_set (if negated then tail tokens else tokens) in
        CharSet negated r.1 r.2
  end.

(** [fnmatch.translate]: the pieces of a pattern. [skip] counts the
    characters of a bracket expression still to be passed. Stars that
    follow one another count as one. *)
Fixpoint translate_from (skip : nat) (pat : string) : list piece :=
  match pat with
  | EmptyString => []
  | String c pat' =>
      match skip with
      | S k => translate_from k pat'
      | O =>
          if Ascii.eqb c "*" then
            match translate_from O pat' with
            | Star :: r => Star :: r
            | r => Star :: r
            end
          else if Ascii.eqb c "?" then AnyChar :: translate_from O pat'
          else if Ascii.eqb c "[" then
            let s := list_ascii_of_string pat' in
            match class_end s with
            | Some j => class_of (take j s) :: translate_from (S j) pat'
            | None => Chr "[" :: translate_from O pat'
            end
          else Chr c :: translate_from O pat'
      end
  end.

Definition translate (pat : string) : list piece := translate_from O pat.

(** One character against one piece. *)
Definition accepts (p : piece) (c : ascii) : bool :=
  match p with
  | Star | AnyChar => true
  | Chr d => Ascii.eqb d c
  | CharSet negated singles ranges =>
      xorb negated
           (existsb (Ascii.eqb c) singles
            || existsb (fun r : ascii * ascii => code_le r.1 c && code_le c r.2) ranges)
  | Never => false
  end.

(** The whole of [name] against the pieces. A star stands for any run
    of characters; the search [re] makes for the shortest run that lets
    the next pieces match finds a match exactly when there is one. *)
Fixpoint matches (ps : list piece) : string -> bool :=
  match ps with
  | [] => fun name => match name with EmptyString => true | _ => false end
  | Star :: ps' =>
      fix star (name : string) : bool :=
        (matches ps' name ||
         match name with
         | EmptyString => false
         | String _ name' => star name'
         end)%bool
  | p :: ps' => fun name =>
      match name with
      | EmptyString => false
      | String c name' => (accepts p c && matches ps' name')%bool
      end
  end.

(** [fnmatch.fnmatchcase] *)
Definition fnmatchcase (name pat : string) : bool := matches (translate pat) name.

(** [fnmatch.fnmatch] on POSIX, where [os.path.normcase] is the identity. *)
Definition fnmatch (name pat : string) : bool := fnmatchcase name pat.

End Fnmatch.

(* ================================================================== *)
(** ** The manifest document *)
(* ================================================================== *)

(** The dictionary handed to [json.dumps] in [write_manifest]. *)
Record Status := {
  assets_downloaded : bool;
  asset_count : nat;
  warning : string;
}.

Record Manifest := {
  version : nat;
  generated_by : string;
  generated_at : string;
  use_external_assets : bool;
  variants : gmap string (list string);
  textures : gmap string (gmap string string);
  packs_dir : string;
  textures_dir : string;
  status : Status;
}.

(* ================================================================== *)
(** ** Paths and the filesystem *)
(* ================================================================== *)

Definition Path := list string.

(** What a file holds: bytes, or the JSON text of a manifest, kept as the
    document it serialises. *)
Inductive content :=
  | Raw (bytes : string)
  | Json (doc : Manifest).

Inductive node :=
  | Dir
  | File (c : content).

Module Fs.

(** Entries in the order directory listings return them. *)
Definition t := list (Path * node).

(** [PurePath.relative_to]: [p] with the prefix [root] removed. *)
Fixpoint relative_to (p root : Path) {struct root} : option Path :=
  match root, p with
  | [], _ => Some p
  | r :: root', c :: p' =>
      if decide (r = c) then relative_to p' root' else None
  | _ :: _, [] => None
  end.

(** [p] lies in the tree rooted at [d] ([d] itself included). *)
Definition within (d p : Path) : bool :=
  match relative_to p d with Some _ => true | None => false end.

(** [p] lies strictly below [d]. *)
Definition below (d p : Path) : bool :=
  match relative_to p d with Some (_ :: _) => true | _ => false end.

Fixpoint lookup (fs : t) (p : Path) : option node :=
  match fs with
  | [] => None
  | (q, n) :: fs' => if decide (q = p) then Some n else lookup fs' p
  end.

(** The filesystem root always exists. *)
Definition stat (fs : t) (p : Path) : option node :=
  match p with
  | [] => Some Dir
  | _ => lookup fs p
  end.

Definition exists_ (fs : t) (p : Path) : bool :=
  match stat fs p with Some _ => true | None => false end.

Definition is_file (fs : t) (p : Path) : bool :=
  match stat fs p with Some (File _) => true | _ => false end.

Definition is_dir (fs : t) (p : Path) : bool :=
  match stat fs p with Some Dir => true | _ => false end.

(** [Path.name] and [Path.parent]. *)
Definition name (p : Path) : string := default "" (last p).
Definition parent (p : Path) : Path := removelast p.

(** [str(p)] of an absolute path. *)
Definition str (p : Path) : string := "/" +:+ Py.join "/" p.

(** [str(rel)] of a relative path; the empty one prints as a dot. *)
Definition rel_str (rel : Path) : string :=
  match rel with
  | [] => "."
  | _ => Py.join "/" rel
  end.

(** [Path.suffix]: from the last dot of the name, unless that dot opens
    or closes the name. *)
Definition suffix (p : Path) : string :=
  let n := name p in
  match Py.rfind_dot n with
  | Some i =>
      if (Nat.ltb 0 i && Nat.ltb i (String.length n - 1))%bool
      then Py.drop_str i n else ""
  | None => ""
  end.

(** [d.glob(pat)] for a pattern of one component that holds no double
    star: the children of [d] whose name matches, in listing order;
    nothing when [d] is no directory. *)
Definition glob (fs : t) (d : Path) (pat : string) : list Path :=
  if is_dir fs d then
    omap (fun e : Path * node =>
            match relative_to e.1 d with
            | Some [n] => if Fnmatch.fnmatchcase n pat then Some e.1 else None
            | _ => None
            end) fs
  else [].

(** [d.rglob] of a lone star: everything strictly below [d]. *)
Definition rglob_all (fs : t) (d : Path) : list Path :=
  if is_dir fs d then
    omap (fun e : Path * node => if below d e.1 then Some e.1 else None) fs
  else [].

End Fs.

(* ================================================================== *)
(** ** Exceptions, state and the environment *)
(* ================================================================== *)

Inductive exn :=
  | HTTPError (code : nat)
  | URLError
  | RuntimeError (msg : string)
  | OSError
  | BadZipFile
  | ValueError
  | FileNotFoundError.

Inductive result (A : Type) :=
  | Ok (a : A)
  | Raise (e : exn).
Arguments Ok {A} a.
Arguments Raise {A} e.

(** What a ZIP file unpacks to: the members [extractall] gets to write,
    in order, and whether it reaches the end of the archive ([intact])
    or stops after them with an error. *)
Record Archive := {
  members : list (Path * node);
  intact : bool;
}.

(** The world outside the program. [urlopen url] is the body served for
    [url], or the error the request ends in. [zip_decode c] is [None]
    when [c] is not a ZIP archive at all. [clock] is what
    [time.strftime] returns. *)
Record Env := {
  urlopen : string -> result string;
  zip_decode : content -> option Archive;
  clock : string;
}.

(** Calls that leave the machine. *)
Inductive NetCall :=
  | HttpGet (url : string)
  | Download (url : string) (dst : Path).

Record State := {
  fs : Fs.t;
  net_log : list NetCall;
}.

Definition M (A : Type) : Type := State -> result A * State.

Definition ret {A} (a : A) : M A := fun s => (Ok a, s).
Definition raise {A} (e : exn) : M A := fun s => (Raise e, s).
Definition bind {A B} (m : M A) (k : A -> M B) : M B :=
  fun s =>
    match m s with
    | (Ok a, s') => k a s'
    | (Raise e, s') => (Raise e, s')
    end.

(** [try: m  except Exception as e: h e] *)
Definition try_except {A} (m : M A) (h : exn -> M A) : M A :=
  fun s =>
    match m s with
    | (Ok a, s') => (Ok a, s')
    | (Raise e, s') => h e s'
    end.

Notation "x <- m ;; k" := (bind m (fun x => k))
  (at level 100, m at next level, right associativity).
Notation "m ;;; k" := (bind m (fun _ => k))
  (at level 100, right associativity).

Definition get_fs : M Fs.t := fun s => (Ok (fs s), s).
Definition put_fs (f : Fs.t) : M unit :=
  fun s => (Ok tt, {| fs := f; net_log := net_log s |}).
Definition log_net (c : NetCall) : M unit :=
  fun s => (Ok tt, {| fs := fs s; net_log := net_log s ++ [c] |}).
Definition lift {A} (r : result A) : M A := fun s => (r, s).

(** A filesystem update that may fail: the state changes on success only. *)
Definition update_fs (f : Fs.t -> result Fs.t) : M unit :=
  fun s =>
    match f (fs s) with
    | Ok fs' => (Ok tt, {| fs := fs'; net_log := net_log s |})
    | Raise e => (Raise e, s)
    end.

(** The same for functions that only read: they return a [result]. *)
Definition rbind {A B} (r : result A) (k : A -> result B) : result B :=
  match r with
  | Ok a => k a
  | Raise e => Raise e
  end.

Notation "x <~ r ;; k" := (rbind r (fun x => k))
  (at level 100, r at next level, right associativity).

(** [d.glob(pat)] for a pattern of one component that the program puts
    together from a name. pathlib (Python 3.11) refuses a double star
    that is not a whole component with ValueError, and does so before it
    looks at [d]. The patterns of the program end in a star after a name
    or in the end of a file name, so none is the lone double star. *)
Definition glob_checked (f : Fs.t) (d : Path) (pat : string)
  : result (list Path) :=
  if Py.contains "**" pat then Raise ValueError else Ok (Fs.glob f d pat).

(* ================================================================== *)
(** ** Filesystem updates *)
(* ================================================================== *)

Module FsOps.

(** [os.makedirs(p, exist_ok=True)] and [p.mkdir(parents=True,
    exist_ok=True)]: every missing ancestor of [p], then [p], becomes a
    directory; a file in the way is an error. [base] is the part of the
    path already known to be a directory. *)
Fixpoint mkdir_chain (f : Fs.t) (base : Path) (todo : list string)
  : result Fs.t :=
  match todo with
  | [] => Ok f
  | c :: todo' =>
      let q := base ++ [c] in
      match Fs.stat f q with
      | Some Dir => mkdir_chain f q todo'
      | Some (File _) => Raise OSError
      | None => mkdir_chain (f ++ [(q, Dir)]) q todo'
      end
  end.

Definition makedirs (p : Path) (f : Fs.t) : result Fs.t :=
  mkdir_chain f [] p.

(** [shutil.rmtree(p)]: the directory [p] and everything in it go. *)
Definition rmtree (p : Path) (f : Fs.t) : result Fs.t :=
  match Fs.stat f p with
  | Some Dir => Ok (List.filter (fun e : Path * node => negb (Fs.within p e.1)) f)
  | _ => Raise OSError
  end.

Fixpoint set_content (p : Path) (c : content) (f : Fs.t) : Fs.t :=
  match f with
  | [] => []
  | (q, n) :: f' =>
      if decide (q = p) then (q, File c) :: f' else (q, n) :: set_content p c f'
  end.

(** [open(p, "wb")] followed by the writes, and [p.write_text]: the
    parent has to be a directory and [p] must not be one; an existing
    file is overwritten where it is. *)
Definition write_file (p : Path) (c : content) (f : Fs.t) : result Fs.t :=
  if Fs.is_dir f (Fs.parent p) then
    match Fs.stat f p with
    | Some Dir => Raise OSError
    | Some (File _) => Ok (set_content p c f)
    | None => Ok (f ++ [(p, File c)])
    end
  else Raise FileNotFoundError.

Definition read_file (p : Path) (f : Fs.t) : result content :=
  match Fs.stat f p with
  | Some (File c) => Ok c
  | Some Dir => Raise OSError
  | None => Raise FileNotFoundError
  end.

(** [shutil.copy2(src, dst)]: into [dst] when it is a directory. *)
Definition copy2 (src dst : Path) (f : Fs.t) : result Fs.t :=
  let dst' := if Fs.is_dir f dst then dst ++ [Fs.name src] else dst in
  c <~ read_file src f ;;
  if decide (src = dst') then Raise OSError else write_file dst' c f.

(** One member of an archive, written below [dst] as
    [ZipFile._extract_member] does: the directories on the way are
    created, then the member itself. *)
Definition extract_member (dst : Path) (m : Path * node) (f : Fs.t)
  : result Fs.t :=
  let target := dst ++ m.1 in
  match m.2 with
  | Dir => makedirs target f
  | File c =>
      f' <~ makedirs (Fs.parent target) f ;;
      write_file target c f'
  end.

End FsOps.

(** [ZipFile.extractall]: the members in order; the first one that cannot
    be written stops the extraction, and what was written stays. *)
Fixpoint extract_members (dst : Path) (ms : list (Path * node)) : M unit :=
  match ms with
  | [] => ret tt
  | m :: ms' =>
      update_fs (FsOps.extract_member dst m) ;;;
      extract_members dst ms'
  end.

Section Program.

Variable env : Env.

(** [_http_get]; the body arrives decoded. *)
Definition _http_get (url : string) : M string :=
  log_net (HttpGet url) ;;;
  lift (urlopen env url).

(** [_download]: the body of [url] is written to [dst]. *)
Definition _download (url : string) (dst : Path) : M unit :=
  update_fs (FsOps.makedirs (Fs.parent dst)) ;;;
  log_net (Download url dst) ;;;
  body <- lift (urlopen env url) ;;
  update_fs (FsOps.write_file dst (Raw body)).

(** [find_project_root]; [start] is resolved already. *)
Fixpoint find_root_loop (f : Fs.t) (n : nat) (cur : Path) : option Path :=
  match n with
  | O => None
  | S n' =>
      if Fs.exists_ f (cur ++ ["project.godot"]) then Some cur
      else if decide (Fs.parent cur = cur) then None
      else find_root_loop f n' (Fs.parent cur)
  end.

Definition find_project_root (start : Path) : M Path :=
  f <- get_fs ;;
  let start := if Fs.is_file f start then Fs.parent start else start in
  match find_root_loop f 12 start with
  | Some cur => ret cur
  | None => raise FileNotFoundError
  end.

(** [get_ingest_dir] *)
Definition get_ingest_dir (project_root : Path) : Path :=
  project_root ++ ["assets"; "ingest"].

(** [ensure_ingest_dir_exists] *)
Definition ensure_ingest_dir_exists (project_root : Path) : M Path :=
  let ingest_dir := get_ingest_dir project_root in
  update_fs (FsOps.makedirs ingest_dir) ;;;
  ret ingest_dir.

(** The normalisation of [find_local_zip] and [fetch_polyhaven_asset]:
    [.lower().replace('_', '').replace('-', '')]. *)
Definition normalize (s : string) : string :=
  Py.replace "-" "" (Py.replace "_" "" (Py.lower s)).

(** [find_local_zip]; the program never calls it. *)
Definition find_local_zip (f : Fs.t) (packs_dir : Path) (pack_slug : string)
  : option Path :=
  let ingest_dir := get_ingest_dir packs_dir in
  if Fs.exists_ f ingest_dir then
    let normalized_slug := normalize pack_slug in
    List.find (fun zip_file =>
                 let normalized_zip_name := normalize (Fs.name zip_file) in
                 Py.contains normalized_slug normalized_zip_name
                 || Py.contains (Py.strip (Py.replace "kenney" "" normalized_slug))
                                normalized_zip_name)%bool
              (Fs.glob f ingest_dir "*.zip")
  else None.

(** [download_to_ingest] *)
Definition download_to_ingest (url file_name : string) (project_root : Path)
  : M Path :=
  ingest_dir <- ensure_ingest_dir_exists project_root ;;
  let dst_path := ingest_dir ++ [file_name] in
  _download url dst_path ;;;
  ret dst_path.

(** [extract_zip] *)
Definition extract_zip (zip_path dst_dir : Path) : M unit :=
  update_fs (FsOps.makedirs dst_dir) ;;;
  f <- get_fs ;;
  c <- lift (FsOps.read_file zip_path f) ;;
  match zip_decode env c with
  | None => raise BadZipFile
  | Some a =>
      extract_members dst_dir (members a) ;;;
      if intact a then ret tt else raise BadZipFile
  end.

(** [if out_dir.exists(): shutil.rmtree(out_dir)] *)
Definition remove_if_exists (out_dir : Path) : M unit :=
  f <- get_fs ;;
  if Fs.exists_ f out_dir then update_fs (FsOps.rmtree out_dir) else ret tt.

Record KenneyPack := { slug : string; page_url : string }.
Record AmbientCGTexture := { file_name : string }.
Record PolyHavenAsset := { ph_file_name : string; url : string }.

(** The cache lookup of [fetch_kenney_pack]: the first ZIP of the ingest
    directory whose lower-cased name contains the lower-cased slug. *)
Definition kenney_cache_lookup (f : Fs.t) (ingest_dir : Path) (pack : KenneyPack)
  : option Path :=
  List.find (fun zip_file =>
               Py.contains (Py.lower (slug pack)) (Py.lower (Fs.name zip_file)))
            (Fs.glob f ingest_dir "*.zip").

(** The second half of [fetch_kenney_pack], from ingest to the packs
    directory. *)
Definition kenney_unpack (pack : KenneyPack) (packs_dir local_zip : Path)
  : M Path :=
  update_fs (FsOps.makedirs packs_dir) ;;;
  let out_dir := packs_dir ++ [slug pack] in
  remove_if_exists out_dir ;;;
  extract_zip local_zip out_dir ;;;
  ret out_dir.

(** [fetch_kenney_pack]. The handler around the download prints and
    raises again, so the exception passes through unchanged. *)
Definition fetch_kenney_pack (pack : KenneyPack) (packs_dir project_root : Path)
  : M Path :=
  ingest_dir <- ensure_ingest_dir_exists project_root ;;
  f <- get_fs ;;
  local_zip <-
    match kenney_cache_lookup f ingest_dir pack with
    | Some zip_file => ret zip_file
    | None =>
        html <- _http_get (page_url pack) ;;
        match _pick_best_kenney_zip_link html with
        | None | Some EmptyString =>
            raise (RuntimeError ("Could not find download link on " +:+ page_url pack))
        | Some zip_url =>
            let local_zip := ingest_dir ++ [slug pack +:+ ".zip"] in
            _download zip_url local_zip ;;;
            ret local_zip
        end
    end ;;
  kenney_unpack pack packs_dir local_zip.

(** One round of the loop of [fetch_ambientcg_textures]; [None] is the
    [continue] after a failed download. *)
Definition texture_cache_lookup (f : Fs.t) (ingest_dir : Path)
    (tex : AmbientCGTexture) : option Path :=
  List.find (fun zip_file =>
               Py.contains (Py.lower (file_name tex)) (Py.lower (Fs.name zip_file)))
            (Fs.glob f ingest_dir "*.zip").

Definition texture_unpack (tex : AmbientCGTexture) (textures_dir local_zip : Path)
  : M Path :=
  let zips_dir := textures_dir ++ ["_zips"] in
  update_fs (FsOps.makedirs zips_dir) ;;;
  let out_zip := zips_dir ++ [file_name tex] in
  update_fs (FsOps.copy2 local_zip out_zip) ;;;
  let out_dir := textures_dir ++ [Py.replace ".zip" "" (file_name tex)] in
  remove_if_exists out_dir ;;;
  extract_zip out_zip out_dir ;;;
  ret out_dir.

Definition fetch_one_texture (tex : AmbientCGTexture)
    (textures_dir ingest_dir : Path) : M (option Path) :=
  f <- get_fs ;;
  local_zip <-
    match texture_cache_lookup f ingest_dir tex with
    | Some zip_file => ret (Some zip_file)
    | None =>
        let url := "https://ambientcg.com/get?file=" +:+ file_name tex in
        let local_zip := ingest_dir ++ [file_name tex] in
        try_except (_download url local_zip ;;; ret (Some local_zip))
                   (fun _ => ret None)
    end ;;
  match local_zip with
  | None => ret None
  | Some z => out_dir <- texture_unpack tex textures_dir z ;; ret (Some out_dir)
  end.

Fixpoint texture_loop (textures : list AmbientCGTexture)
    (textures_dir ingest_dir : Path) (extracted_dirs : list Path)
  : M (list Path) :=
  match textures with
  | [] => ret extracted_dirs
  | tex :: rest =>
      r <- fetch_one_texture tex textures_dir ingest_dir ;;
      texture_loop rest textures_dir ingest_dir
        (match r with
         | Some out_dir => extracted_dirs ++ [out_dir]
         | None => extracted_dirs
         end)
  end.

(** [fetch_ambientcg_textures] *)
Definition fetch_ambientcg_textures (textures : list AmbientCGTexture)
    (textures_dir project_root : Path) : M (list Path) :=
  ingest_dir <- ensure_ingest_dir_exists project_root ;;
  texture_loop textures textures_dir ingest_dir [].

(** The expressions of [_parse_polyhaven_download_url], in its order.
    Here the dots and question marks are escaped once and are literal. *)
Definition polyhaven_patterns : list Re.regex :=
  let P := Re.Plus Re.url_char_sp in
  let S := Re.Star Re.url_char_sp in
  [ [Re.Lit "https://cdn.polyhaven.com/asset_downloads/"; P; Re.Lit ".zip"];
    [Re.Lit "https://polyhaven.com/a/"; P; Re.Lit "/download"; S];
    [Re.Lit "https://polyhaven.com/download_asset"; S];
    [Re.Lit "https://"; P; Re.Lit "polyhaven"; P; Re.Lit ".zip"];
    [Re.Lit "https://"; P; Re.Lit "/download?file="; P; Re.Lit ".zip"];
    [Re.Lit "https://"; P; Re.Lit "/get?file="; P; Re.Lit ".zip"];
    [Re.Lit "https://api.polyhaven.com/"; P; Re.Lit ".zip"];
    [Re.Lit "https://"; P; Re.Lit "/assets/"; P; Re.Lit "/download"; S] ].

Definition polyhaven_any_link : Re.regex :=
  [Re.Lit "https://"; Re.Plus Re.url_char_sp; Re.Lit "polyhaven";
   Re.Plus Re.url_char_sp].

Fixpoint first_pattern_hit (patterns : list Re.regex) (html : string)
  : option string :=
  match patterns with
  | [] => None
  | pattern :: rest =>
      match List.find (fun m =>
                         Py.endswith m ".zip"
                         || Py.contains "download" (Py.lower m)
                         || Py.contains "polyhaven.com/a/" m)%bool
                      (Re.findall pattern html) with
      | Some m => Some m
      | None => first_pattern_hit rest html
      end
  end.

(** [_parse_polyhaven_download_url] *)
Definition _parse_polyhaven_download_url (html : string) : option string :=
  match first_pattern_hit polyhaven_patterns html with
  | Some m => Some m
  | None =>
      List.find (fun link =>
                   Py.contains "download" (Py.lower link)
                   || Py.contains "asset" (Py.lower link)
                   || Py.contains "cdn" (Py.lower link))%bool
                (Re.findall polyhaven_any_link html)
  end.

Definition polyhaven_cache_lookup (f : Fs.t) (ingest_dir : Path)
    (asset : PolyHavenAsset) : option Path :=
  if Fs.exists_ f ingest_dir then
    List.find (fun zip_file =>
                 Py.contains (normalize (ph_file_name asset))
                             (normalize (Fs.name zip_file)))
              (Fs.glob f ingest_dir "*.zip")
  else None.

(** The second half of [fetch_polyhaven_asset]; a failed extraction is
    caught and answered with [None]. *)
Definition polyhaven_unpack (asset : PolyHavenAsset) (packs_dir local_zip : Path)
  : M (option Path) :=
  update_fs (FsOps.makedirs packs_dir) ;;;
  let out_zip := packs_dir ++ ["polyhaven_" +:+ ph_file_name asset] in
  update_fs (FsOps.copy2 local_zip out_zip) ;;;
  let out_dir :=
    packs_dir ++ ["polyhaven_" +:+ Py.replace ".zip" "" (ph_file_name asset)] in
  remove_if_exists out_dir ;;;
  try_except (extract_zip out_zip out_dir ;;; ret (Some out_dir))
             (fun _ => ret None).

(** [fetch_polyhaven_asset] *)
Definition fetch_polyhaven_asset (asset : PolyHavenAsset)
    (packs_dir project_root : Path) : M (option Path) :=
  f <- get_fs ;;
  let ingest_dir := get_ingest_dir project_root in
  local_zip <-
    match polyhaven_cache_lookup f ingest_dir asset with
    | Some zip_file => ret (Some zip_file)
    | None =>
        try_except
          (html <- _http_get (url asset) ;;
           match _parse_polyhaven_download_url html with
           | Some download_url =>
               if String.eqb download_url "" then ret None
               else
                 z <- download_to_ingest download_url (ph_file_name asset)
                        project_root ;;
                 ret (Some z)
           | None => ret None
           end)
          (fun _ => ret None)
    end ;;
  match local_zip with
  | None => ret None
  | Some z => polyhaven_unpack asset packs_dir z
  end.

(** [_walk_files] *)
Definition _walk_files (f : Fs.t) (root : Path) (exts : list string)
  : list Path :=
  List.filter (fun p =>
                 Fs.is_file f p
                 && bool_decide (Py.lower (Fs.suffix p) ∈ exts))%bool
              (Fs.rglob_all f root).

(** [_rel_res_path] *)
Definition _rel_res_path (project_root abs_path : Path) : result string :=
  match Fs.relative_to abs_path project_root with
  | Some rel =>
      Ok ("res://" +:+ Py.replace (String Re.backslash "") "/" (Fs.rel_str rel))
  | None => Raise ValueError
  end.

(** [any(fnmatch(name, pat.lower()) for pat in pats)] *)
Definition any_fnmatch (name : string) (pats : list string) : bool :=
  existsb (fun pat => Fnmatch.fnmatch name (Py.lower pat)) pats.

(** [_select_by_patterns] *)
Definition _select_by_patterns (paths : list Path) (include exclude : list string)
  : list Path :=
  List.filter (fun p =>
                 let name := Py.lower (Fs.name p) in
                 let ok := match include with
                           | [] => true
                           | _ => any_fnmatch name include
                           end in
                 ok && negb (any_fnmatch name exclude))%bool
              paths.

(** The list comprehension [rp] of [build_variant_pools]. *)
Fixpoint rp (project_root : Path) (xs : list Path) : result (list string) :=
  match xs with
  | [] => Ok []
  | p :: xs' =>
      s <~ _rel_res_path project_root p ;;
      ss <~ rp project_root xs' ;;
      Ok (s :: ss)
  end.

Definition model_exts : list string := [".glb"; ".gltf"; ".fbx"; ".obj"].

(** [model_files] of [build_variant_pools]: the model files of every
    pack directory, one directory after the other. *)
Definition model_files (f : Fs.t) (pack_dirs : list Path) : list Path :=
  concat (map (fun d => _walk_files f d model_exts) pack_dirs).

Definition path_has (word : string) (p : Path) : bool :=
  Py.contains word (Py.lower (Fs.str p)).

Definition name_has (word : string) (p : Path) : bool :=
  Py.contains word (Py.lower (Fs.name p)).

(** The candidate lists of [build_variant_pools], before they are turned
    into resource paths and cut to length. *)
Record Candidates := {
  euro_candidates : list Path;
  ind_candidates : list Path;
  shack_candidates : list Path;
  conifer_candidates : list Path;
  broadleaf_candidates : list Path;
  palm_candidates : list Path;
}.

Definition classify (model_files : list Path) : Candidates :=
  let suburban := List.filter (path_has "suburban") model_files in
  let industrial := List.filter (path_has "industrial") model_files in
  let building_kit :=
    List.filter (fun p => path_has "building" p && path_has "kit" p)%bool
                model_files in
  let nature := List.filter (path_has "nature") model_files in
  let euro :=
    _select_by_patterns (suburban ++ building_kit)
      ["*house*"; "*building*"; "*home*"; "*residence*"; "*hut*"]
      ["*door*"; "*window*"; "*fence*"; "*road*"; "*lamp*"; "*sign*"; "*car*"] in
  let ind :=
    _select_by_patterns (industrial ++ building_kit)
      ["*factory*"; "*warehouse*"; "*hangar*"; "*building*"; "*shed*"; "*container*"]
      ["*road*"; "*lamp*"; "*sign*"; "*car*"] in
  let shack :=
    _select_by_patterns (suburban ++ building_kit)
      ["*hut*"; "*cabin*"; "*shack*"; "*house*"; "*small*"]
      ["*door*"; "*window*"; "*fence*"] in
  let tree :=
    _select_by_patterns nature
      ["*tree*"; "*pine*"; "*palm*"]
      ["*log*"; "*stump*"; "*leaf*"] in
  let conifer :=
    List.filter (fun p => existsb (fun k => name_has k p)
                            ["pine"; "fir"; "spruce"; "conifer"]) tree in
  let palm := List.filter (name_has "palm") tree in
  let broadleaf :=
    List.filter (fun p => negb (bool_decide (p ∈ conifer))
                          && negb (bool_decide (p ∈ palm)))%bool tree in
  let broadleaf :=
    match conifer, palm, tree with
    | [], [], _ :: _ => tree
    | _, _, _ => broadleaf
    end in
  {| euro_candidates := euro; ind_candidates := ind;
     shack_candidates := shack; conifer_candidates := conifer;
     broadleaf_candidates := broadleaf; palm_candidates := palm |}.

Definition pools_dict (euro ind shack conifer broadleaf palm : list string)
  : gmap string (list string) :=
  <["euro_buildings" := euro]>
  (<["industrial_buildings" := ind]>
  (<["beach_shacks" := shack]>
  (<["trees_conifer" := conifer]>
  (<["trees_broadleaf" := broadleaf]>
  (<["trees_palm" := palm]> ∅))))).

(** [build_variant_pools] *)
Definition build_variant_pools (f : Fs.t) (project_root : Path)
    (pack_dirs : list Path) : result (gmap string (list string)) :=
  let c := classify (model_files f pack_dirs) in
  euro <~ rp project_root (euro_candidates c) ;;
  ind <~ rp project_root (ind_candidates c) ;;
  shack <~ rp project_root (shack_candidates c) ;;
  conifer <~ rp project_root (conifer_candidates c) ;;
  broadleaf <~ rp project_root (broadleaf_candidates c) ;;
  palm <~ rp project_root (palm_candidates c) ;;
  Ok (pools_dict (take 24 euro) (take 24 ind) (take 24 shack)
                 (take 32 conifer) (take 32 broadleaf) (take 32 palm)).

(** The channels of a texture set: the key of the set and the end of the
    file name that fills it, in the order the program looks for them. *)
Definition channels : list (string * string) :=
  [ ("albedo", "Color.jpg"); ("normal", "NormalGL.jpg");
    ("roughness", "Roughness.jpg"); ("metallic", "Metalness.jpg");
    ("ao", "AmbientOcclusion.jpg"); ("height", "Displacement.jpg") ].

(** One [if files: texture_set[key] = _rel_res_path(.., files[0])]. *)
Definition add_channel (f : Fs.t) (project_root tex_dir : Path)
    (base_name : string) (texture_set : gmap string string)
    (ch : string * string) : result (gmap string string) :=
  files <~ glob_checked f tex_dir (base_name +:+ "*" +:+ ch.2) ;;
  match files with
  | file :: _ =>
      p <~ _rel_res_path project_root file ;;
      Ok (<[ch.1 := p]> texture_set)
  | [] => Ok texture_set
  end.

Fixpoint add_channels (f : Fs.t) (project_root tex_dir : Path)
    (base_name : string) (texture_set : gmap string string)
    (chs : list (string * string)) : result (gmap string string) :=
  match chs with
  | [] => Ok texture_set
  | ch :: chs' =>
      texture_set' <~ add_channel f project_root tex_dir base_name texture_set ch ;;
      add_channels f project_root tex_dir base_name texture_set' chs'
  end.

(** The texture set read off one directory. *)
Definition texture_set_of (f : Fs.t) (project_root tex_dir : Path)
  : result (gmap string string) :=
  let base_name := Py.replace "_2K-JPG" "" (Fs.name tex_dir) in
  add_channels f project_root tex_dir base_name ∅ channels.

(** The inner loop of [build_texture_sets]: the candidates of one key in
    order, until one of them gives a set that is not empty. *)
Fixpoint first_texture_set (f : Fs.t) (project_root textures_dir : Path)
    (texture_names : list string) : result (option (gmap string string)) :=
  match texture_names with
  | [] => Ok None
  | tex_name :: rest =>
      tex_dirs <~ glob_checked f textures_dir (tex_name +:+ "*") ;;
      match tex_dirs with
      | tex_dir :: _ =>
          texture_set <~ texture_set_of f project_root tex_dir ;;
          if decide (texture_set = ∅)
          then first_texture_set f project_root textures_dir rest
          else Ok (Some texture_set)
      | [] => first_texture_set f project_root textures_dir rest
      end
  end.

Definition texture_mappings : list (string * list string) :=
  [ ("building_atlas_euro", ["Bricks079"; "Concrete023"]);
    ("building_atlas_industrial", ["MetalPlates006"; "Concrete023"]);
    ("terrain_grass", ["Grass004"]);
    ("terrain_pavement", ["Asphalt012"; "Concrete023"]) ].

Fixpoint texture_sets_loop (f : Fs.t) (project_root textures_dir : Path)
    (mappings : list (string * list string))
    (texture_sets : gmap string (gmap string string))
  : result (gmap string (gmap string string)) :=
  match mappings with
  | [] => Ok texture_sets
  | (key, texture_names) :: rest =>
      r <~ first_texture_set f project_root textures_dir texture_names ;;
      texture_sets_loop f project_root textures_dir rest
        (match r with
         | Some texture_set => <[key := texture_set]> texture_sets
         | None => texture_sets
         end)
  end.

(** [build_texture_sets] *)
Definition build_texture_sets (f : Fs.t) (project_root textures_dir : Path)
  : result (gmap string (gmap string string)) :=
  if Fs.exists_ f textures_dir
  then texture_sets_loop f project_root textures_dir texture_mappings ∅
  else Ok ∅.

Definition empty_pools : gmap string (list string) :=
  pools_dict [] [] [] [] [] [].

Definition manifest_path_of (project_root : Path) : Path :=
  project_root ++ ["assets"; "external"; "manifest.json"].

(** [write_manifest] *)
Definition write_manifest (project_root packs_dir textures_dir : Path)
    (variants : gmap string (list string)) (pack_dirs : list Path) : M Path :=
  let manifest_path := manifest_path_of project_root in
  update_fs (FsOps.makedirs (Fs.parent manifest_path)) ;;;
  let has_assets := Nat.ltb 0 (length pack_dirs) in
  let variants := if has_assets then variants else empty_pools in
  f <- get_fs ;;
  texture_sets <- lift (build_texture_sets f project_root textures_dir) ;;
  packs_res <- lift (_rel_res_path project_root packs_dir) ;;
  textures_res <- lift (_rel_res_path project_root textures_dir) ;;
  let data :=
    {| version := 2;
       generated_by := "tools/fetch_assets.py";
       generated_at := clock env;
       use_external_assets := has_assets;
       variants := variants;
       textures := texture_sets;
       packs_dir := packs_res;
       textures_dir := textures_res;
       status :=
         {| assets_downloaded := has_assets;
            asset_count := length pack_dirs;
            warning :=
              if has_assets then "Assets downloaded successfully."
              else "No assets were successfully downloaded. Using fallback values." |}
    |} in
  update_fs (FsOps.write_file manifest_path (Json data)) ;;;
  ret manifest_path.

(** The static catalogues. *)
Definition KENNEY_PACKS : list KenneyPack :=
  [ {| slug := "kenney_building-kit"; page_url := "https://kenney.nl/assets/building-kit" |};
    {| slug := "kenney_city-kit-suburban"; page_url := "https://kenney.nl/assets/city-kit-suburban" |};
    {| slug := "kenney_city-kit-industrial"; page_url := "https://kenney.nl/assets/city-kit-industrial" |};
    {| slug := "kenney_city-kit-roads"; page_url := "https://kenney.nl/assets/city-kit-roads" |};
    {| slug := "kenney_nature-kit"; page_url := "https://kenney.nl/assets/nature-kit" |} ].

Definition KENNEY_WW2_PACKS : list KenneyPack :=
  [ {| slug := "kenney_ww2"; page_url := "https://kenney.nl/assets/ww2" |};
    {| slug := "kenney_tanks"; page_url := "https://kenney.nl/assets/tanks" |};
    {| slug := "kenney_military-pack"; page_url := "https://kenney.nl/assets/military-pack" |} ].

Definition AMBIENTCG_TEXTURES : list AmbientCGTexture :=
  map Build_AmbientCGTexture
    [ "Concrete023_2K-JPG.zip"; "Asphalt012_2K-JPG.zip";
      "MetalPlates006_2K-JPG.zip"; "Bricks079_2K-JPG.zip";
      "WoodPlanks010_2K-JPG.zip"; "RoofTiles005_2K-JPG.zip";
      "Sand002_2K-JPG.zip"; "Grass004_2K-JPG.zip" ].

Definition AMBIENTCG_WW2_TEXTURES : list AmbientCGTexture :=
  map Build_AmbientCGTexture
    [ "MetalRusted001_2K-JPG.zip"; "ConcreteDamaged001_2K-JPG.zip";
      "WoodOld001_2K-JPG.zip"; "FabricWorn001_2K-JPG.zip";
      "Dirt010_2K-JPG.zip" ].

Definition POLYHAVEN_ASSETS : list PolyHavenAsset :=
  [ {| ph_file_name := "hangar_01.zip"; url := "https://polyhaven.com/a/hangar_01" |};
    {| ph_file_name := "warehouse_01.zip"; url := "https://polyhaven.com/a/warehouse_01" |};
    {| ph_file_name := "factory_01.zip"; url := "https://polyhaven.com/a/factory_01" |} ].

Definition POLYHAVEN_TEXTURES : list AmbientCGTexture :=
  map Build_AmbientCGTexture
    [ "RustedIron001_2K-JPG.zip"; "OldConcrete001_2K-JPG.zip";
      "WornMetal001_2K-JPG.zip" ].

(** The command line, parsed. *)
Record Args := {
  project : Path;
  no_textures : bool;
  local_only : bool;
  ww2_assets : bool;
  ww2_textures : bool;
  polyhaven : bool;
  list_assets : bool;
  all : bool;
}.

(** [for pack in packs: try: pack_dirs.append(fetch_kenney_pack(..))
    except Exception: print(..)] *)
Fixpoint kenney_loop (packs : list KenneyPack) (packs_dir project_root : Path)
    (pack_dirs : list Path) : M (list Path) :=
  match packs with
  | [] => ret pack_dirs
  | pack :: rest =>
      pack_dirs' <-
        try_except
          (d <- fetch_kenney_pack pack packs_dir project_root ;;
           ret (pack_dirs ++ [d]))
          (fun _ => ret pack_dirs) ;;
      kenney_loop rest packs_dir project_root pack_dirs'
  end.

Fixpoint polyhaven_loop (assets : list PolyHavenAsset)
    (packs_dir project_root : Path) (pack_dirs : list Path) : M (list Path) :=
  match assets with
  | [] => ret pack_dirs
  | asset :: rest =>
      pack_dirs' <-
        try_except
          (pack_dir <- fetch_polyhaven_asset asset packs_dir project_root ;;
           ret (match pack_dir with
                | Some d => pack_dirs ++ [d]
                | None => pack_dirs
                end))
          (fun _ => ret pack_dirs) ;;
      polyhaven_loop rest packs_dir project_root pack_dirs'
  end.

(** [try: fetch_ambientcg_textures(..)  except Exception: print(..)] *)
Definition texture_group (textures : list AmbientCGTexture)
    (textures_dir project_root : Path) : M unit :=
  try_except
    (fetch_ambientcg_textures textures textures_dir project_root ;;; ret tt)
    (fun _ => ret tt).

(** The pack phase of [main]: base packs, then the themed packs and the
    Poly Haven assets when they are asked for. *)
Definition fetch_packs (ww2 ph : bool) (packs_dir project_root : Path)
  : M (list Path) :=
  pack_dirs <- kenney_loop KENNEY_PACKS packs_dir project_root [] ;;
  pack_dirs <-
    (if ww2 then kenney_loop KENNEY_WW2_PACKS packs_dir project_root pack_dirs
     else ret pack_dirs) ;;
  if ph then polyhaven_loop POLYHAVEN_ASSETS packs_dir project_root pack_dirs
  else ret pack_dirs.

(** The texture phase of [main]. *)
Definition fetch_textures (skip ww2 ph : bool) (textures_dir project_root : Path)
  : M unit :=
  if skip then ret tt
  else
    texture_group AMBIENTCG_TEXTURES textures_dir project_root ;;;
    (if ww2 then texture_group AMBIENTCG_WW2_TEXTURES textures_dir project_root
     else ret tt) ;;;
    (if ph then texture_group POLYHAVEN_TEXTURES textures_dir project_root
     else ret tt).

(** [main]; the result is the exit code. Nothing reads [local_only]. *)
Definition main (args : Args) : M nat :=
  project_root <- find_project_root (project args) ;;
  let packs_dir := project_root ++ ["assets"; "external"; "packs"] in
  let textures_dir := project_root ++ ["assets"; "external"; "textures"; "ambientcg"] in
  if list_assets args then ret 0
  else
    let ww2_assets := (all args || ww2_assets args)%bool in
    let ww2_textures := (all args || ww2_textures args)%bool in
    let polyhaven := (all args || polyhaven args)%bool in
    pack_dirs <- fetch_packs ww2_assets polyhaven packs_dir project_root ;;
    fetch_textures (no_textures args) ww2_textures polyhaven
                   textures_dir project_root ;;;
    f <- get_fs ;;
    variants <- lift (build_variant_pools f project_root pack_dirs) ;;
    write_manifest project_root packs_dir textures_dir variants pack_dirs ;;;
    ret 0.

End Program.

(* ================================================================== *)
(** ** Concrete worlds *)
(* ================================================================== *)

Module World.

Definition root : Path := ["proj"].
Definition ingest : Path := get_ingest_dir root.
Definition packs : Path := root ++ ["assets"; "external"; "packs"].
Definition tex : Path := root ++ ["assets"; "external"; "textures"; "ambientcg"].
Definition manifest : Path := manifest_path_of root.

(** A project with nothing in it but its marker file. *)
Definition bare : Fs.t :=
  [ (root, Dir); (root ++ ["project.godot"], File (Raw "")) ].

(** The same with an ingest directory holding [zips]. *)
Definition with_ingest (zips : list (string * string)) : Fs.t :=
  bare ++ [ (root ++ ["assets"], Dir); (ingest, Dir) ]
       ++ map (fun z : string * string => (ingest ++ [z.1], File (Raw z.2))) zips.

Definition start (f : Fs.t) : State := {| fs := f; net_log := [] |}.

Definition file (name : string) : Path * node := ([name], File (Raw name)).

(** Archives are told apart by their bytes. *)
Definition decode (c : content) : option Archive :=
  match c with
  | Raw "SUBURBAN" =>
      Some {| members := [ (["Models"; "building-type-a.glb"], File (Raw "glb"));
                           (["Models"; "tree.glb"], File (Raw "glb")) ];
              intact := true |}
  | Raw "NATURE" =>
      Some {| members := [ (["Models"; "tree_oak.glb"], File (Raw "glb"));
                           (["Models"; "tree_pine.glb"], File (Raw "glb"));
                           (["Models"; "rock.glb"], File (Raw "glb")) ];
              intact := true |}
  | Raw "NATURE-V2" =>
      Some {| members := [ (["Models"; "tree_palm.glb"], File (Raw "glb2")) ];
              intact := false |}
  | Raw "HANGAR" =>
      Some {| members := [ (["hangar_01.gltf"], File (Raw "gltf")) ];
              intact := true |}
  | Raw "CONCRETE" =>
      Some {| members := [ file "Concrete023_2K-JPG_Color.jpg";
                           file "Concrete023_2K-JPG_NormalGL.jpg" ];
              intact := true |}
  | Raw "ASPHALT" =>
      Some {| members := [ file "Asphalt012_2K-JPG_Color.jpg" ];
              intact := true |}
  | _ => None
  end.

(** No network at all. *)
Definition offline : Env :=
  {| urlopen := fun _ => Raise URLError;
     zip_decode := decode;
     clock := "2026-01-01 00:00:00" |}.

(** A Kenney catalogue page with a direct link of the usual shape. *)
Definition kenney_page : string :=
  "<a href='https://kenney.nl/media/pages/assets/building-kit/kenney_building-kit.zip'>Continue without donating</a>".

Definition building_kit : KenneyPack :=
  {| slug := "kenney_building-kit";
     page_url := "https://kenney.nl/assets/building-kit" |}.

Definition suburban : KenneyPack :=
  {| slug := "kenney_city-kit-suburban";
     page_url := "https://kenney.nl/assets/city-kit-suburban" |}.

(** The Kenney site is up and serves [kenney_page] for the building kit. *)
Definition kenney_online : Env :=
  {| urlopen := fun url =>
       if String.eqb url "https://kenney.nl/assets/building-kit"
       then Ok kenney_page else Raise (HTTPError 404);
     zip_decode := decode;
     clock := "2026-01-01 00:00:00" |}.

Definition default_args : Args :=
  {| project := root; no_textures := false; local_only := false;
     ww2_assets := false; ww2_textures := false; polyhaven := false;
     list_assets := false; all := false |}.

Definition local_only_args : Args :=
  {| project := root; no_textures := false; local_only := true;
     ww2_assets := false; ww2_textures := false; polyhaven := false;
     list_assets := false; all := false |}.

(** The cache holds a texture archive that is not a ZIP file, and an
    intact one for the texture that comes next in the catalogue. *)
Definition corrupt_texture_cache : Fs.t :=
  with_ingest [ ("Concrete023_2K-JPG.zip", "<html>busy</html>");
                ("Asphalt012_2K-JPG.zip", "ASPHALT") ].

(** The cache holds one intact texture archive and no model pack. *)
Definition texture_only_cache : Fs.t :=
  with_ingest [ ("Concrete023_2K-JPG.zip", "CONCRETE") ].

(** The cached file is named like the pack, with a hyphen where the slug
    has an underscore. *)
Definition hyphen_cache : Fs.t :=
  with_ingest [ ("kenney-city-kit-suburban.zip", "SUBURBAN") ].

Definition mixed_case_cache : Fs.t :=
  with_ingest [ ("Kenney_City-Kit-Suburban.zip", "SUBURBAN") ].

Definition nature : KenneyPack :=
  {| slug := "kenney_nature-kit";
     page_url := "https://kenney.nl/assets/nature-kit" |}.

Definition hangar : PolyHavenAsset :=
  {| ph_file_name := "hangar_01.zip"; url := "https://polyhaven.com/a/hangar_01" |}.

(** An earlier run has left a nature kit and a hangar unpacked; the
    cache now holds a newer nature kit whose archive breaks off after
    its first member. *)
Definition stale_packs : Fs.t :=
  with_ingest [ ("kenney_nature-kit.zip", "NATURE-V2");
                ("hangar_01.zip", "HANGAR") ]
  ++ [ (root ++ ["assets"; "external"], Dir);
       (packs, Dir);
       (packs ++ ["kenney_nature-kit"], Dir);
       (packs ++ ["kenney_nature-kit"; "Models"], Dir);
       (packs ++ ["kenney_nature-kit"; "Models"; "tree_oak.glb"], File (Raw "old"));
       (packs ++ ["polyhaven_hangar_01"], Dir);
       (packs ++ ["polyhaven_hangar_01"; "hangar_old.gltf"], File (Raw "old")) ].

(** The cache holds the suburban kit and one texture. *)
Definition pack_and_texture_cache : Fs.t :=
  with_ingest [ ("Kenney_City-Kit-Suburban.zip", "SUBURBAN");
                ("Concrete023_2K-JPG.zip", "CONCRETE") ].

(** The suburban kit, unpacked: one model in its Models directory. *)
Definition suburban_unpacked : Fs.t :=
  bare ++ [ (root ++ ["assets"], Dir);
            (root ++ ["assets"; "external"], Dir);
            (packs, Dir);
            (packs ++ ["kenney_city-kit-suburban"], Dir);
            (packs ++ ["kenney_city-kit-suburban"; "Models"], Dir);
            (packs ++ ["kenney_city-kit-suburban"; "Models"; "building-type-a.glb"],
             File (Raw "glb")) ].

(** A nature kit, unpacked, next to the suburban kit. *)
Definition two_kits_unpacked : Fs.t :=
  suburban_unpacked
  ++ [ (packs ++ ["kenney_nature-kit"], Dir);
       (packs ++ ["kenney_nature-kit"; "tree_oak.glb"], File (Raw "glb"));
       (packs ++ ["kenney_nature-kit"; "tree_pine.glb"], File (Raw "glb"));
       (packs ++ ["kenney_nature-kit"; "tree_palm.glb"], File (Raw "glb")) ].

(** The directory of the first candidate of building_atlas_euro is there
    but empty (its archive was no ZIP file); the directory of the second
    candidate holds a colour map. *)
Definition empty_bricks_dir : Fs.t :=
  bare ++ [ (root ++ ["assets"], Dir);
            (root ++ ["assets"; "external"], Dir);
            (root ++ ["assets"; "external"; "textures"], Dir);
            (tex, Dir);
            (tex ++ ["Bricks079_2K-JPG"], Dir);
            (tex ++ ["Concrete023_2K-JPG"], Dir);
            (tex ++ ["Concrete023_2K-JPG"; "Concrete023_2K-JPG_Color.jpg"],
             File (Raw "jpg")) ].

End World.

(* ================================================================== *)
(** ** Vocabulary of the properties *)
(* ================================================================== *)

(** Every listed path has its parent directory listed too (or lies
    directly under the root). *)
Definition parents_listed (f : Fs.t) : bool :=
  forallb (fun e : Path * node => Fs.exists_ f (Fs.parent e.1)) f.

(** The file [p] with content [c] is a member of the archive stored at
    [zip] in the filesystem [f], unpacked below [out_dir]. *)
Definition unpacked_from (env : Env) (f : Fs.t) (zip out_dir : Path)
    (p : Path) (c : content) : Prop :=
  exists (c0 : content) (a : Archive) (rel : Path),
    FsOps.read_file zip f = Ok c0 /\ zip_decode env c0 = Some a /\
    In (rel, File c) (members a) /\ p = out_dir ++ rel.

(** Every file below [out_dir] in [final] was unpacked from the archive
    at [zip] as [before] has it. *)
Definition only_fresh_files (env : Env) (zip out_dir : Path)
    (before final : State) : Prop :=
  forall (p : Path) (c : content),
    In (p, File c) (fs final) -> Fs.below out_dir p = true ->
    unpacked_from env (fs before) zip out_dir p c.

(** Nothing is listed at or below [d]. *)
Definition nothing_at (d : Path) (s : State) : Prop :=
  forall e : Path * node, In e (fs s) -> Fs.within d e.1 = false.

(** The six pools of the manifest. *)
Definition pool_keys : list string :=
  [ "euro_buildings"; "industrial_buildings"; "beach_shacks";
    "trees_conifer"; "trees_broadleaf"; "trees_palm" ].

(** The manifest document stored at [p], if there is one. *)
Definition read_manifest (f : Fs.t) (p : Path) : option Manifest :=
  match Fs.lookup f p with
  | Some (File (Json m)) => Some m
  | _ => None
  end.

(** The character [c] occurs in [s]. *)
Fixpoint has_char (c : ascii) (s : string) : bool :=
  match s with
  | EmptyString => false
  | String d s' => (Ascii.eqb c d || has_char c s')%bool
  end.

(** A file name as POSIX file names usually are: not empty, not the dot
    entry, free of slashes, and free of backslashes as well. *)
Definition plain_name (n : string) : bool :=
  (negb (String.eqb n "") && negb (String.eqb n ".")
   && negb (has_char "/" n) && negb (has_char Re.backslash n))%bool.

Definition plain_path (p : Path) : bool := forallb plain_name p.

Definition plain_paths (f : Fs.t) : bool :=
  forallb (fun e : Path * node => plain_path e.1) f.

(** No directory of the list lies at or below another one. *)
Fixpoint disjoint_dirs (ds : list Path) : bool :=
  match ds with
  | [] => true
  | d :: ds' =>
      (forallb (fun d' => negb (Fs.within d d') && negb (Fs.within d' d)) ds'
       && disjoint_dirs ds')%bool
  end.

(** The pool a result holds under [key]. *)
Definition pool_of (r : result (gmap string (list string))) (key : string)
  : option (list string) :=
  match r with
  | Ok v => v !! key
  | Raise _ => None
  end.

Definition tree_keys : list string :=
  [ "trees_conifer"; "trees_broadleaf"; "trees_palm" ].

(** How often [x] is listed in [pool]. *)
Definition occurrences (x : string) (pool : list string) : nat :=
  count_occ String.string_dec pool x.

Definition path_dec : forall p q : Path, {p = q} + {p <> q} :=
  List.list_eq_dec String.string_dec.

(** The texture set a result holds under [key]. *)
Definition texture_of (r : result (gmap string (gmap string string)))
    (key : string) : option (gmap string string) :=
  match r with
  | Ok ts => ts !! key
  | Raise _ => None
  end.

(** The paths of [l] are plain and none is listed more than [k] times. *)
Definition bounded (k : nat) (l : list Path) : Prop :=
  forallb plain_path l = true /\ forall p, count_occ path_dec l p <= k.

(** The one-character text that is a backslash. *)
Definition bs : string := String Re.backslash "".

(** A name free of the characters that glob reads as wildcards. *)
Definition wildcard_free (s : string) : bool :=
  (negb (has_char "*" s) && negb (has_char "?" s) && negb (has_char "[" s))%bool.

(** The entries of the directory [d], in listing order; nothing when
    [d] is no directory. *)
Definition listing (f : Fs.t) (d : Path) : list Path :=
  if Fs.is_dir f d
  then List.filter (fun p => bool_decide (p <> [] /\ Fs.parent p = d)) (map fst f)
  else [].

(** [name] opens with [first] and closes with [last], the two not
    overlapping. *)
Definition fits (first last name : string) : Prop :=
  exists middle, name = first +:+ middle +:+ last.

(** [p] is the first entry of [d] whose name satisfies [P]. *)
Definition first_entry (f : Fs.t) (d : Path) (P : string -> Prop) (p : Path)
  : Prop :=
  exists before after,
    listing f d = before ++ p :: after /\
    P (Fs.name p) /\
    Forall (fun q => ~ P (Fs.name q)) before.

(** No entry of [d] has a name that satisfies [P]. *)
Definition no_entry (f : Fs.t) (d : Path) (P : string -> Prop) : Prop :=
  Forall (fun q => ~ P (Fs.name q)) (listing f d).

(** Backslashes turned into slashes. *)
Fixpoint slashes (s : string) : string :=
  match s with
  | EmptyString => EmptyString
  | String c s' =>
      String (if Ascii.eqb c Re.backslash then "/"%char else c) (slashes s')
  end.

(** The resource path of what lies at [rel] below the project root. *)
Definition res_of (rel : Path) : string :=
  "res://" +:+ slashes (Py.join "/" rel).

(** Where the program keeps what it fetches, below the project root. *)
Definition packs_rel : Path := ["assets"; "external"; "packs"].
Definition textures_rel : Path := ["assets"; "external"; "textures"; "ambientcg"].

(** The channels of a texture set: the key, and how the name of the file
    that fills it ends. *)
Definition channel_endings : list (string * string) :=
  [ ("albedo", "Color.jpg"); ("normal", "NormalGL.jpg");
    ("roughness", "Roughness.jpg"); ("metallic", "Metalness.jpg");
    ("ao", "AmbientOcclusion.jpg"); ("height", "Displacement.jpg") ].

(** The logical texture keys and the texture names tried for each, in
    order. *)
Definition candidate_names : list (string * list string) :=
  [ ("building_atlas_euro", ["Bricks079"; "Concrete023"]);
    ("building_atlas_industrial", ["MetalPlates006"; "Concrete023"]);
    ("terrain_grass", ["Grass004"]);
    ("terrain_pavement", ["Asphalt012"; "Concrete023"]) ].

(** The name of a texture directory without its resolution tag. *)
Definition base_of (tex_dir : Path) : string :=
  Py.replace "_2K-JPG" "" (Fs.name tex_dir).

(** [set] is what the directory [tex_dir] gives: every channel holds the
    resource path of the first entry of the directory whose name opens
    with the base name and closes with the ending of the channel; a
    channel without such an entry is absent, and so is every other
    key. *)
Definition read_off (f : Fs.t) (project_root tex_dir : Path)
    (set : gmap string string) : Prop :=
  (forall key ending, In (key, ending) channel_endings ->
     match set !! key with
     | Some x =>
         exists file rel,
           first_entry f tex_dir (fits (base_of tex_dir) ending) file /\
           file = project_root ++ rel /\ x = res_of rel
     | None => no_entry f tex_dir (fits (base_of tex_dir) ending)
     end) /\
  (forall key, ~ In key (map fst channel_endings) -> set !! key = None).

(** The candidate [name] gives nothing: no entry of the textures
    directory has a name that opens with it, or the first entry that has
    one holds no channel file. *)
Definition passed_over (f : Fs.t) (project_root textures_dir : Path)
    (name : string) : Prop :=
  no_entry f textures_dir (fits name "") \/
  exists tex_dir,
    first_entry f textures_dir (fits name "") tex_dir /\
    read_off f project_root tex_dir ∅.

(** The candidate [name] gives [set]: the first entry of the textures
    directory whose name opens with it gives that set, and the set is
    not empty. *)
Definition wins_with (f : Fs.t) (project_root textures_dir : Path)
    (name : string) (set : gmap string string) : Prop :=
  exists tex_dir,
    first_entry f textures_dir (fits name "") tex_dir /\
    read_off f project_root tex_dir set /\
    set <> ∅.

(** The entries of [d] have names free of wildcard characters. *)
Definition plain_entries (f : Fs.t) (d : Path) : bool :=
  forallb (fun p => wildcard_free (Fs.name p)) (listing f d).

(** The word that marks the pack bucket of a building pool. *)
Definition pack_word (key : string) : string :=
  if String.eqb key "industrial_buildings" then "industrial" else "suburban".

(** The pools of buildings. *)
Definition building_keys : list string :=
  [ "euro_buildings"; "industrial_buildings"; "beach_shacks" ].

(** The catalogues a run with the flags [args] works through. *)
Definition packs_of (args : Args) : list KenneyPack :=
  KENNEY_PACKS ++ (if (all args || ww2_assets args)%bool then KENNEY_WW2_PACKS else []).

Definition assets_of (args : Args) : list PolyHavenAsset :=
  if (all args || polyhaven args)%bool then POLYHAVEN_ASSETS else [].


(** An item of the pack phase. *)
Inductive Item :=
  | KenneyItem (pack : KenneyPack)
  | PolyHavenItem (asset : PolyHavenAsset).

(** The items a run with the flags [args] goes through, in its order. *)
Definition items_of (args : Args) : list Item :=
  map KenneyItem (packs_of args) ++ map PolyHavenItem (assets_of args).

(** The pack directory of an item. *)
Definition dir_of (packs_dir : Path) (it : Item) : Path :=
  match it with
  | KenneyItem pack => packs_dir ++ [slug pack]
  | PolyHavenItem asset =>
      packs_dir ++ ["polyhaven_" +:+ Py.replace ".zip" "" (ph_file_name asset)]
  end.

Section Attempts.

Variable env : Env.
Variables (packs_dir project_root : Path).

(** What the program calls for an item. *)
Definition fetch_item (it : Item) : M (option Path) :=
  match it with
  | KenneyItem pack =>
      d <- fetch_kenney_pack env pack packs_dir project_root ;; ret (Some d)
  | PolyHavenItem asset => fetch_polyhaven_asset env asset packs_dir project_root
  end.

(** One attempt of a run: the item, the state the attempt starts in,
    what its fetch returns and the state it leaves. *)
Record Attempt := {
  item : Item;
  before : State;
  outcome : result (option Path);
  after : State;
}.

(** The attempts of a pack phase that starts in [s]: each item is
    fetched in the state the attempt before it has left, whatever that
    attempt has returned. *)
Fixpoint attempts (items : list Item) (s : State) : list Attempt :=
  match items with
  | [] => []
  | it :: rest =>
      let r := fetch_item it s in
      {| item := it; before := s; outcome := r.1; after := r.2 |}
      :: attempts rest r.2
  end.

(** The state the attempts on [items] leave. *)
Definition state_after (items : list Item) (s : State) : State :=
  fold_left (fun s it => (fetch_item it s).2) items s.

(** The first part of [fetch_kenney_pack]: the archive of the pack,
    from the cache or from the network. *)
Definition kenney_locate (pack : KenneyPack) : M Path :=
  ingest_dir <- ensure_ingest_dir_exists project_root ;;
  f <- get_fs ;;
  match kenney_cache_lookup f ingest_dir pack with
  | Some zip_file => ret zip_file
  | None =>
      html <- _http_get env (page_url pack) ;;
      match _pick_best_kenney_zip_link html with
      | None | Some EmptyString =>
          raise (RuntimeError ("Could not find download link on " +:+ page_url pack))
      | Some zip_url =>
          let local_zip := ingest_dir ++ [slug pack +:+ ".zip"] in
          _download env zip_url local_zip ;;;
          ret local_zip
      end
  end.

(** The first part of [fetch_polyhaven_asset]; [None] when it gives up. *)
Definition polyhaven_locate (asset : PolyHavenAsset) : M (option Path) :=
  f <- get_fs ;;
  let ingest_dir := get_ingest_dir project_root in
  match polyhaven_cache_lookup f ingest_dir asset with
  | Some zip_file => ret (Some zip_file)
  | None =>
      try_except
        (html <- _http_get env (url asset) ;;
         match _parse_polyhaven_download_url html with
         | Some download_url =>
             if String.eqb download_url "" then ret None
             else
               z <- download_to_ingest env download_url (ph_file_name asset)
                      project_root ;;
               ret (Some z)
         | None => ret None
         end)
        (fun _ => ret None)
  end.

(** What an attempt does up to its call of [extract_zip]: the archive it
    is about to unpack. *)
Definition up_to_extraction (it : Item) : M (option Path) :=
  match it with
  | KenneyItem pack =>
      z <- kenney_locate pack ;;
      update_fs (FsOps.makedirs packs_dir) ;;;
      remove_if_exists (packs_dir ++ [slug pack]) ;;;
      ret (Some z)
  | PolyHavenItem asset =>
      z <- polyhaven_locate asset ;;
      match z with
      | None => ret None
      | Some local_zip =>
          update_fs (FsOps.makedirs packs_dir) ;;;
          let out_zip := packs_dir ++ ["polyhaven_" +:+ ph_file_name asset] in
          update_fs (FsOps.copy2 local_zip out_zip) ;;;
          remove_if_exists (dir_of packs_dir it) ;;;
          ret (Some out_zip)
      end
  end.

(** The call of [extract_zip] the attempt on [it] that starts in [s]
    makes: the archive and the state of the call; [None] when the
    attempt ends before it gets there. *)
Definition extraction_call (it : Item) (s : State) : option (Path * State) :=
  match up_to_extraction it s with
  | (Ok (Some zip), s_mid) => Some (zip, s_mid)
  | _ => None
  end.

(** What the attempt on [it] returns when its extraction returns [x]. *)
Definition outcome_of (it : Item) (x : result unit) : result (option Path) :=
  match x, it with
  | Ok _, _ => Ok (Some (dir_of packs_dir it))
  | Raise e, KenneyItem _ => Raise e
  | Raise _, PolyHavenItem _ => Ok None
  end.

(** The attempt returns a directory exactly when it gets to its
    extraction and the extraction returns. *)
Definition counts_its_extraction (a : Attempt) : Prop :=
  match extraction_call (item a) (before a) with
  | Some (zip, s_mid) =>
      let r := extract_zip env zip (dir_of packs_dir (item a)) s_mid in
      outcome a = outcome_of (item a) r.1 /\ after a = r.2
  | None => forall d, outcome a <> Ok (Some d)
  end.

End Attempts.

(** The directories the attempts have returned. *)
Definition extracted (log : list Attempt) : list Path :=
  omap (fun a => match outcome a with Ok (Some d) => Some d | _ => None end) log.

(** A computation that makes no network call. *)
Definition silent {A} (m : M A) : Prop :=
  forall s : State, net_log (m s).2 = net_log s.

(** The network calls a computation adds to the log when run in [s]. *)
Definition calls_of {A} (m : M A) (s : State) (calls : list NetCall) : Prop :=
  net_log (m s).2 = net_log s ++ calls.

(** Every member of [ms] is on disk below [dst]: a directory member as a
    directory, a file member as a file that holds the content of a
    member of [ms] with the same path. *)
Definition members_on_disk (dst : Path) (ms : list (Path * node)) (f : Fs.t)
  : Prop :=
  forall (rel : Path) (n : node), In (rel, n) ms ->
    match n with
    | Dir => Fs.stat f (dst ++ rel) = Some Dir
    | File _ => exists c, In (rel, File c) ms /\
                          Fs.stat f (dst ++ rel) = Some (File c)
    end.







(** The length a pool is cut to. *)
Definition pool_cap (key : string) : nat :=
  if bool_decide (key ∈ tree_keys) then 32 else 24.




(** The directories the pack phase of a run can return, in its order. *)
Definition pack_dirs_of (args : Args) (packs_dir : Path) : list Path :=
  map (fun pack => packs_dir ++ [slug pack]) (packs_of args)
  ++ map (fun asset =>
            packs_dir ++ ["polyhaven_" +:+ Py.replace ".zip" "" (ph_file_name asset)])
         (assets_of args).


(** The links [_pick_best_kenney_zip_link] prefers: below the asset
    pages and with the prefix of the archives in the name. *)
Definition canonical_link (cand : string) : bool :=
  (Py.contains "/media/pages/assets/" cand && Py.contains "kenney_" cand)%bool.

(** What [_parse_polyhaven_download_url] asks of a link, in one of its
    two passes, before it returns it. *)
Definition link_looks_like_download (m : string) : bool :=
  (Py.endswith m ".zip" || Py.contains "download" (Py.lower m)
   || Py.contains "polyhaven.com/a/" m || Py.contains "asset" (Py.lower m)
   || Py.contains "cdn" (Py.lower m))%bool.

(** Every channel of the texture set is one of [keys]. *)
Definition channels_among (keys : list string) (set : gmap string string) : Prop :=
  forall ch x, set !! ch = Some x -> In ch keys.

(* ================================================================== *)
(** ** Running monadic code *)
(* ================================================================== *)

Lemma bind_inv {A B} (m : M A) (k : A -> M B) (s s' : State) (r : result B) :
  bind m k s = (r, s') ->
  (exists a s1, m s = (Ok a, s1) /\ k a s1 = (r, s')) \/
  (exists e, m s = (Raise e, s') /\ r = Raise e).
Proof.
  unfold bind. destruct (m s) as [[a|e] s1]; intros H.
  - left. eauto.
  - right. inversion H; subst. eauto.
Qed.

Lemma bind_ok_inv {A B} (m : M A) (k : A -> M B) (s s' : State) (b : B) :
  bind m k s = (Ok b, s') ->
  exists a s1, m s = (Ok a, s1) /\ k a s1 = (Ok b, s').
Proof.
  intros H. apply bind_inv in H as [H|[e [_ H]]]; [exact H | discriminate].
Qed.

Lemma bind_ok {A B} (m : M A) (k : A -> M B) (s s1 : State) (a : A) :
  m s = (Ok a, s1) -> bind m k s = k a s1.
Proof. unfold bind. intros ->. reflexivity. Qed.

Lemma update_fs_ok (g : Fs.t -> result Fs.t) (s s' : State) (u : unit) :
  update_fs g s = (Ok u, s') ->
  g (fs s) = Ok (fs s') /\ net_log s' = net_log s.
Proof.
  unfold update_fs. destruct (g (fs s)); intros H; inversion H; subst. auto.
Qed.

Lemma update_fs_raise (g : Fs.t -> result Fs.t) (s s' : State) (e : exn) :
  update_fs g s = (Raise e, s') -> s' = s.
Proof.
  unfold update_fs. destruct (g (fs s)); intros H; inversion H; subst. auto.
Qed.

(* ================================================================== *)
(** ** Paths and lookups *)
(* ================================================================== *)

Lemma relative_to_Some (p d rel : Path) :
  Fs.relative_to p d = Some rel <-> p = d ++ rel.
Proof.
  revert p. induction d as [|x d IH]; intros p; simpl.
  - split; [intros [= ->] | intros ->]; reflexivity.
  - destruct p as [|y p]; [split; discriminate|].
    destruct (decide (x = y)) as [->|Hne].
    + rewrite IH. split; [intros -> | intros [= ->]]; reflexivity.
    + split; [discriminate | intros [= -> ->]; contradiction].
Qed.

Lemma relative_to_app (d rel : Path) : Fs.relative_to (d ++ rel) d = Some rel.
Proof. apply relative_to_Some. reflexivity. Qed.

Lemma within_true (d p : Path) :
  Fs.within d p = true <-> exists rel, p = d ++ rel.
Proof.
  unfold Fs.within. destruct (Fs.relative_to p d) as [rel|] eqn:E.
  - apply relative_to_Some in E. split; eauto.
  - split; [discriminate|]. intros [rel Hrel].
    apply relative_to_Some in Hrel. congruence.
Qed.

Lemma below_true (d p : Path) :
  Fs.below d p = true <-> exists c rel, p = d ++ c :: rel.
Proof.
  unfold Fs.below. destruct (Fs.relative_to p d) as [[|c rel]|] eqn:E.
  - apply relative_to_Some in E. split; [discriminate|].
    intros (c & rel & H). subst p.
    apply (f_equal (@length string)) in H. rewrite !length_app in H.
    simpl in H. lia.
  - apply relative_to_Some in E. split; eauto.
  - split; [discriminate|]. intros (c & rel & H).
    apply relative_to_Some in H. congruence.
Qed.

Lemma below_within (d p : Path) : Fs.below d p = true -> Fs.within d p = true.
Proof.
  rewrite below_true, within_true. intros (c & rel & ->). eauto.
Qed.

Lemma lookup_In (f : Fs.t) (p : Path) (n : node) :
  Fs.lookup f p = Some n -> In (p, n) f.
Proof.
  induction f as [|[q m] f IH]; simpl; [discriminate|].
  destruct (decide (q = p)) as [->|]; [intros [= ->]; auto | auto].
Qed.

Lemma In_lookup (f : Fs.t) (p : Path) (n : node) :
  In (p, n) f -> exists n', Fs.lookup f p = Some n'.
Proof.
  induction f as [|[q m] f IH]; simpl; [tauto|].
  destruct (decide (q = p)); [eauto|].
  intros [[= -> ->]|H]; [contradiction | auto].
Qed.

Lemma lookup_app (f g : Fs.t) (p : Path) :
  Fs.lookup (f ++ g) p =
  match Fs.lookup f p with Some n => Some n | None => Fs.lookup g p end.
Proof.
  induction f as [|[q m] f IH]; simpl; [reflexivity|].
  destruct (decide (q = p)); auto.
Qed.

Lemma stat_app (f g : Fs.t) (p : Path) :
  Fs.stat (f ++ g) p =
  match Fs.stat f p with Some n => Some n | None => Fs.lookup g p end.
Proof. destruct p; [reflexivity|]. apply lookup_app. Qed.

Lemma In_exists (f : Fs.t) (p : Path) (n : node) :
  In (p, n) f -> Fs.exists_ f p = true.
Proof.
  intros H. unfold Fs.exists_, Fs.stat. destruct p; [reflexivity|].
  apply In_lookup in H as [n' ->]. reflexivity.
Qed.

Lemma exists_app (f g : Fs.t) (p : Path) :
  Fs.exists_ f p = true -> Fs.exists_ (f ++ g) p = true.
Proof.
  unfold Fs.exists_. rewrite stat_app. destruct (Fs.stat f p); [auto|discriminate].
Qed.

Lemma parent_snoc (p : Path) (c : string) : Fs.parent (p ++ [c]) = p.
Proof. unfold Fs.parent. apply removelast_last. Qed.

Lemma exists_listed (f : Fs.t) (p : Path) :
  p <> [] -> Fs.exists_ f p = true -> exists n, In (p, n) f.
Proof.
  unfold Fs.exists_, Fs.stat. destruct p as [|x q]; [done|]. intros _.
  destruct (Fs.lookup f (x :: q)) as [m|] eqn:El; [|discriminate].
  intros _. exists m. apply lookup_In, El.
Qed.

(** In a filesystem that lists parents, whatever lies above a listed
    path exists. *)
Lemma ancestors_exist (f : Fs.t) (d rel : Path) (n : node) :
  parents_listed f = true -> rel <> [] -> In (d ++ rel, n) f ->
  Fs.exists_ f d = true.
Proof.
  intros Hf. revert n. induction rel as [|c rel IH] using rev_ind; [done|].
  intros n _ Hin. pose proof Hf as Hall. unfold parents_listed in Hall.
  rewrite forallb_forall in Hall. specialize (Hall _ Hin). simpl in Hall.
  rewrite app_assoc, parent_snoc in Hall.
  destruct rel as [|c' rel'].
  - rewrite app_nil_r in Hall. exact Hall.
  - apply exists_listed in Hall as [m Hm]; [|destruct d; discriminate].
    eapply IH; [discriminate | exact Hm].
Qed.

Lemma absent_nothing_at (s : State) (d : Path) :
  parents_listed (fs s) = true -> Fs.exists_ (fs s) d = false -> nothing_at d s.
Proof.
  intros Hf Hd [p n] Hin. simpl.
  destruct (Fs.within d p) eqn:E; [|reflexivity].
  apply within_true in E as [rel ->].
  destruct rel as [|c rel].
  - rewrite app_nil_r in Hin. apply In_exists in Hin. congruence.
  - assert (Fs.exists_ (fs s) d = true); [|congruence].
    eapply (ancestors_exist _ d (c :: rel)); eauto.
Qed.

(* ================================================================== *)
(** ** What the filesystem updates change *)
(* ================================================================== *)

Lemma parents_listed_app (f g : Fs.t) :
  parents_listed f = true ->
  (forall e, In e g -> Fs.exists_ (f ++ g) (Fs.parent e.1) = true) ->
  parents_listed (f ++ g) = true.
Proof.
  intros Hf Hg. unfold parents_listed in *.
  rewrite forallb_forall in *. intros e He.
  apply in_app_or in He as [He|He]; [apply exists_app, Hf, He | apply Hg, He].
Qed.

(** [makedirs] adds directories at the end of the listing and nothing
    else. *)
Lemma mkdir_chain_adds_dirs (todo : list string) (f : Fs.t) (base : Path) (f' : Fs.t) :
  FsOps.mkdir_chain f base todo = Ok f' ->
  exists ds, f' = f ++ ds /\ Forall (fun e : Path * node => e.2 = Dir) ds.
Proof.
  revert f base. induction todo as [|c todo IH]; intros f base; simpl.
  - intros [= <-]. exists []. rewrite app_nil_r. auto.
  - destruct (Fs.stat f (base ++ [c])) as [[|?]|]; [apply IH|discriminate|].
    intros H. apply IH in H as (ds & -> & Hds).
    exists ((base ++ [c], Dir) :: ds). rewrite <- app_assoc. split; [reflexivity|].
    constructor; auto.
Qed.

Lemma mkdir_chain_listed (todo : list string) (f : Fs.t) (base : Path) (f' : Fs.t) :
  parents_listed f = true -> Fs.exists_ f base = true ->
  FsOps.mkdir_chain f base todo = Ok f' -> parents_listed f' = true.
Proof.
  revert f base. induction todo as [|c todo IH]; intros f base Hf Hb; simpl.
  - intros [= <-]. exact Hf.
  - destruct (Fs.stat f (base ++ [c])) as [[|?]|] eqn:E; [|discriminate|].
    + apply IH; [exact Hf|]. unfold Fs.exists_. rewrite E. reflexivity.
    + apply IH.
      * apply parents_listed_app; [exact Hf|].
        intros e [<-|[]]. simpl. rewrite parent_snoc. apply exists_app, Hb.
      * apply (In_exists _ _ Dir), in_or_app. right. left. reflexivity.
Qed.

Lemma makedirs_adds_dirs (p : Path) (f f' : Fs.t) :
  FsOps.makedirs p f = Ok f' ->
  exists ds, f' = f ++ ds /\ Forall (fun e : Path * node => e.2 = Dir) ds.
Proof. apply mkdir_chain_adds_dirs. Qed.

Lemma makedirs_listed (p : Path) (f f' : Fs.t) :
  parents_listed f = true -> FsOps.makedirs p f = Ok f' ->
  parents_listed f' = true.
Proof. intros Hf. apply mkdir_chain_listed; [exact Hf | reflexivity]. Qed.

Lemma makedirs_files (p : Path) (f f' : Fs.t) (q : Path) (c : content) :
  FsOps.makedirs p f = Ok f' -> In (q, File c) f' -> In (q, File c) f.
Proof.
  intros H Hin. apply makedirs_adds_dirs in H as (ds & -> & Hds).
  apply in_app_or in Hin as [Hin|Hin]; [exact Hin|].
  rewrite Forall_forall in Hds. apply list_elem_of_In in Hin.
  apply Hds in Hin. discriminate.
Qed.

Lemma makedirs_read (p zip : Path) (f f' : Fs.t) (c : content) :
  FsOps.makedirs p f = Ok f' ->
  FsOps.read_file zip f' = Ok c -> FsOps.read_file zip f = Ok c.
Proof.
  intros H. apply makedirs_adds_dirs in H as (ds & -> & Hds).
  unfold FsOps.read_file. rewrite stat_app.
  destruct (Fs.stat f zip) as [n|]; [auto|].
  destruct (Fs.lookup ds zip) as [[|c']|] eqn:E; try discriminate.
  apply lookup_In in E. rewrite Forall_forall in Hds.
  apply list_elem_of_In in E. apply Hds in E. discriminate.
Qed.

Lemma set_content_In (p : Path) (c : content) (f : Fs.t) (q : Path) (n : node) :
  In (q, n) (FsOps.set_content p c f) -> In (q, n) f \/ (q = p /\ n = File c).
Proof.
  induction f as [|[q' n'] f IH]; simpl; [tauto|].
  destruct (decide (q' = p)) as [->|]; simpl.
  - intros [[= <- <-]|H]; auto.
  - intros [H|H]; [auto | apply IH in H; tauto].
Qed.

Lemma set_content_lookup (p : Path) (c : content) (f : Fs.t) (q : Path) :
  Fs.lookup (FsOps.set_content p c f) q =
  match Fs.lookup f q with
  | Some n => Some (if decide (q = p) then File c else n)
  | None => None
  end.
Proof.
  induction f as [|[q' n'] f IH]; simpl; [reflexivity|].
  destruct (decide (q' = p)) as [->|Hne]; simpl.
  - destruct (decide (p = q)) as [->|Hne'].
    + destruct (decide (q = q)); [reflexivity|contradiction].
    + destruct (Fs.lookup f q); [|reflexivity].
      destruct (decide (q = p)); [congruence|reflexivity].
  - destruct (decide (q' = q)) as [->|]; [|exact IH].
    destruct (decide (q = p)); [contradiction|reflexivity].
Qed.

Lemma set_content_exists (p : Path) (c : content) (f : Fs.t) (q : Path) :
  Fs.exists_ (FsOps.set_content p c f) q = Fs.exists_ f q.
Proof.
  unfold Fs.exists_, Fs.stat. destruct q; [reflexivity|].
  rewrite set_content_lookup. destruct (Fs.lookup f (s :: q)); reflexivity.
Qed.

Lemma set_content_fst (p : Path) (c : content) (f : Fs.t) :
  map fst (FsOps.set_content p c f) = map fst f.
Proof.
  induction f as [|[q' n'] f IH]; simpl; [reflexivity|].
  destruct (decide (q' = p)); simpl; congruence.
Qed.

(** [write_file] changes the entry of [p] and nothing else. *)
Lemma write_file_In (p : Path) (c : content) (f f' : Fs.t) (q : Path) (n : node) :
  FsOps.write_file p c f = Ok f' -> In (q, n) f' ->
  In (q, n) f \/ (q = p /\ n = File c).
Proof.
  unfold FsOps.write_file. destruct (Fs.is_dir f (Fs.parent p)); [|discriminate].
  destruct (Fs.stat f p) as [[|c']|]; [discriminate| |]; intros [= <-] Hin.
  - apply set_content_In, Hin.
  - apply in_app_or in Hin as [Hin|[[= <- <-]|[]]]; auto.
Qed.

Lemma write_file_listed (p : Path) (c : content) (f f' : Fs.t) :
  parents_listed f = true -> FsOps.write_file p c f = Ok f' ->
  parents_listed f' = true.
Proof.
  intros Hf. unfold FsOps.write_file.
  destruct (Fs.is_dir f (Fs.parent p)) eqn:Hp; [|discriminate].
  destruct (Fs.stat f p) as [[|c']|]; [discriminate| |]; intros [= <-].
  - unfold parents_listed in *. rewrite forallb_forall in *.
    intros [q n] Hin. simpl. rewrite set_content_exists.
    apply set_content_In in Hin as [Hin|[-> _]].
    + apply (Hf _ Hin).
    + unfold Fs.is_dir in Hp. unfold Fs.exists_.
      destruct (Fs.stat f (Fs.parent p)); [reflexivity|discriminate].
  - apply parents_listed_app; [exact Hf|]. intros e [<-|[]]. simpl.
    apply exists_app. unfold Fs.is_dir in Hp. unfold Fs.exists_.
    destruct (Fs.stat f (Fs.parent p)); [reflexivity|discriminate].
Qed.

(** After [write_file] the file reads back. *)
Lemma write_file_lookup (p : Path) (c : content) (f f' : Fs.t) :
  p <> [] -> FsOps.write_file p c f = Ok f' ->
  Fs.lookup f' p = Some (File c).
Proof.
  intros Hp. unfold FsOps.write_file.
  destruct (Fs.is_dir f (Fs.parent p)); [|discriminate].
  destruct p as [|x p]; [done|]. simpl Fs.stat.
  destruct (Fs.lookup f (x :: p)) as [[|c']|] eqn:E; [discriminate| |];
    intros [= <-].
  - rewrite set_content_lookup, E. rewrite decide_True; reflexivity.
  - rewrite lookup_app, E. simpl. rewrite decide_True; reflexivity.
Qed.

Lemma copy2_listed (src dst : Path) (f f' : Fs.t) :
  parents_listed f = true -> FsOps.copy2 src dst f = Ok f' ->
  parents_listed f' = true.
Proof.
  intros Hf. unfold FsOps.copy2, rbind.
  destruct (FsOps.read_file src f); [|discriminate].
  destruct (decide _); [discriminate|]. apply write_file_listed, Hf.
Qed.

(** [rmtree] leaves nothing at or below the directory. *)
Lemma rmtree_clears (p : Path) (f f' : Fs.t) (e : Path * node) :
  FsOps.rmtree p f = Ok f' -> In e f' -> Fs.within p e.1 = false.
Proof.
  unfold FsOps.rmtree. destruct (Fs.stat f p) as [[|?]|]; try discriminate.
  intros [= <-] Hin. apply filter_In in Hin as [_ Hin].
  apply negb_true_iff, Hin.
Qed.

(** A file listed after a member was extracted was listed before, or is
    that member. *)
Lemma extract_member_files (dst : Path) (m : Path * node) (f f' : Fs.t)
    (q : Path) (c : content) :
  FsOps.extract_member dst m f = Ok f' -> In (q, File c) f' ->
  In (q, File c) f \/ exists rel, m = (rel, File c) /\ q = dst ++ rel.
Proof.
  unfold FsOps.extract_member. destruct m as [rel [|c']]; simpl.
  - intros H Hin. left. eapply makedirs_files; eauto.
  - unfold rbind. destruct (FsOps.makedirs _ f) as [f1|] eqn:E1; [|discriminate].
    intros H Hin. eapply write_file_In in Hin; [|exact H].
    destruct Hin as [Hin|[-> [= ->]]].
    + left. eapply makedirs_files; eauto.
    + right. eauto.
Qed.

(* ================================================================== *)
(** ** Extraction *)
(* ================================================================== *)

Lemma extract_members_files (dst : Path) (ms : list (Path * node))
    (s s' : State) (r : result unit) (q : Path) (c : content) :
  extract_members dst ms s = (r, s') -> In (q, File c) (fs s') ->
  In (q, File c) (fs s) \/ exists rel, In (rel, File c) ms /\ q = dst ++ rel.
Proof.
  revert s. induction ms as [|m ms IH]; intros s; simpl.
  - intros [= <- <-]. auto.
  - intros H Hin. apply bind_inv in H as [([] & s1 & H1 & H2)|(e & H1 & _)].
    + apply update_fs_ok in H1 as [H1 _].
      destruct (IH _ H2 Hin) as [Hold|(rel & Hrel & ->)].
      * destruct (extract_member_files _ _ _ _ _ _ H1 Hold) as [?|(rel & -> & ->)];
          [auto | right; eauto].
      * right. eauto.
    + apply update_fs_raise in H1 as ->. auto.
Qed.

Section Extraction.

Variable env : Env.

(** A file listed after [extract_zip], finished or not, was listed
    before or comes out of the archive. *)
Lemma extract_zip_files (zip dst : Path) (s s' : State) (r : result unit)
    (q : Path) (c : content) :
  extract_zip env zip dst s = (r, s') -> In (q, File c) (fs s') ->
  In (q, File c) (fs s) \/ unpacked_from env (fs s) zip dst q c.
Proof.
  unfold extract_zip. intros H Hin.
  apply bind_inv in H as [([] & s1 & H1 & H)|(e & H1 & _)].
  2:{ apply update_fs_raise in H1 as ->. auto. }
  apply update_fs_ok in H1 as [Hmk _].
  assert (Hold : forall q c, In (q, File c) (fs s1) -> In (q, File c) (fs s)).
  { intros q' c'. apply makedirs_files with (p := dst), Hmk. }
  apply bind_inv in H as [(f & s1' & [= <- <-] & H)|(e & [=] & _)].
  apply bind_inv in H as [(c0 & s1' & Hread & H)|(e & Hread & _)].
  2:{ unfold lift in Hread. inversion Hread; subst. auto. }
  unfold lift in Hread. inversion Hread as [[Hread' Hs]]. subst s1'.
  destruct (zip_decode env c0) as [a|] eqn:Ea.
  2:{ inversion H; subst. auto. }
  assert (Hst : exists r0, extract_members dst (members a) s1 = (r0, s')).
  { apply bind_inv in H as [([] & s2 & H2 & H)|(e & H2 & _)]; [|eauto].
    destruct (intact a); inversion H; subst; eauto. }
  destruct Hst as [r0 Hst].
  destruct (extract_members_files _ _ _ _ _ _ _ Hst Hin) as [?|(rel & Hrel & ->)];
    [auto|].
  right. exists c0, a, rel. repeat split; auto.
  eapply makedirs_read; eauto.
Qed.

(** Once [remove_if_exists] has returned, nothing is left of the
    directory. *)
Lemma remove_if_exists_clears (d : Path) (s s' : State) :
  parents_listed (fs s) = true ->
  remove_if_exists d s = (Ok tt, s') -> nothing_at d s'.
Proof.
  intros Hf. unfold remove_if_exists. intros H.
  apply bind_ok_inv in H as (f & s1 & [= <- <-] & H).
  destruct (Fs.exists_ (fs s) d) eqn:E.
  - apply update_fs_ok in H as [H _]. intros e He.
    eapply rmtree_clears; eauto.
  - inversion H; subst. apply absent_nothing_at; assumption.
Qed.

(** The state a computation ends in does not depend on what is done with
    its result. *)
Lemma state_after_ret {A B} (m : M A) (b : B) (s : State) :
  (bind m (fun _ => ret b) s).2 = (m s).2.
Proof. unfold bind, ret. destruct (m s) as [[a|e] s1]; reflexivity. Qed.

Lemma state_after_try {A B} (m : M A) (b b' : B) (s : State) :
  (try_except (bind m (fun _ => ret b)) (fun _ => ret b') s).2 = (m s).2.
Proof.
  unfold try_except, bind, ret. destruct (m s) as [[a|e] s1]; reflexivity.
Qed.

Lemma fresh_after_clear (zip out_dir : Path) (s : State) :
  nothing_at out_dir s ->
  only_fresh_files env zip out_dir s (extract_zip env zip out_dir s).2.
Proof.
  intros Hclear p c Hin Hbelow.
  destruct (extract_zip env zip out_dir s) as [r s'] eqn:E. simpl in Hin.
  destruct (extract_zip_files _ _ _ _ _ _ _ E Hin) as [Hold|Hnew]; [|exact Hnew].
  apply Hclear in Hold. simpl in Hold.
  apply below_within in Hbelow. congruence.
Qed.

End Extraction.

(* ================================================================== *)
(** ** The manifest writer *)
(* ================================================================== *)

Lemma lift_inv {A} (r : result A) (s s' : State) (a : A) :
  lift r s = (Ok a, s') -> r = Ok a /\ s' = s.
Proof. unfold lift. intros [= -> ->]. auto. Qed.

Lemma pools_dict_lookup (a b c d e f : list string) (key : string)
    (pool : list string) :
  pools_dict a b c d e f !! key = Some pool ->
  (key = "euro_buildings" /\ pool = a) \/
  (key = "industrial_buildings" /\ pool = b) \/
  (key = "beach_shacks" /\ pool = c) \/
  (key = "trees_conifer" /\ pool = d) \/
  (key = "trees_broadleaf" /\ pool = e) \/
  (key = "trees_palm" /\ pool = f).
Proof.
  unfold pools_dict. intros H.
  repeat (apply lookup_insert_Some in H as [[<- <-]|[_ H]]; [tauto|]).
  rewrite lookup_empty in H. discriminate.
Qed.

Section ManifestWriter.

Variable env : Env.

(** What a successful [write_manifest] has done: the document it has
    written reads back from the manifest path. *)
Lemma write_manifest_inv (project_root packs_dir textures_dir : Path)
    (variants : gmap string (list string)) (pack_dirs : list Path)
    (s s' : State) (p : Path) :
  write_manifest env project_root packs_dir textures_dir variants pack_dirs s
    = (Ok p, s') ->
  exists s1 texture_sets packs_res textures_res,
    update_fs (FsOps.makedirs (Fs.parent (manifest_path_of project_root))) s
      = (Ok tt, s1) /\
    build_texture_sets (fs s1) project_root textures_dir = Ok texture_sets /\
    _rel_res_path project_root packs_dir = Ok packs_res /\
    _rel_res_path project_root textures_dir = Ok textures_res /\
    p = manifest_path_of project_root /\
    let has_assets := Nat.ltb 0 (length pack_dirs) in
    Fs.lookup (fs s') p = Some (File (Json
      {| version := 2;
         generated_by := "tools/fetch_assets.py";
         generated_at := clock env;
         use_external_assets := has_assets;
         variants := if has_assets then variants else empty_pools;
         textures := texture_sets;
         packs_dir := packs_res;
         textures_dir := textures_res;
         status :=
           {| assets_downloaded := has_assets;
              asset_count := length pack_dirs;
              warning :=
                if has_assets then "Assets downloaded successfully."
                else "No assets were successfully downloaded. Using fallback values." |}
      |})).
Proof.
  unfold write_manifest. intros H.
  apply bind_ok_inv in H as ([] & s1 & H1 & H).
  apply bind_ok_inv in H as (f & s1' & [= <- <-] & H).
  apply bind_ok_inv in H as (ts & s1' & Hts & H).
  apply lift_inv in Hts as [Hts ->].
  apply bind_ok_inv in H as (pr & s1' & Hpr & H).
  apply lift_inv in Hpr as [Hpr ->].
  apply bind_ok_inv in H as (tr & s1' & Htr & H).
  apply lift_inv in Htr as [Htr ->].
  apply bind_ok_inv in H as ([] & s2 & Hw & [= <- <-]).
  apply update_fs_ok in Hw as [Hw _].
  exists s1, ts, pr, tr. repeat split; auto.
  eapply write_file_lookup; [|exact Hw].
  unfold manifest_path_of. destruct project_root; discriminate.
Qed.

End ManifestWriter.

(* ================================================================== *)
(** ** What updates leave on disk *)
(* ================================================================== *)

Lemma makedirs_stat (p q : Path) (f f' : Fs.t) (n : node) :
  FsOps.makedirs p f = Ok f' -> Fs.stat f q = Some n -> Fs.stat f' q = Some n.
Proof.
  intros H Hq. apply makedirs_adds_dirs in H as (ds & -> & _).
  rewrite stat_app, Hq. reflexivity.
Qed.

Lemma mkdir_chain_is_dir (todo : list string) (f : Fs.t) (base : Path) (f' : Fs.t) :
  Fs.is_dir f base = true ->
  FsOps.mkdir_chain f base todo = Ok f' -> Fs.is_dir f' (base ++ todo) = true.
Proof.
  revert f base. induction todo as [|c todo IH]; intros f base Hb; simpl.
  - intros [= <-]. rewrite app_nil_r. exact Hb.
  - replace (base ++ c :: todo) with ((base ++ [c]) ++ todo)
      by (rewrite <- app_assoc; reflexivity).
    destruct (Fs.stat f (base ++ [c])) as [[|?]|] eqn:E; [|discriminate|].
    + apply IH. unfold Fs.is_dir. rewrite E. reflexivity.
    + apply IH. unfold Fs.is_dir. rewrite stat_app, E.
      destruct (base ++ [c]) eqn:Eq; [destruct base; discriminate|].
      simpl. rewrite decide_True; reflexivity.
Qed.

(** After [makedirs] the path is a directory. *)
Lemma makedirs_is_dir (p : Path) (f f' : Fs.t) :
  FsOps.makedirs p f = Ok f' -> Fs.is_dir f' p = true.
Proof. apply (mkdir_chain_is_dir p f []). reflexivity. Qed.

Lemma write_file_stat_same (p : Path) (c : content) (f f' : Fs.t) :
  FsOps.write_file p c f = Ok f' -> Fs.stat f' p = Some (File c).
Proof.
  intros H. destruct p as [|x p].
  - unfold FsOps.write_file in H. simpl in H.
    destruct (Fs.is_dir f (Fs.parent [])); discriminate.
  - simpl. eapply write_file_lookup; [discriminate | exact H].
Qed.

Lemma write_file_stat_other (p q : Path) (c : content) (f f' : Fs.t) :
  FsOps.write_file p c f = Ok f' -> q <> p -> Fs.stat f' q = Fs.stat f q.
Proof.
  unfold FsOps.write_file. destruct (Fs.is_dir f (Fs.parent p)); [|discriminate].
  destruct (Fs.stat f p) as [[|c']|] eqn:E; [discriminate| |];
    intros [= <-] Hne; destruct q as [|y q]; try reflexivity; simpl.
  - rewrite set_content_lookup. destruct (Fs.lookup f (y :: q)); [|reflexivity].
    rewrite decide_False; auto.
  - rewrite lookup_app. destruct (Fs.lookup f (y :: q)); [reflexivity|].
    simpl. rewrite decide_False; auto.
Qed.

Lemma write_file_keeps_dirs (p q : Path) (c : content) (f f' : Fs.t) :
  FsOps.write_file p c f = Ok f' -> Fs.stat f q = Some Dir ->
  Fs.stat f' q = Some Dir.
Proof.
  intros H Hq. destruct (decide (q = p)) as [->|Hne].
  - unfold FsOps.write_file in H. rewrite Hq in H.
    destruct (Fs.is_dir f (Fs.parent p)); discriminate.
  - rewrite (write_file_stat_other _ _ _ _ _ H Hne). exact Hq.
Qed.

Lemma extract_member_keeps_dirs (dst q : Path) (m : Path * node) (f f' : Fs.t) :
  FsOps.extract_member dst m f = Ok f' -> Fs.stat f q = Some Dir ->
  Fs.stat f' q = Some Dir.
Proof.
  unfold FsOps.extract_member. destruct m as [rel [|c]]; simpl.
  - intros H Hq. eapply makedirs_stat; eauto.
  - unfold rbind. destruct (FsOps.makedirs _ f) as [f1|] eqn:E; [|discriminate].
    intros H Hq. eapply write_file_keeps_dirs; [exact H|].
    eapply makedirs_stat; eauto.
Qed.

(** The member just extracted is on disk. *)
Lemma extract_member_done (dst : Path) (m : Path * node) (f f' : Fs.t) :
  FsOps.extract_member dst m f = Ok f' -> Fs.stat f' (dst ++ m.1) = Some m.2.
Proof.
  unfold FsOps.extract_member. destruct m as [rel [|c]]; simpl.
  - intros H. apply makedirs_is_dir in H. unfold Fs.is_dir in H.
    destruct (Fs.stat f' (dst ++ rel)) as [[|?]|]; try discriminate. reflexivity.
  - unfold rbind. destruct (FsOps.makedirs _ f) as [f1|]; [|discriminate].
    apply write_file_stat_same.
Qed.

(** A member on disk stays a member on disk when one more is extracted:
    a directory stays, a file stays or takes the content of the new
    member of the same path. *)
Lemma extract_member_keeps (dst rel : Path) (n : node) (m : Path * node)
    (f f' : Fs.t) :
  FsOps.extract_member dst m f = Ok f' ->
  Fs.stat f (dst ++ rel) = Some n ->
  Fs.stat f' (dst ++ rel) = Some n \/
  exists c, m = (rel, File c) /\ Fs.stat f' (dst ++ rel) = Some (File c).
Proof.
  intros H Hq. destruct n as [|c0].
  { left. eapply extract_member_keeps_dirs; eauto. }
  pose proof H as H'. unfold FsOps.extract_member in H.
  destruct m as [rel' [|c]]; simpl in H.
  - left. eapply makedirs_stat; eauto.
  - unfold rbind in H.
    destruct (FsOps.makedirs _ f) as [f1|] eqn:E; [|discriminate].
    destruct (decide (dst ++ rel = dst ++ rel')) as [Heq|Hne].
    + right. apply app_inv_head in Heq. subst rel'. exists c.
      split; [reflexivity|]. eapply write_file_stat_same, H.
    + left. rewrite (write_file_stat_other _ _ _ _ _ H Hne).
      eapply makedirs_stat; eauto.
Qed.

Lemma members_on_disk_step (dst : Path) (done : list (Path * node))
    (m : Path * node) (f f' : Fs.t) :
  members_on_disk dst done f ->
  FsOps.extract_member dst m f = Ok f' ->
  members_on_disk dst (done ++ [m]) f'.
Proof.
  intros Hdone Hm rel n Hin. apply in_app_or in Hin as [Hin|[->|[]]].
  - specialize (Hdone rel n Hin). destruct n as [|c0].
    + eapply extract_member_keeps_dirs; eauto.
    + destruct Hdone as (c & Hc & Hs).
      destruct (extract_member_keeps _ _ _ _ _ _ Hm Hs) as [Hs'|(c' & -> & Hs')].
      * exists c. split; [apply in_or_app; auto | exact Hs'].
      * exists c'. split; [apply in_or_app; right; left; reflexivity | exact Hs'].
  - pose proof (extract_member_done _ _ _ _ Hm) as Hs. simpl in Hs.
    destruct n as [|c]; [exact Hs|].
    exists c. split; [apply in_or_app; right; left; reflexivity | exact Hs].
Qed.

Lemma extract_members_on_disk (dst : Path) (ms done : list (Path * node))
    (s s' : State) :
  members_on_disk dst done (fs s) ->
  extract_members dst ms s = (Ok tt, s') ->
  members_on_disk dst (done ++ ms) (fs s').
Proof.
  revert done s. induction ms as [|m ms IH]; intros done s Hdone; simpl.
  - intros [= <-]. rewrite app_nil_r. exact Hdone.
  - intros H. apply bind_ok_inv in H as ([] & s1 & H1 & H2).
    apply update_fs_ok in H1 as [H1 _].
    replace (done ++ m :: ms) with ((done ++ [m]) ++ ms)
      by (rewrite <- app_assoc; reflexivity).
    eapply IH; [|exact H2]. eapply members_on_disk_step; eauto.
Qed.

Lemma extract_members_keep_dirs (dst q : Path) (ms : list (Path * node))
    (s s' : State) :
  extract_members dst ms s = (Ok tt, s') ->
  Fs.stat (fs s) q = Some Dir -> Fs.stat (fs s') q = Some Dir.
Proof.
  revert s. induction ms as [|m ms IH]; intros s; simpl.
  - intros [= <-]. auto.
  - intros H Hq. apply bind_ok_inv in H as ([] & s1 & H1 & H2).
    apply update_fs_ok in H1 as [H1 _].
    eapply IH; [exact H2|]. eapply extract_member_keeps_dirs; eauto.
Qed.

(** What a call of [extract_zip] that returns has done. *)
Lemma extract_zip_ok_inv (env : Env) (zip dst : Path)
    (s s' : State) :
  extract_zip env zip dst s = (Ok tt, s') ->
  exists (c0 : content) (a : Archive),
    FsOps.read_file zip (fs s) = Ok c0 /\
    zip_decode env c0 = Some a /\
    intact a = true /\
    Fs.is_dir (fs s') dst = true /\
    members_on_disk dst (members a) (fs s').
Proof.
  unfold extract_zip. intros H.
  apply bind_ok_inv in H as ([] & s1 & H1 & H).
  apply update_fs_ok in H1 as [Hmk _].
  apply bind_ok_inv in H as (f & s1' & [= <- <-] & H).
  apply bind_ok_inv in H as (c0 & s1' & Hread & H).
  apply lift_inv in Hread as [Hread ->].
  destruct (zip_decode env c0) as [a|] eqn:Ea; [|discriminate].
  apply bind_ok_inv in H as ([] & s2 & Hms & H).
  destruct (intact a) eqn:Hi; [|discriminate]. inversion H; subst s2.
  exists c0, a. split; [eapply makedirs_read; eauto|].
  split; [exact Ea|]. split; [exact Hi|]. split.
  - apply makedirs_is_dir in Hmk. unfold Fs.is_dir in *.
    destruct (Fs.stat (fs s1) dst) as [[|?]|] eqn:E; try discriminate.
    rewrite (extract_members_keep_dirs _ _ _ _ _ Hms E). reflexivity.
  - apply (extract_members_on_disk dst (members a) [] s1 s'); [|exact Hms].
    intros rel n [].
Qed.

(* ================================================================== *)
(** ** The orchestrator *)
(* ================================================================== *)

Section Orchestrator.

Variable env : Env.

Lemma try_except_total {A} (m : M A) (a : A) (s : State) :
  exists b s', try_except m (fun _ => ret a) s = (Ok b, s').
Proof. unfold try_except, ret. destruct (m s) as [[b|e] s']; eauto. Qed.

(** The loops over the catalogues never raise. *)
Lemma kenney_loop_total (packs : list KenneyPack) (packs_dir project_root : Path)
    (pack_dirs : list Path) (s : State) :
  exists l s', kenney_loop env packs packs_dir project_root pack_dirs s = (Ok l, s').
Proof.
  revert pack_dirs s. induction packs as [|pack rest IH]; intros acc s; simpl.
  - unfold ret. eauto.
  - destruct (try_except_total
        (d <- fetch_kenney_pack env pack packs_dir project_root ;; ret (acc ++ [d]))
        acc s) as (b & s1 & Hb).
    rewrite (bind_ok _ _ _ _ _ Hb). apply IH.
Qed.

Lemma polyhaven_loop_total (assets : list PolyHavenAsset)
    (packs_dir project_root : Path) (pack_dirs : list Path) (s : State) :
  exists l s',
    polyhaven_loop env assets packs_dir project_root pack_dirs s = (Ok l, s').
Proof.
  revert pack_dirs s. induction assets as [|asset rest IH]; intros acc s; simpl.
  - unfold ret. eauto.
  - destruct (try_except_total
        (pack_dir <- fetch_polyhaven_asset env asset packs_dir project_root ;;
         ret (match pack_dir with Some d => acc ++ [d] | None => acc end))
        acc s) as (b & s1 & Hb).
    rewrite (bind_ok _ _ _ _ _ Hb). apply IH.
Qed.

Lemma fetch_packs_total (ww2 ph : bool) (packs_dir project_root : Path) (s : State) :
  exists l s', fetch_packs env ww2 ph packs_dir project_root s = (Ok l, s').
Proof.
  unfold fetch_packs.
  destruct (kenney_loop_total KENNEY_PACKS packs_dir project_root [] s)
    as (l1 & s1 & H1).
  rewrite (bind_ok _ _ _ _ _ H1).
  assert (H2 : exists l2 s2,
             (if ww2 then kenney_loop env KENNEY_WW2_PACKS packs_dir project_root l1
              else ret l1) s1 = (Ok l2, s2)).
  { destruct ww2; [apply kenney_loop_total | unfold ret; eauto]. }
  destruct H2 as (l2 & s2 & H2). rewrite (bind_ok _ _ _ _ _ H2).
  destruct ph; [apply polyhaven_loop_total | unfold ret; eauto].
Qed.

Lemma texture_group_total (textures : list AmbientCGTexture)
    (textures_dir project_root : Path) (s : State) :
  exists s', texture_group env textures textures_dir project_root s = (Ok tt, s').
Proof.
  unfold texture_group.
  destruct (try_except_total
    (fetch_ambientcg_textures env textures textures_dir project_root ;;; ret tt)
    tt s) as ([] & s' & H). eauto.
Qed.

Lemma fetch_textures_total (skip ww2 ph : bool) (textures_dir project_root : Path)
    (s : State) :
  exists s', fetch_textures env skip ww2 ph textures_dir project_root s = (Ok tt, s').
Proof.
  unfold fetch_textures. destruct skip; [unfold ret; eauto|].
  destruct (texture_group_total AMBIENTCG_TEXTURES textures_dir project_root s)
    as (s1 & H1).
  rewrite (bind_ok _ _ _ _ _ H1).
  assert (H2 : exists s2,
             (if ww2 then texture_group env AMBIENTCG_WW2_TEXTURES textures_dir project_root
              else ret tt) s1 = (Ok tt, s2)).
  { destruct ww2; [apply texture_group_total | unfold ret; eauto]. }
  destruct H2 as (s2 & H2). rewrite (bind_ok _ _ _ _ _ H2).
  destruct ph; [apply texture_group_total | unfold ret; eauto].
Qed.

Lemma try_except_inv {A} (m : M A) (a b : A) (s s' : State) :
  try_except m (fun _ => ret a) s = (Ok b, s') ->
  m s = (Ok b, s') \/ (b = a /\ exists e, m s = (Raise e, s')).
Proof.
  unfold try_except, ret. destruct (m s) as [[x|e] s1]; intros [= <- <-]; eauto.
Qed.

(** The directory [fetch_kenney_pack] returns is the one named after the
    pack. *)
Lemma fetch_kenney_pack_ok (pack : KenneyPack) (packs_dir project_root : Path)
    (s s' : State) (d : Path) :
  fetch_kenney_pack env pack packs_dir project_root s = (Ok d, s') ->
  d = packs_dir ++ [slug pack].
Proof.
  unfold fetch_kenney_pack. intros H.
  apply bind_ok_inv in H as (ingest_dir & s1 & _ & H).
  apply bind_ok_inv in H as (f & s2 & _ & H).
  apply bind_ok_inv in H as (local_zip & s3 & _ & H).
  unfold kenney_unpack in H.
  apply bind_ok_inv in H as ([] & s4 & _ & H).
  apply bind_ok_inv in H as ([] & s5 & _ & H).
  apply bind_ok_inv in H as ([] & s6 & _ & [= <- <-]).
  reflexivity.
Qed.

Lemma find_project_root_inv (start : Path) (s s' : State) (project_root : Path) :
  find_project_root start s = (Ok project_root, s') -> s' = s.
Proof.
  unfold find_project_root. intros H.
  apply bind_ok_inv in H as (f & s1 & [= <- <-] & H).
  destruct (find_root_loop _ _ _); inversion H; reflexivity.
Qed.

(** The steps of a run of [main] that ends normally and was not asked
    to list the cache only. *)
Lemma main_inv (args : Args) (s s' : State) (code : nat) :
  list_assets args = false ->
  main env args s = (Ok code, s') ->
  exists project_root pack_dirs s1 s2 variants,
    let packs_dir := project_root ++ ["assets"; "external"; "packs"] in
    let textures_dir :=
      project_root ++ ["assets"; "external"; "textures"; "ambientcg"] in
    find_project_root (project args) s = (Ok project_root, s) /\
    fetch_packs env (all args || ww2_assets args) (all args || polyhaven args)
      packs_dir project_root s = (Ok pack_dirs, s1) /\
    fetch_textures env (no_textures args) (all args || ww2_textures args)
      (all args || polyhaven args) textures_dir project_root s1 = (Ok tt, s2) /\
    build_variant_pools (fs s2) project_root pack_dirs = Ok variants /\
    write_manifest env project_root packs_dir textures_dir variants pack_dirs s2
      = (Ok (manifest_path_of project_root), s').
Proof.
  intros Hl. unfold main. rewrite Hl. intros H.
  apply bind_ok_inv in H as (project_root & s0 & Hroot & H).
  pose proof (find_project_root_inv _ _ _ _ Hroot) as ->.
  apply bind_ok_inv in H as (pack_dirs & s1 & Hp & H).
  apply bind_ok_inv in H as ([] & s2 & Ht & H).
  apply bind_ok_inv in H as (f & s2' & [= <- <-] & H).
  apply bind_ok_inv in H as (v & s2' & Hv & H).
  apply lift_inv in Hv as [Hv ->].
  apply bind_ok_inv in H as (p & s3 & Hw & [= <- <-]).
  pose proof Hw as Hw'.
  apply write_manifest_inv in Hw' as (_ & _ & _ & _ & _ & _ & _ & _ & -> & _).
  exists project_root, pack_dirs, s1, s2, v. simpl. auto.
Qed.

End Orchestrator.

(* ================================================================== *)
(** ** The pack phase *)
(* ================================================================== *)

Lemma within_siblings (d : Path) (a b : string) :
  Fs.within (d ++ [a]) (d ++ [b]) = true -> a = b.
Proof.
  rewrite within_true. intros [rel H].
  rewrite <- app_assoc in H. apply app_inv_head in H.
  simpl in H. injection H as -> _. reflexivity.
Qed.

Lemma children_apart (d : Path) (a : string) (names : list string) :
  ~ In a names ->
  forallb (fun d' => negb (Fs.within (d ++ [a]) d') && negb (Fs.within d' (d ++ [a])))
          (map (fun n => d ++ [n]) names) = true.
Proof.
  induction names as [|b names IH]; simpl; [reflexivity|].
  intros Hn. apply andb_true_iff. split; [|apply IH; tauto].
  apply andb_true_iff. split; apply negb_true_iff;
    match goal with |- ?w = false => destruct w eqn:E; [|reflexivity] end;
    apply within_siblings in E; subst; tauto.
Qed.

Lemma disjoint_children (d : Path) (names : list string) :
  List.NoDup names -> disjoint_dirs (map (fun n => d ++ [n]) names) = true.
Proof.
  induction 1 as [|a names Ha _ IH]; simpl; [reflexivity|].
  apply andb_true_iff. split; [apply children_apart; exact Ha | exact IH].
Qed.

Lemma forallb_sublist {A} (P : A -> bool) (l k : list A) :
  l `sublist_of` k -> forallb P k = true -> forallb P l = true.
Proof.
  induction 1 as [|x l k _ IH|x l k _ IH]; simpl; [reflexivity| |];
    rewrite !andb_true_iff; tauto.
Qed.

Lemma disjoint_sublist (l k : list Path) :
  l `sublist_of` k -> disjoint_dirs k = true -> disjoint_dirs l = true.
Proof.
  induction 1 as [|x l k Hs IH|x l k Hs IH]; simpl; [reflexivity| |].
  - rewrite !andb_true_iff. intros [H1 H2]. split; [|auto].
    eapply forallb_sublist; eassumption.
  - rewrite andb_true_iff. intros [_ H2]. auto.
Qed.

Section PackPhase.

Variable env : Env.

Lemma fetch_polyhaven_asset_dir (asset : PolyHavenAsset)
    (packs_dir project_root : Path) (s s' : State) (d : Path) :
  fetch_polyhaven_asset env asset packs_dir project_root s = (Ok (Some d), s') ->
  d = packs_dir ++ ["polyhaven_" +:+ Py.replace ".zip" "" (ph_file_name asset)].
Proof.
  unfold fetch_polyhaven_asset. intros H.
  apply bind_ok_inv in H as (f & s1 & _ & H).
  apply bind_ok_inv in H as ([local_zip|] & s2 & _ & H); [|discriminate].
  unfold polyhaven_unpack in H.
  apply bind_ok_inv in H as ([] & s3 & _ & H).
  apply bind_ok_inv in H as ([] & s4 & _ & H).
  apply bind_ok_inv in H as ([] & s5 & _ & H).
  apply try_except_inv in H as [H|[[=] _]].
  apply bind_ok_inv in H as ([] & s6 & _ & [= <- <-]). reflexivity.
Qed.

(** A loop over a catalogue appends, in the order of the catalogue, the
    directories of the items it could fetch. *)
Lemma kenney_loop_sublist (packs : list KenneyPack) (packs_dir project_root : Path)
    (acc l : list Path) (s s' : State) :
  kenney_loop env packs packs_dir project_root acc s = (Ok l, s') ->
  exists l', l = acc ++ l' /\
             l' `sublist_of` map (fun pack => packs_dir ++ [slug pack]) packs.
Proof.
  revert acc s. induction packs as [|pack rest IH]; intros acc s; simpl.
  - intros [= <- <-]. exists []. split; [symmetry; apply app_nil_r | constructor].
  - intros H. apply bind_ok_inv in H as (acc' & s1 & Ht & H).
    apply IH in H as (l' & -> & Hl').
    apply try_except_inv in Ht as [Ht|[-> _]].
    + apply bind_ok_inv in Ht as (d & s2 & Hd & [= <- <-]).
      apply fetch_kenney_pack_ok in Hd as ->.
      exists ((packs_dir ++ [slug pack]) :: l').
      split; [rewrite <- app_assoc; reflexivity | constructor; exact Hl'].
    + exists l'. split; [reflexivity | constructor; exact Hl'].
Qed.

Lemma polyhaven_loop_sublist (assets : list PolyHavenAsset)
    (packs_dir project_root : Path) (acc l : list Path) (s s' : State) :
  polyhaven_loop env assets packs_dir project_root acc s = (Ok l, s') ->
  exists l', l = acc ++ l' /\
    l' `sublist_of`
      map (fun asset =>
             packs_dir ++ ["polyhaven_" +:+ Py.replace ".zip" "" (ph_file_name asset)])
          assets.
Proof.
  revert acc s. induction assets as [|asset rest IH]; intros acc s; simpl.
  - intros [= <- <-]. exists []. split; [symmetry; apply app_nil_r | constructor].
  - intros H. apply bind_ok_inv in H as (acc' & s1 & Ht & H).
    apply IH in H as (l' & -> & Hl').
    apply try_except_inv in Ht as [Ht|[-> _]].
    + apply bind_ok_inv in Ht as ([d|] & s2 & Hd & [= <- <-]).
      * apply fetch_polyhaven_asset_dir in Hd as ->.
        eexists (_ :: l').
        split; [rewrite <- app_assoc; reflexivity | constructor; exact Hl'].
      * exists l'. split; [reflexivity | constructor; exact Hl'].
    + exists l'. split; [reflexivity | constructor; exact Hl'].
Qed.

Lemma fetch_packs_sublist (args : Args) (packs_dir project_root : Path)
    (l : list Path) (s s' : State) :
  fetch_packs env (all args || ww2_assets args) (all args || polyhaven args)
    packs_dir project_root s = (Ok l, s') ->
  l `sublist_of` pack_dirs_of args packs_dir.
Proof.
  unfold fetch_packs, pack_dirs_of, packs_of, assets_of. intros H.
  apply bind_ok_inv in H as (l1 & s1 & H1 & H).
  apply bind_ok_inv in H as (l2 & s2 & H2 & H).
  apply kenney_loop_sublist in H1 as (l1' & -> & Hl1). cbv beta in H2, H.
  rewrite map_app.
  assert (Hl2 : l2 `sublist_of`
            map (fun pack => packs_dir ++ [slug pack]) KENNEY_PACKS ++
            map (fun pack => packs_dir ++ [slug pack])
                (if (all args || ww2_assets args)%bool then KENNEY_WW2_PACKS else [])).
  { destruct (all args || ww2_assets args)%bool.
    - apply kenney_loop_sublist in H2 as (l2' & -> & Hl2').
      apply sublist_app; assumption.
    - injection H2 as <- _. apply sublist_inserts_r. exact Hl1. }
  destruct (all args || polyhaven args)%bool.
  - apply polyhaven_loop_sublist in H as (l3 & -> & Hl3).
    apply sublist_app; assumption.
  - injection H as <- _. apply sublist_inserts_r. exact Hl2.
Qed.

End PackPhase.

(** The directories of a run are children of the packs directory with
    names that differ. *)
Lemma pack_dirs_of_children (args : Args) (packs_dir : Path) :
  exists names, List.NoDup names /\
    pack_dirs_of args packs_dir = map (fun n => packs_dir ++ [n]) names.
Proof.
  exists (map slug (packs_of args)
          ++ map (fun asset => "polyhaven_" +:+ Py.replace ".zip" "" (ph_file_name asset))
                 (assets_of args)).
  split.
  - unfold packs_of, assets_of.
    destruct (all args || ww2_assets args)%bool, (all args || polyhaven args)%bool;
      apply NoDup_ListNoDup; apply (bool_decide_unpack _); vm_compute; exact I.
  - unfold pack_dirs_of. rewrite map_app, !map_map. reflexivity.
Qed.

(* ================================================================== *)
(** ** Resource paths *)
(* ================================================================== *)

Lemma prefix_nil (s : string) : String.prefix "" s = true.
Proof. destruct s; reflexivity. Qed.

Lemma rp_inv (project_root : Path) (xs : list Path) (ss : list string) :
  rp project_root xs = Ok ss ->
  Forall2 (fun p x => _rel_res_path project_root p = Ok x) xs ss.
Proof.
  revert ss. induction xs as [|p xs IH]; intros ss; simpl.
  - intros [= <-]. constructor.
  - unfold rbind. destruct (_rel_res_path project_root p) as [x|] eqn:E; [|discriminate].
    destruct (rp project_root xs) as [ss'|]; [|discriminate].
    intros [= <-]. constructor; auto.
Qed.

Lemma Forall_take_In {A} (P : A -> Prop) (n : nat) (l : list A) (x : A) :
  Forall P l -> In x (take n l) -> P x.
Proof.
  revert l. induction n as [|n IH]; intros [|y l]; simpl; try tauto.
  intros Hl [<-|Hin]; inversion Hl; subst; eauto.
Qed.

(* ================================================================== *)
(** ** Resource paths of plain paths are told apart *)
(* ================================================================== *)

Lemma has_char_app (c : ascii) (a b : string) :
  has_char c (a +:+ b) = (has_char c a || has_char c b)%bool.
Proof.
  induction a as [|d a IH]; simpl; [reflexivity|].
  rewrite IH. apply orb_assoc.
Qed.

Lemma append_inj_l (a x y : string) : a +:+ x = a +:+ y -> x = y.
Proof. induction a as [|d a IH]; simpl; [auto | intros [= H]; auto]. Qed.

Lemma eqb_refl_ascii (c : ascii) : Ascii.eqb c c = true.
Proof. apply Ascii.eqb_refl. Qed.

(** Two texts cut at their first [c] agree part by part. *)
Lemma split_at_char (c : ascii) (a a' r r' : string) :
  has_char c a = false -> has_char c a' = false ->
  a +:+ String c r = a' +:+ String c r' -> a = a' /\ r = r'.
Proof.
  revert a'. induction a as [|d a IH]; intros [|d' a']; simpl.
  - intros _ _ [= ->]. auto.
  - intros _ H [= <- _]. rewrite eqb_refl_ascii in H. discriminate.
  - intros H _ [= -> _]. rewrite eqb_refl_ascii in H. discriminate.
  - intros H H' [= -> Heq].
    apply orb_false_iff in H as [_ H]. apply orb_false_iff in H' as [_ H'].
    destruct (IH _ H H' Heq) as [-> ->]. auto.
Qed.

Lemma replace_absent (c : ascii) (new s : string) :
  has_char c s = false -> Py.replace_from (String c "") new 0 s = s.
Proof.
  induction s as [|d s IH]; simpl; [reflexivity|].
  intros H. apply orb_false_iff in H as [Hc H].
  destruct (ascii_dec c d) as [->|_].
  - rewrite eqb_refl_ascii in Hc. discriminate.
  - rewrite (IH H). reflexivity.
Qed.

Lemma plain_name_inv (n : string) :
  plain_name n = true ->
  n <> "" /\ n <> "." /\ has_char "/" n = false /\ has_char Re.backslash n = false.
Proof.
  unfold plain_name. rewrite !andb_true_iff, !negb_true_iff.
  intros [[[H1 H2] H3] H4]. repeat split; auto.
  - intros ->. discriminate.
  - intros ->. discriminate.
Qed.

Lemma join_cons2 (x y : string) (l : list string) :
  Py.join "/" (x :: y :: l) = x +:+ String "/" (Py.join "/" (y :: l)).
Proof. reflexivity. Qed.

Lemma join_no_backslash (xs : list string) :
  forallb plain_name xs = true ->
  has_char Re.backslash (Py.join "/" xs) = false.
Proof.
  induction xs as [|x xs IH]; [reflexivity|].
  intros H. apply andb_true_iff in H as [Hx Hxs].
  apply plain_name_inv in Hx as (_ & _ & _ & Hx).
  destruct xs as [|y l]; [exact Hx|].
  rewrite join_cons2, has_char_app, Hx. simpl. apply IH, Hxs.
Qed.

Lemma join_inj (xs ys : list string) :
  xs <> [] -> ys <> [] ->
  forallb plain_name xs = true -> forallb plain_name ys = true ->
  Py.join "/" xs = Py.join "/" ys -> xs = ys.
Proof.
  revert ys. induction xs as [|x xs IH]; [done|].
  intros [|y ys]; [done|]. intros _ _ Hx Hy.
  apply andb_true_iff in Hx as [Hx Hxs]. apply andb_true_iff in Hy as [Hy Hys].
  apply plain_name_inv in Hx as (_ & _ & Hx & _).
  apply plain_name_inv in Hy as (_ & _ & Hy & _).
  destruct xs as [|x2 xs], ys as [|y2 ys].
  - simpl. intros ->. reflexivity.
  - rewrite join_cons2. simpl Py.join at 1. intros ->.
    rewrite has_char_app in Hx. simpl in Hx.
    rewrite orb_true_r in Hx. discriminate.
  - rewrite join_cons2. simpl Py.join at 2. intros <-.
    rewrite has_char_app in Hy. simpl in Hy.
    rewrite orb_true_r in Hy. discriminate.
  - rewrite !join_cons2. intros H.
    destruct (split_at_char _ _ _ _ _ Hx Hy H) as [-> Hrest].
    f_equal. apply IH; auto; discriminate.
Qed.

Lemma rel_str_inj (xs ys : Path) :
  plain_path xs = true -> plain_path ys = true ->
  Fs.rel_str xs = Fs.rel_str ys -> xs = ys.
Proof.
  assert (Hdot : forall zs : Path, zs <> [] -> plain_path zs = true ->
                                   "." <> Py.join "/" zs).
  { intros [|z [|z2 zs]] Hne Hz H; [done| |].
    - simpl in *. apply andb_true_iff in Hz as [Hz _].
      apply plain_name_inv in Hz as (_ & Hz & _). congruence.
    - rewrite join_cons2 in H.
      apply (f_equal (has_char "/")) in H. rewrite has_char_app in H.
      simpl in H. rewrite orb_true_r in H. discriminate. }
  unfold plain_path. destruct xs as [|x xs], ys as [|y ys]; intros Hx Hy;
    unfold Fs.rel_str.
  - reflexivity.
  - intros H. exfalso. eapply (Hdot (y :: ys)); eauto; discriminate.
  - intros H. exfalso. eapply (Hdot (x :: xs)); eauto; discriminate.
  - intros H. apply join_inj; auto; discriminate.
Qed.

Lemma plain_path_app (a b : Path) :
  plain_path (a ++ b) = true -> plain_path b = true.
Proof.
  unfold plain_path. rewrite forallb_app, andb_true_iff. tauto.
Qed.

(** Two plain paths with the same resource path are the same path. *)
Lemma rel_res_path_inj (project_root p p' : Path) (x : string) :
  plain_path p = true -> plain_path p' = true ->
  _rel_res_path project_root p = Ok x ->
  _rel_res_path project_root p' = Ok x -> p = p'.
Proof.
  unfold _rel_res_path. intros Hp Hp'.
  destruct (Fs.relative_to p project_root) as [rel|] eqn:E; [|discriminate].
  destruct (Fs.relative_to p' project_root) as [rel'|] eqn:E'; [|discriminate].
  apply relative_to_Some in E, E'. subst p p'.
  apply plain_path_app in Hp, Hp'.
  intros [= <-] [= H]. change (Py.replace ?o ?n ?t) with (Py.replace_from o n 0 t) in H.
  rewrite !replace_absent in H.
  - f_equal. symmetry. apply rel_str_inj; auto.
  - destruct rel; [reflexivity|]. apply join_no_backslash, Hp.
  - destruct rel'; [reflexivity|]. apply join_no_backslash, Hp'.
Qed.

(* ================================================================== *)
(** ** Counting pool entries *)
(* ================================================================== *)

Section Counting.

Context {A : Type} (dec : forall x y : A, {x = y} + {x <> y}).

Lemma count_filter_le (P : A -> bool) (l : list A) (x : A) :
  count_occ dec (List.filter P l) x <= count_occ dec l x.
Proof.
  induction l as [|y l IH]; simpl; [lia|].
  destruct (P y); simpl; destruct (dec y x); lia.
Qed.

Lemma count_take_le (n : nat) (l : list A) (x : A) :
  count_occ dec (take n l) x <= count_occ dec l x.
Proof.
  revert l. induction n as [|n IH]; intros [|y l]; simpl; try lia.
  specialize (IH l). destruct (dec y x); lia.
Qed.

End Counting.

(** Turning plain paths into resource paths does not make an entry more
    frequent than its path was. *)
Lemma count_rp_preimage (project_root : Path) (xs : list Path) (ss : list string) :
  Forall2 (fun p x => _rel_res_path project_root p = Ok x) xs ss ->
  forallb plain_path xs = true ->
  forall x,
    occurrences x ss = 0 \/
    exists p, _rel_res_path project_root p = Ok x /\ plain_path p = true /\
              occurrences x ss <= count_occ path_dec xs p.
Proof.
  unfold occurrences.
  induction 1 as [|p0 s0 xs ss HR _ IH]; intros Hplain x; [left; reflexivity|].
  simpl in Hplain. apply andb_true_iff in Hplain as [Hp0 Hplain].
  specialize (IH Hplain x). simpl count_occ at 1 2.
  destruct (String.string_dec s0 x) as [->|Hne].
  - right. exists p0. repeat split; auto. simpl.
    destruct (path_dec p0 p0); [|contradiction].
    destruct IH as [->|(p & Hp & Hpl & Hle)]; [lia|].
    rewrite (rel_res_path_inj _ _ _ _ Hp0 Hpl HR Hp). lia.
  - destruct IH as [->|(p & Hp & Hpl & Hle)]; [left; reflexivity|].
    right. exists p. repeat split; auto. simpl.
    destruct (path_dec p0 p); lia.
Qed.

Lemma count_rp_le (project_root : Path) (xs : list Path) (ss : list string)
    (k : nat) :
  rp project_root xs = Ok ss ->
  forallb plain_path xs = true ->
  (forall p, count_occ path_dec xs p <= k) ->
  forall x, occurrences x ss <= k.
Proof.
  intros Hrp Hplain Hk x. apply rp_inv in Hrp.
  destruct (count_rp_preimage _ _ _ Hrp Hplain x) as [->|(p & _ & _ & Hle)];
    [lia|]. specialize (Hk p). lia.
Qed.

(* ================================================================== *)
(** ** The walk over the pack directories *)
(* ================================================================== *)

Lemma rglob_all_filter (f : Fs.t) (d : Path) :
  Fs.rglob_all f d =
  if Fs.is_dir f d then List.filter (Fs.below d) (map fst f) else [].
Proof.
  unfold Fs.rglob_all. destruct (Fs.is_dir f d); [|reflexivity].
  induction f as [|[q n] f IH]; [reflexivity|].
  cbn. destruct (Fs.below d q); cbn; [f_equal|]; exact IH.
Qed.

Lemma rglob_all_In (f : Fs.t) (d p : Path) :
  In p (Fs.rglob_all f d) -> Fs.below d p = true /\ In p (map fst f).
Proof.
  rewrite rglob_all_filter. destruct (Fs.is_dir f d); [|intros []].
  rewrite filter_In. tauto.
Qed.

Lemma NoDup_list_filter {A} (P : A -> bool) (l : list A) :
  NoDup l -> NoDup (List.filter P l).
Proof. rewrite !NoDup_ListNoDup. apply List.NoDup_filter. Qed.

Lemma rglob_all_NoDup (f : Fs.t) (d : Path) :
  NoDup (map fst f) -> NoDup (Fs.rglob_all f d).
Proof.
  intros H. rewrite rglob_all_filter.
  destruct (Fs.is_dir f d); [apply NoDup_list_filter, H | constructor].
Qed.

Lemma walk_files_In (f : Fs.t) (d : Path) (exts : list string) (p : Path) :
  In p (_walk_files f d exts) -> Fs.below d p = true /\ In p (map fst f).
Proof.
  unfold _walk_files. rewrite filter_In. intros [H _].
  apply rglob_all_In, H.
Qed.

Lemma model_files_In (f : Fs.t) (pack_dirs : list Path) (p : Path) :
  In p (model_files f pack_dirs) ->
  In p (map fst f) /\ exists d, In d pack_dirs /\ Fs.below d p = true.
Proof.
  unfold model_files. induction pack_dirs as [|d ds IH]; simpl; [tauto|].
  rewrite in_app_iff. intros [H|H].
  - apply walk_files_In in H as [H1 H2]. eauto.
  - apply IH in H as (H1 & d' & Hd' & H2). eauto.
Qed.

(** Something below two directories puts one of them at or below the
    other. *)
Lemma below_both (d d' p : Path) :
  Fs.below d p = true -> Fs.below d' p = true ->
  Fs.within d d' = true \/ Fs.within d' d = true.
Proof.
  rewrite !below_true, !within_true.
  intros (c & rel & ->) (c' & rel' & H).
  apply app_eq_app in H as [l [[-> _]|[-> _]]]; eauto.
Qed.

(** Disjoint pack directories on a filesystem that lists each path once
    give each model file once. *)
Lemma model_files_NoDup (f : Fs.t) (pack_dirs : list Path) :
  NoDup (map fst f) -> disjoint_dirs pack_dirs = true ->
  NoDup (model_files f pack_dirs).
Proof.
  intros Hf. unfold model_files.
  induction pack_dirs as [|d ds IH]; simpl; [constructor|].
  rewrite andb_true_iff. intros [Hd Hds].
  apply NoDup_app. split; [|split; [|apply IH, Hds]].
  - apply NoDup_list_filter, rglob_all_NoDup, Hf.
  - intros p Hp Hp'. apply list_elem_of_In in Hp, Hp'.
    apply walk_files_In in Hp as [Hp _].
    apply (model_files_In f ds p) in Hp' as (_ & d' & Hd' & Hp').
    rewrite forallb_forall in Hd. specialize (Hd _ Hd').
    apply andb_true_iff in Hd as [H1 H2].
    apply negb_true_iff in H1, H2.
    destruct (below_both _ _ _ Hp Hp'); congruence.
Qed.

Lemma model_files_plain (f : Fs.t) (pack_dirs : list Path) :
  plain_paths f = true -> forallb plain_path (model_files f pack_dirs) = true.
Proof.
  intros Hf. apply forallb_forall. intros p Hp.
  apply model_files_In in Hp as [Hp _].
  apply in_map_iff in Hp as (e & <- & He).
  unfold plain_paths in Hf. rewrite forallb_forall in Hf. apply Hf, He.
Qed.

(* ================================================================== *)
(** ** How often a candidate can be listed *)
(* ================================================================== *)

Lemma bounded_filter (k : nat) (P : Path -> bool) (l : list Path) :
  bounded k l -> bounded k (List.filter P l).
Proof.
  intros [Hp Hk]. split.
  - apply forallb_forall. intros p Hin. apply filter_In in Hin as [Hin _].
    rewrite forallb_forall in Hp. apply Hp, Hin.
  - intros p. pose proof (count_filter_le path_dec P l p). specialize (Hk p). lia.
Qed.

Lemma bounded_app (k1 k2 : nat) (l1 l2 : list Path) :
  bounded k1 l1 -> bounded k2 l2 -> bounded (k1 + k2) (l1 ++ l2).
Proof.
  intros [Hp1 Hk1] [Hp2 Hk2]. split.
  - rewrite forallb_app, Hp1, Hp2. reflexivity.
  - intros p. rewrite count_occ_app. specialize (Hk1 p). specialize (Hk2 p). lia.
Qed.

Lemma bounded_select (k : nat) (l : list Path) (include exclude : list string) :
  bounded k l -> bounded k (_select_by_patterns l include exclude).
Proof. apply bounded_filter. Qed.

Lemma bounded_once (l : list Path) :
  forallb plain_path l = true -> NoDup l -> bounded 1 l.
Proof.
  intros Hp Hn. split; [exact Hp|].
  apply NoDup_ListNoDup in Hn. apply (NoDup_count_occ path_dec), Hn.
Qed.

(** The three building lists draw on two buckets each; the three tree
    lists on one. *)
Lemma classify_bounded (mf : list Path) :
  bounded 1 mf ->
  let c := classify mf in
  bounded 2 (euro_candidates c) /\ bounded 2 (ind_candidates c) /\
  bounded 2 (shack_candidates c) /\ bounded 1 (conifer_candidates c) /\
  bounded 1 (broadleaf_candidates c) /\ bounded 1 (palm_candidates c).
Proof.
  intros H. unfold classify. cbn [euro_candidates ind_candidates shack_candidates
    conifer_candidates broadleaf_candidates palm_candidates].
  repeat split_and;
    try (apply bounded_select, (bounded_app 1 1); apply bounded_filter, H).
  - apply bounded_filter, bounded_select, bounded_filter, H.
  - match goal with
    | |- bounded 1 (match ?a with _ => _ end) =>
        destruct a; [|apply bounded_filter, bounded_select, bounded_filter, H]
    end.
    match goal with
    | |- bounded 1 (match ?a with _ => _ end) =>
        destruct a; [|apply bounded_filter, bounded_select, bounded_filter, H]
    end.
    match goal with
    | |- bounded 1 (match ?a with _ => _ end) =>
        destruct a eqn:E; [split; [reflexivity | intros; simpl; lia]|]
    end.
    rewrite <- E. apply bounded_select, bounded_filter, H.
  - apply bounded_filter, bounded_select, bounded_filter, H.
Qed.

Lemma pool_bounded (project_root : Path) (k n : nat) (xs : list Path)
    (ss : list string) (x : string) :
  bounded k xs -> rp project_root xs = Ok ss -> occurrences x (take n ss) <= k.
Proof.
  intros [Hp Hk] Hrp. unfold occurrences.
  pose proof (count_take_le String.string_dec n ss x).
  pose proof (count_rp_le _ _ _ _ Hrp Hp Hk x). unfold occurrences in *. lia.
Qed.

Lemma once_NoDup (pool : list string) :
  (forall x, occurrences x pool <= 1) -> NoDup pool.
Proof.
  intros H. apply NoDup_ListNoDup, (NoDup_count_occ String.string_dec), H.
Qed.

Lemma select_In (paths : list Path) (include exclude : list string) (p : Path) :
  In p (_select_by_patterns paths include exclude) -> In p paths.
Proof. unfold _select_by_patterns. rewrite filter_In. tauto. Qed.

(** Every candidate is one of the model files. *)
Lemma classify_In (mf : list Path) (p : Path) :
  let c := classify mf in
  In p (euro_candidates c) \/ In p (ind_candidates c) \/
  In p (shack_candidates c) \/ In p (conifer_candidates c) \/
  In p (broadleaf_candidates c) \/ In p (palm_candidates c) ->
  In p mf.
Proof.
  unfold classify. cbn [euro_candidates ind_candidates shack_candidates
    conifer_candidates broadleaf_candidates palm_candidates].
  set (tree := _select_by_patterns (List.filter (path_has "nature") mf) _ _).
  assert (Htree : In p tree -> In p mf).
  { intros H. apply select_In, filter_In in H. tauto. }
  intros [H|[H|[H|[H|[H|H]]]]].
  1-3: apply select_In, in_app_or in H as [H|H]; apply filter_In in H; tauto.
  - apply filter_In in H. tauto.
  - destruct (List.filter _ tree) as [|? ?] eqn:E1 in H;
      [|apply filter_In in H; tauto].
    destruct (List.filter (name_has "palm") tree) as [|? ?] eqn:E2 in H;
      [|apply filter_In in H; tauto].
    destruct tree as [|? ?] eqn:E3 in H; [destruct H|].
    apply Htree. rewrite E3. exact H.
  - apply filter_In in H. tauto.
Qed.

Lemma Forall2_In_r {A B} (R : A -> B -> Prop) (xs : list A) (ys : list B) (y : B) :
  Forall2 R xs ys -> In y ys -> exists x, In x xs /\ R x y.
Proof.
  induction 1 as [|x0 y0 xs ys HR _ IH]; [intros []|].
  intros [<-|Hin]; [exists x0; split; [left; reflexivity | exact HR]|].
  destruct (IH Hin) as (x & Hx & Hxy). exists x. split; [right; exact Hx | exact Hxy].
Qed.

Lemma In_take {A} (n : nat) (l : list A) (x : A) : In x (take n l) -> In x l.
Proof.
  revert l. induction n as [|n IH]; intros [|y l]; simpl; try tauto.
  intros [H|H]; auto.
Qed.

(** A model file is a regular file strictly below one of the pack
    directories whose suffix, in lower case, is a model suffix. *)
Lemma model_files_spec (f : Fs.t) (pack_dirs : list Path) (p : Path) :
  In p (model_files f pack_dirs) ->
  Fs.is_file f p = true /\
  In (Py.lower (Fs.suffix p)) model_exts /\
  exists d, In d pack_dirs /\ Fs.below d p = true.
Proof.
  unfold model_files. induction pack_dirs as [|d ds IH]; simpl; [tauto|].
  rewrite in_app_iff. intros [H|H].
  - unfold _walk_files in H. apply filter_In in H as [Hin Hp].
    apply andb_true_iff in Hp as [Hfile Hext].
    apply bool_decide_eq_true in Hext. apply list_elem_of_In in Hext.
    apply rglob_all_In in Hin as [Hb _].
    split; [exact Hfile|]. split; [exact Hext|].
    exists d. split; [left; reflexivity | exact Hb].
  - apply IH in H as (H1 & H2 & d' & Hd' & H3).
    split; [exact H1|]. split; [exact H2|].
    exists d'. split; [right; exact Hd' | exact H3].
Qed.

Lemma twice_in_both (project_root : Path) (a b : list Path)
    (include exclude : list string) (ss : list string) (n : nat) (x : string) :
  bounded 1 a -> bounded 1 b ->
  rp project_root (_select_by_patterns (a ++ b) include exclude) = Ok ss ->
  2 <= occurrences x (take n ss) ->
  exists p, In p a /\ In p b /\ _rel_res_path project_root p = Ok x.
Proof.
  intros Ha Hb Hrp Hx.
  pose proof (bounded_select 2 _ include exclude (bounded_app 1 1 _ _ Ha Hb))
    as [Hplain _].
  pose proof (count_take_le String.string_dec n ss x) as Htake.
  unfold occurrences in *.
  apply rp_inv in Hrp.
  destruct (count_rp_preimage _ _ _ Hrp Hplain x) as [H0|(p & Hp & _ & Hle)];
    unfold occurrences in *; [lia|].
  exists p.
  unfold _select_by_patterns in Hle.
  match type of Hle with
  | _ <= count_occ _ (List.filter ?P _) _ =>
      pose proof (count_filter_le path_dec P (a ++ b) p) as Hsel
  end.
  rewrite count_occ_app in Hsel.
  destruct Ha as [_ Ha]. destruct Hb as [_ Hb].
  specialize (Ha p). specialize (Hb p).
  split; [|split; [|exact Hp]]; apply (count_occ_In path_dec); lia.
Qed.

(* ================================================================== *)
(** ** The texture-set builder *)
(* ================================================================== *)

Lemma glob_In (f : Fs.t) (d : Path) (pat : string) (p : Path) :
  In p (Fs.glob f d pat) -> exists n, p = d ++ [n].
Proof.
  unfold Fs.glob. destruct (Fs.is_dir f d); [|intros []].
  induction f as [|[q m] f IH]; [intros []|]. cbn.
  destruct (Fs.relative_to q d) as [[|n [|? ?]]|] eqn:E; auto.
  destruct (Fnmatch.fnmatchcase n pat); auto.
  intros [<-|H]; [|auto]. apply relative_to_Some in E. eauto.
Qed.

Lemma within_child (project_root d : Path) (n : string) :
  Fs.within project_root d = true -> Fs.within project_root (d ++ [n]) = true.
Proof.
  rewrite !within_true. intros [rel ->]. exists (rel ++ [n]).
  symmetry. apply app_assoc.
Qed.

Lemma rel_res_path_total (project_root p : Path) :
  Fs.within project_root p = true -> exists x, _rel_res_path project_root p = Ok x.
Proof.
  unfold Fs.within, _rel_res_path.
  destruct (Fs.relative_to p project_root); [eauto | discriminate].
Qed.

(* ================================================================== *)
(** ** Patterns and listings *)
(* ================================================================== *)

Lemma append_cons (c : ascii) (a b : string) :
  String c a +:+ b = String c (a +:+ b).
Proof. reflexivity. Qed.

Lemma append_nil_r (a : string) : a +:+ "" = a.
Proof. induction a as [|c a IH]; [reflexivity|]. rewrite append_cons, IH. reflexivity. Qed.

Lemma append_assoc (a b c : string) : (a +:+ b) +:+ c = a +:+ (b +:+ c).
Proof. induction a as [|x a IH]; [reflexivity|]. rewrite !append_cons, IH. reflexivity. Qed.

Lemma wildcard_free_cons (c : ascii) (s : string) :
  wildcard_free (String c s) = true ->
  Ascii.eqb c "*" = false /\ Ascii.eqb c "?" = false /\ Ascii.eqb c "[" = false /\
  wildcard_free s = true.
Proof.
  unfold wildcard_free. cbn [has_char].
  rewrite !andb_true_iff, !negb_true_iff, !orb_false_iff.
  rewrite (Ascii.eqb_sym "*" c), (Ascii.eqb_sym "?" c), (Ascii.eqb_sym "[" c).
  tauto.
Qed.

Lemma translate_plain (a rest : string) :
  wildcard_free a = true ->
  Fnmatch.translate_from 0 (a +:+ rest)
  = map Fnmatch.Chr (list_ascii_of_string a) ++ Fnmatch.translate_from 0 rest.
Proof.
  induction a as [|c a IH]; [reflexivity|].
  intros H. apply wildcard_free_cons in H as (H1 & H2 & H3 & H).
  rewrite append_cons. cbn [Fnmatch.translate_from list_ascii_of_string map app].
  rewrite H1, H2, H3, (IH H). reflexivity.
Qed.

Lemma matches_nil (n : string) : Fnmatch.matches [] n = true <-> n = "".
Proof. destruct n; simpl; split; congruence. Qed.

Lemma matches_chr (c : ascii) (ps : list Fnmatch.piece) (n : string) :
  Fnmatch.matches (Fnmatch.Chr c :: ps) n = true <->
  exists n', n = String c n' /\ Fnmatch.matches ps n' = true.
Proof.
  cbn [Fnmatch.matches]. destruct n as [|d n]; [split; [discriminate | intros (? & [=] & _)]|].
  cbn [Fnmatch.accepts]. rewrite andb_true_iff, Ascii.eqb_eq. split.
  - intros [-> H]. eauto.
  - intros (n' & [= -> ->] & H). auto.
Qed.

Lemma matches_chrs (l : list ascii) (ps : list Fnmatch.piece) (n : string) :
  Fnmatch.matches (map Fnmatch.Chr l ++ ps) n = true <->
  exists n', n = string_of_list_ascii l +:+ n' /\ Fnmatch.matches ps n' = true.
Proof.
  revert n. induction l as [|c l IH]; intros n; cbn [map app string_of_list_ascii].
  - split; [eauto | intros (n' & -> & H); exact H].
  - rewrite matches_chr. split.
    + intros (n1 & -> & H). apply IH in H as (n' & -> & H). eauto.
    + intros (n' & -> & H). rewrite append_cons. eexists. split; [reflexivity|].
      apply IH. eauto.
Qed.

Lemma matches_star (ps : list Fnmatch.piece) (n : string) :
  Fnmatch.matches (Fnmatch.Star :: ps) n = true <->
  exists x t, n = x +:+ t /\ Fnmatch.matches ps t = true.
Proof.
  change (Fnmatch.matches (Fnmatch.Star :: ps))
    with (fix star (name : string) : bool :=
            (Fnmatch.matches ps name ||
             match name with
             | EmptyString => false
             | String _ name' => star name'
             end)%bool).
  induction n as [|c n IH].
  - rewrite orb_false_r. split.
    + intros H. exists "", "". auto.
    + intros ([|? ?] & t & E & H); [|rewrite append_cons in E; discriminate E].
      change ("" +:+ t) with t in E. subst t. exact H.
  - rewrite orb_true_iff, IH. split.
    + intros [H|(x & t & -> & H)]; [exists "", (String c n); auto|].
      exists (String c x), t. auto.
    + intros ([|d x] & t & E & H).
      * left. change ("" +:+ t) with t in E. subst t. exact H.
      * right. rewrite append_cons in E. injection E as -> ->. eauto.
Qed.

Lemma string_of_list_of_string (s : string) :
  string_of_list_ascii (list_ascii_of_string s) = s.
Proof. apply string_of_list_ascii_of_string. Qed.

(** A pattern made of a plain opening, a star and a plain close matches
    the names that open and close that way. *)
Lemma fnmatch_fits (a b n : string) :
  wildcard_free a = true -> wildcard_free b = true ->
  Fnmatch.fnmatchcase n (a +:+ "*" +:+ b) = true <-> fits a b n.
Proof.
  intros Ha Hb. unfold Fnmatch.fnmatchcase, Fnmatch.translate, fits.
  rewrite (translate_plain a _ Ha).
  assert (Hs : Fnmatch.translate_from 0 ("*" +:+ b)
               = Fnmatch.Star :: map Fnmatch.Chr (list_ascii_of_string b) ++ []).
  { change ("*" +:+ b) with (String "*" b). cbn [Fnmatch.translate_from].
    change (Ascii.eqb "*" "*") with true. cbv iota.
    rewrite <- (append_nil_r b) at 1. rewrite (translate_plain b "" Hb).
    destruct (list_ascii_of_string b); reflexivity. }
  rewrite Hs, matches_chrs. setoid_rewrite matches_star.
  setoid_rewrite matches_chrs. setoid_rewrite matches_nil.
  rewrite !string_of_list_of_string. split.
  - intros (n' & -> & x & t & -> & n'' & -> & ->). exists x.
    rewrite append_nil_r. reflexivity.
  - intros (m & ->). exists (m +:+ b). split; [reflexivity|].
    exists m, b. split; [reflexivity|]. exists "". split; [|reflexivity].
    symmetry. apply append_nil_r.
Qed.

Lemma str_prefix_cons (c x : ascii) (p s : string) :
  String.prefix (String c p) (String x s)
  = if ascii_dec c x then String.prefix p s else false.
Proof. reflexivity. Qed.

Lemma prefix_cons_char (c x : ascii) (p s : string) :
  String.prefix (String c p) (String x s) = true -> c = x.
Proof. simpl. destruct (ascii_dec c x); [auto | discriminate]. Qed.

Lemma has_char_head (c : ascii) (s : string) (p : string) :
  has_char c s = false -> String.prefix (String c p) s = false.
Proof.
  destruct s as [|x s]; [reflexivity|]. cbn [has_char]. rewrite str_prefix_cons.
  destruct (ascii_dec c x) as [->|]; [|reflexivity].
  rewrite eqb_refl_ascii. discriminate.
Qed.

Lemma contains_needs_char (c : ascii) (p s : string) :
  has_char c s = false -> Py.contains (String c p) s = false.
Proof.
  induction s as [|x s IH]; [reflexivity|]. intros H.
  cbn [Py.contains]. rewrite (has_char_head c _ p H). cbn [has_char] in H.
  apply orb_false_iff in H as [_ H]. rewrite (IH H). reflexivity.
Qed.

(** One star between two texts that hold none makes no double star. *)
Lemma no_double_star (a b : string) :
  has_char "*" a = false -> has_char "*" b = false ->
  Py.contains "**" (a +:+ "*" +:+ b) = false.
Proof.
  intros Ha Hb. induction a as [|c a IH].
  - change ("" +:+ "*" +:+ b) with (String "*" b). cbn [Py.contains].
    rewrite (contains_needs_char "*" "*" b Hb), orb_false_r.
    rewrite str_prefix_cons. destruct (ascii_dec "*" "*"); [|reflexivity].
    apply has_char_head, Hb.
  - cbn [has_char] in Ha. apply orb_false_iff in Ha as [Hc Ha].
    rewrite append_cons. cbn [Py.contains]. rewrite (IH Ha), orb_false_r.
    rewrite str_prefix_cons. destruct (ascii_dec "*" c) as [<-|]; [|reflexivity].
    rewrite eqb_refl_ascii in Hc. discriminate Hc.
Qed.

Lemma wildcard_free_star (s : string) :
  wildcard_free s = true -> has_char "*" s = false.
Proof.
  unfold wildcard_free. rewrite !andb_true_iff, !negb_true_iff. tauto.
Qed.

(** [glob] is the listing, cut down to the names that match. *)
Lemma relative_to_child (p d : Path) (n : string) :
  Fs.relative_to p d = Some [n] <-> p <> [] /\ Fs.parent p = d /\ Fs.name p = n.
Proof.
  rewrite relative_to_Some. split.
  - intros ->. split; [destruct d; discriminate|].
    split; [apply parent_snoc|]. unfold Fs.name. rewrite last_snoc. reflexivity.
  - intros (Hp & <- & <-). unfold Fs.parent, Fs.name.
    destruct (exists_last Hp) as (l & a & ->).
    rewrite removelast_last, last_snoc. reflexivity.
Qed.

Lemma glob_listing (f : Fs.t) (d : Path) (pat : string) :
  Fs.glob f d pat
  = List.filter (fun p => Fnmatch.fnmatchcase (Fs.name p) pat) (listing f d).
Proof.
  unfold Fs.glob, listing. destruct (Fs.is_dir f d); [|reflexivity].
  induction f as [|[q m] f IH]; [reflexivity|].
  cbn [map fst]. cbn [omap list_omap]. cbn [fst]. fold (@omap list _).
  cbn [List.filter].
  match goal with |- context [if ?b then _ else _] => destruct b eqn:Q end.
  - apply bool_decide_eq_true in Q as [Hq Hp].
    assert (E : Fs.relative_to q d = Some [Fs.name q])
      by (apply relative_to_child; auto).
    rewrite E. cbn [List.filter].
    destruct (Fnmatch.fnmatchcase (Fs.name q) pat); cbv iota beta;
      [f_equal|]; exact IH.
  - apply bool_decide_eq_false in Q.
    destruct (Fs.relative_to q d) as [[|n [|? ?]]|] eqn:E; try exact IH.
    exfalso. apply Q. apply relative_to_child in E. tauto.
Qed.

Lemma filter_first {A} (P : A -> bool) (l : list A) :
  match List.filter P l with
  | [] => Forall (fun x => P x = false) l
  | x :: _ =>
      exists before after,
        l = before ++ x :: after /\ P x = true /\
        Forall (fun y => P y = false) before
  end.
Proof.
  induction l as [|a l IH]; simpl; [constructor|].
  destruct (P a) eqn:Pa.
  - exists [], l. auto.
  - destruct (List.filter P l) as [|x ?].
    + constructor; assumption.
    + destruct IH as (before & after & -> & Hx & Hb).
      exists (a :: before), after. auto.
Qed.

Lemma slashes_replace (s : string) :
  Py.replace (String Re.backslash "") "/" s = slashes s.
Proof.
  unfold Py.replace. induction s as [|c s IH]; [reflexivity|].
  cbn [Py.replace_from slashes]. rewrite str_prefix_cons, prefix_nil.
  cbn [String.length pred]. rewrite IH.
  destruct (ascii_dec Re.backslash c) as [<-|Hne].
  - rewrite eqb_refl_ascii. reflexivity.
  - destruct (Ascii.eqb_spec c Re.backslash) as [->|]; [tauto | reflexivity].
Qed.

(** The resource path of a path below the root is read off the
    components after the root. *)
Lemma rel_res_path_app (project_root rel : Path) :
  rel <> [] -> _rel_res_path project_root (project_root ++ rel) = Ok (res_of rel).
Proof.
  intros Hrel. unfold _rel_res_path, res_of. rewrite relative_to_app.
  rewrite slashes_replace. unfold Fs.rel_str. destruct rel; [tauto | reflexivity].
Qed.

Lemma listing_child (f : Fs.t) (d p : Path) :
  In p (listing f d) -> p = d ++ [Fs.name p].
Proof.
  unfold listing. destruct (Fs.is_dir f d); [|intros []].
  intros H. apply filter_In in H as [_ H].
  apply bool_decide_eq_true in H as [Hp Hd].
  apply relative_to_Some. apply relative_to_child. auto.
Qed.

(** What [glob] makes of a pattern with one star between plain texts. *)
Lemma glob_checked_fits (f : Fs.t) (d : Path) (a b : string) :
  wildcard_free a = true -> wildcard_free b = true ->
  exists files, glob_checked f d (a +:+ "*" +:+ b) = Ok files /\
    match files with
    | [] => no_entry f d (fits a b)
    | file :: _ => first_entry f d (fits a b) file
    end.
Proof.
  intros Ha Hb. unfold glob_checked.
  rewrite no_double_star by (apply wildcard_free_star; assumption).
  eexists. split; [reflexivity|]. rewrite glob_listing.
  pose proof (filter_first
    (fun p => Fnmatch.fnmatchcase (Fs.name p) (a +:+ "*" +:+ b)) (listing f d)) as H.
  assert (Hno : forall l,
    Forall (fun y => Fnmatch.fnmatchcase (Fs.name y) (a +:+ "*" +:+ b) = false) l ->
    Forall (fun q => ~ fits a b (Fs.name q)) l).
  { intros l Hl. eapply Forall_impl; [exact Hl|]. intros q Hq Hfit.
    apply (fnmatch_fits a b _ Ha Hb) in Hfit. cbv beta in Hq. congruence. }
  cbv beta in H.
  destruct (List.filter _ (listing f d)) as [|file rest].
  - apply Hno, H.
  - destruct H as (before & after & E & Hx & Hbefore).
    exists before, after. split; [exact E|].
    split; [apply (fnmatch_fits a b _ Ha Hb), Hx | apply Hno, Hbefore].
Qed.

Lemma replace_from_keeps (c : ascii) (old : string) (skip : nat) (s : string) :
  has_char c s = false -> has_char c (Py.replace_from old "" skip s) = false.
Proof.
  revert skip. induction s as [|x s IH]; intros skip; [reflexivity|].
  cbn [has_char]. intros H. apply orb_false_iff in H as [Hx H].
  cbn [Py.replace_from]. destruct skip as [|k]; [|apply IH, H].
  destruct (String.prefix old (String x s)).
  - change ("" +:+ ?r) with r. apply IH, H.
  - cbn [has_char]. rewrite Hx. apply IH, H.
Qed.

Lemma base_of_plain (tex_dir : Path) :
  wildcard_free (Fs.name tex_dir) = true -> wildcard_free (base_of tex_dir) = true.
Proof.
  unfold wildcard_free, base_of, Py.replace.
  rewrite !andb_true_iff, !negb_true_iff. intros [[H1 H2] H3].
  repeat split; apply replace_from_keeps; assumption.
Qed.

Section TextureSpec.

Variables (f : Fs.t) (project_root : Path).

Lemma add_channel_spec (tex_dir : Path) (set : gmap string string)
    (key ending : string) :
  Fs.within project_root tex_dir = true ->
  wildcard_free (Fs.name tex_dir) = true ->
  wildcard_free ending = true ->
  exists set',
    add_channel f project_root tex_dir (base_of tex_dir) set (key, ending) = Ok set' /\
    ((no_entry f tex_dir (fits (base_of tex_dir) ending) /\ set' = set) \/
     exists file rel,
       first_entry f tex_dir (fits (base_of tex_dir) ending) file /\
       file = project_root ++ rel /\ set' = <[key := res_of rel]> set).
Proof.
  intros Hw Hn He. unfold add_channel. cbn [fst snd].
  destruct (glob_checked_fits f tex_dir (base_of tex_dir) ending
              (base_of_plain _ Hn) He) as (files & -> & Hfiles).
  cbn [rbind]. destruct files as [|file rest].
  - exists set. split; [reflexivity|]. left. auto.
  - pose proof Hfiles as (before & after & E & _).
    assert (Hin : In file (listing f tex_dir)) by (rewrite E; apply in_elt).
    apply listing_child in Hin.
    apply within_true in Hw as [r ->].
    rewrite Hin, <- app_assoc, rel_res_path_app by (destruct r; discriminate).
    cbn [rbind]. eexists. split; [reflexivity|]. right.
    exists file, (r ++ [Fs.name file]). split; [exact Hfiles|].
    split; [rewrite Hin at 1; symmetry; apply app_assoc | reflexivity].
Qed.

Lemma add_channels_spec (tex_dir : Path) (chs : list (string * string))
    (set : gmap string string) :
  Fs.within project_root tex_dir = true ->
  wildcard_free (Fs.name tex_dir) = true ->
  forallb (fun ch : string * string => wildcard_free ch.2) chs = true ->
  NoDup (map fst chs) ->
  (forall key, In key (map fst chs) -> set !! key = None) ->
  exists set',
    add_channels f project_root tex_dir (base_of tex_dir) set chs = Ok set' /\
    (forall key, ~ In key (map fst chs) -> set' !! key = set !! key) /\
    (forall key ending, In (key, ending) chs ->
       match set' !! key with
       | Some x =>
           exists file rel,
             first_entry f tex_dir (fits (base_of tex_dir) ending) file /\
             file = project_root ++ rel /\ x = res_of rel
       | None => no_entry f tex_dir (fits (base_of tex_dir) ending)
       end).
Proof.
  intros Hw Hn. revert set.
  induction chs as [|[k e] chs IH]; intros set Hfree Hnd Hnew; cbn [add_channels].
  - exists set. split; [reflexivity|]. split; [auto | intros ? ? []].
  - cbn [forallb] in Hfree. apply andb_true_iff in Hfree as [He Hfree].
    cbn [map fst] in Hnd. apply NoDup_cons in Hnd as [Hk Hnd].
    assert (Hk' : ~ In k (map fst chs)) by (intros H; apply Hk, list_elem_of_In, H).
    destruct (add_channel_spec tex_dir set k e Hw Hn He) as (set1 & -> & H1).
    cbn [rbind].
    assert (Hnew1 : forall key, In key (map fst chs) -> set1 !! key = None).
    { intros key Hkey.
      destruct H1 as [[_ ->]|(file & rel & _ & _ & ->)].
      - apply Hnew. right. exact Hkey.
      - rewrite lookup_insert_ne by (intros ->; tauto). apply Hnew. right. exact Hkey. }
    destruct (IH set1 Hfree Hnd Hnew1) as (set' & -> & Hout & Hin).
    exists set'. split; [reflexivity|]. split.
    + intros key Hkey. cbn [map fst In] in Hkey.
      rewrite Hout by tauto.
      destruct H1 as [[_ ->]|(file & rel & _ & _ & ->)]; [reflexivity|].
      apply lookup_insert_ne. intros ->. tauto.
    + intros key ending [[= -> ->]|Hke]; [|apply Hin, Hke].
      rewrite (Hout _ Hk').
      destruct H1 as [[Hno ->]|(file & rel & Hfirst & Hfile & ->)].
      * rewrite Hnew by (left; reflexivity). exact Hno.
      * rewrite lookup_insert_eq. eauto.
Qed.

Lemma texture_set_of_spec (tex_dir : Path) :
  Fs.within project_root tex_dir = true ->
  wildcard_free (Fs.name tex_dir) = true ->
  exists set, texture_set_of f project_root tex_dir = Ok set /\
              read_off f project_root tex_dir set.
Proof.
  intros Hw Hn. unfold texture_set_of.
  destruct (add_channels_spec tex_dir channels ∅ Hw Hn) as (set & Hs & Hout & Hin).
  - reflexivity.
  - apply (bool_decide_unpack _). vm_compute. exact I.
  - intros. apply lookup_empty.
  - exists set. split; [exact Hs|]. split; [exact Hin|].
    intros key Hkey. rewrite (Hout key Hkey). apply lookup_empty.
Qed.

End TextureSpec.

Section TextureSearch.

Variables (f : Fs.t) (project_root textures_dir : Path).
Hypothesis Hunder : Fs.within project_root textures_dir = true.
Hypothesis Hplain : plain_entries f textures_dir = true.

Lemma candidate_dir (name : string) (tex_dir : Path) :
  first_entry f textures_dir (fits name "") tex_dir ->
  Fs.within project_root tex_dir = true /\ wildcard_free (Fs.name tex_dir) = true.
Proof.
  intros (before & after & E & _).
  assert (Hin : In tex_dir (listing f textures_dir)) by (rewrite E; apply in_elt).
  split.
  - rewrite (listing_child _ _ _ Hin). apply within_child, Hunder.
  - unfold plain_entries in Hplain. rewrite forallb_forall in Hplain.
    apply Hplain, Hin.
Qed.

Lemma first_texture_set_spec (names : list string) :
  forallb wildcard_free names = true ->
  exists r, first_texture_set f project_root textures_dir names = Ok r /\
    match r with
    | Some set =>
        exists before name after,
          names = before ++ name :: after /\
          Forall (passed_over f project_root textures_dir) before /\
          wins_with f project_root textures_dir name set
    | None => Forall (passed_over f project_root textures_dir) names
    end.
Proof.
  induction names as [|name names IH]; intros Hfree; cbn [first_texture_set].
  - exists None. split; [reflexivity | constructor].
  - cbn [forallb] in Hfree. apply andb_true_iff in Hfree as [Hname Hfree].
    destruct (IH Hfree) as (r & Hr & Hspec).
    assert (Hskip : passed_over f project_root textures_dir name ->
      exists r', Ok r = Ok r' /\
        match r' with
        | Some set =>
            exists before name' after,
              name :: names = before ++ name' :: after /\
              Forall (passed_over f project_root textures_dir) before /\
              wins_with f project_root textures_dir name' set
        | None => Forall (passed_over f project_root textures_dir) (name :: names)
        end).
    { intros Hp. exists r. split; [reflexivity|]. destruct r as [set|].
      - destruct Hspec as (before & name' & after & -> & Hb & Hw).
        exists (name :: before), name', after. repeat split; auto.
      - constructor; auto. }
    change (name +:+ "*") with (name +:+ "*" +:+ "").
    destruct (glob_checked_fits f textures_dir name "" Hname eq_refl)
      as (dirs & -> & Hdirs).
    cbn [rbind]. destruct dirs as [|tex_dir rest].
    + rewrite Hr. apply Hskip. left. exact Hdirs.
    + destruct (candidate_dir name tex_dir Hdirs) as [Hw Hn].
      destruct (texture_set_of_spec f project_root tex_dir Hw Hn) as (set & -> & Hset).
      cbn [rbind]. destruct (decide (set = ∅)) as [->|Hne].
      * rewrite Hr. apply Hskip. right. eauto.
      * exists (Some set). split; [reflexivity|].
        exists [], name, names. split; [reflexivity|]. split; [constructor|].
        exists tex_dir. auto.
Qed.

Lemma texture_sets_loop_spec (mappings : list (string * list string))
    (acc : gmap string (gmap string string)) :
  NoDup (map fst mappings) ->
  forallb (fun m : string * list string => forallb wildcard_free m.2) mappings = true ->
  exists ts,
    texture_sets_loop f project_root textures_dir mappings acc = Ok ts /\
    (forall key, ~ In key (map fst mappings) -> ts !! key = acc !! key) /\
    (forall key names, In (key, names) mappings ->
       exists r, first_texture_set f project_root textures_dir names = Ok r /\
                 ts !! key = match r with Some set => Some set | None => acc !! key end).
Proof.
  revert acc. induction mappings as [|[k0 n0] rest IH]; intros acc Hnd Hfree;
    cbn [texture_sets_loop].
  - exists acc. repeat split; auto. intros ? ? [].
  - cbn [map fst] in Hnd. apply NoDup_cons in Hnd as [Hk0 Hnd].
    cbn [forallb snd] in Hfree. apply andb_true_iff in Hfree as [Hn0 Hfree].
    destruct (first_texture_set_spec n0 Hn0) as (r0 & Hr0 & _).
    rewrite Hr0. cbn [rbind].
    set (acc' := match r0 with Some s => <[k0:=s]> acc | None => acc end).
    destruct (IH acc' Hnd Hfree) as (ts & Hts & Hout & Hin).
    assert (Hk0' : ~ In k0 (map fst rest)).
    { intros H. apply Hk0, list_elem_of_In, H. }
    exists ts. split; [exact Hts|]. split.
    + intros key Hkey. cbn [map fst In] in Hkey. rewrite Hout by tauto.
      subst acc'. destruct r0; [|reflexivity].
      apply lookup_insert_ne. intros ->. tauto.
    + intros key names [[= -> ->]|Hkn].
      * exists r0. split; [exact Hr0|]. rewrite (Hout _ Hk0').
        subst acc'. destruct r0; [apply lookup_insert_eq | reflexivity].
      * destruct (Hin _ _ Hkn) as (r & Hr & Hlook).
        exists r. split; [exact Hr|]. rewrite Hlook.
        destruct r; [reflexivity|]. subst acc'.
        destruct r0; [|reflexivity]. apply lookup_insert_ne.
        intros ->. apply Hk0'. apply in_map_iff. exists (key, names). auto.
Qed.

End TextureSearch.

Lemma listing_absent (f : Fs.t) (d : Path) :
  Fs.exists_ f d = false -> listing f d = [].
Proof.
  unfold Fs.exists_, listing, Fs.is_dir.
  destruct (Fs.stat f d); [discriminate | reflexivity].
Qed.

(* ================================================================== *)
(** ** Where the entries of the manifest come from *)
(* ================================================================== *)

Lemma rel_res_path_inv (project_root p : Path) (x : string) :
  _rel_res_path project_root p = Ok x ->
  exists rel, p = project_root ++ rel /\ (rel <> [] -> x = res_of rel).
Proof.
  unfold _rel_res_path.
  destruct (Fs.relative_to p project_root) as [rel|] eqn:E; [|discriminate].
  intros [= <-]. apply relative_to_Some in E. exists rel. split; [exact E|].
  intros Hrel. unfold res_of.
  change (Py.replace_from (String Re.backslash "") "/" 0 (Fs.rel_str rel))
    with (Py.replace (String Re.backslash "") "/" (Fs.rel_str rel)).
  rewrite slashes_replace. unfold Fs.rel_str.
  destruct rel; [tauto | reflexivity].
Qed.

(** Every pool entry is the resource path of a model file below one of
    the pack directories. *)
Lemma pool_entry_origin (f : Fs.t) (project_root : Path) (pack_dirs : list Path)
    (v : gmap string (list string)) (key : string) (pool : list string) (x : string) :
  build_variant_pools f project_root pack_dirs = Ok v ->
  v !! key = Some pool -> In x pool ->
  exists p d, _rel_res_path project_root p = Ok x /\
              Fs.is_file f p = true /\ In d pack_dirs /\ Fs.below d p = true.
Proof.
  unfold build_variant_pools, rbind.
  destruct (rp _ (euro_candidates _)) as [l1|] eqn:E1; [|discriminate].
  destruct (rp _ (ind_candidates _)) as [l2|] eqn:E2; [|discriminate].
  destruct (rp _ (shack_candidates _)) as [l3|] eqn:E3; [|discriminate].
  destruct (rp _ (conifer_candidates _)) as [l4|] eqn:E4; [|discriminate].
  destruct (rp _ (broadleaf_candidates _)) as [l5|] eqn:E5; [|discriminate].
  destruct (rp _ (palm_candidates _)) as [l6|] eqn:E6; [|discriminate].
  intros [= <-] Hk Hx.
  assert (Hp : exists p, In p (model_files f pack_dirs) /\
                         _rel_res_path project_root p = Ok x).
  { apply pools_dict_lookup in Hk.
    destruct Hk as [[_ ->]|[[_ ->]|[[_ ->]|[[_ ->]|[[_ ->]|[_ ->]]]]]];
      apply In_take in Hx;
      match goal with
      | E : rp _ ?xs = Ok ?l, H : In x ?l |- _ =>
          apply rp_inv in E;
          destruct (Forall2_In_r _ _ _ _ E H) as (p & Hin & Hr);
          exists p; split; [apply classify_In; tauto | exact Hr]
      end. }
  destruct Hp as (p & Hin & Hr).
  apply model_files_spec in Hin as (H1 & _ & d & Hd & H3).
  exists p, d. auto.
Qed.

Section TextureEntries.

Variables (f : Fs.t) (project_root : Path).

Lemma add_channels_entries (tex_dir : Path) (base_name : string)
    (chs : list (string * string)) (set set' : gmap string string) :
  add_channels f project_root tex_dir base_name set chs = Ok set' ->
  forall ch x, set' !! ch = Some x ->
    set !! ch = Some x \/
    exists file, In file (listing f tex_dir) /\ _rel_res_path project_root file = Ok x.
Proof.
  revert set. induction chs as [|c chs IH]; intros set; cbn [add_channels].
  - intros [= <-]. auto.
  - unfold rbind at 1, add_channel, glob_checked.
    destruct (Py.contains "**" _); [discriminate|]. cbn [rbind].
    destruct (Fs.glob f tex_dir _) as [|file rest] eqn:E; [apply IH|].
    destruct (_rel_res_path project_root file) as [p|] eqn:Ep; [|discriminate].
    cbn [rbind]. intros H ch x Hx.
    destruct (IH _ H ch x Hx) as [Hs|Hs]; [|right; exact Hs].
    apply lookup_insert_Some in Hs as [[<- <-]|[_ Hs]]; [|left; exact Hs].
    right. exists file. split; [|exact Ep].
    assert (Hin : In file (Fs.glob f tex_dir (base_name +:+ "*" +:+ c.2)))
      by (rewrite E; left; reflexivity).
    rewrite glob_listing in Hin. apply filter_In in Hin. tauto.
Qed.

Lemma first_texture_set_entries (textures_dir : Path) (names : list string)
    (set : gmap string string) :
  first_texture_set f project_root textures_dir names = Ok (Some set) ->
  forall ch x, set !! ch = Some x ->
    exists tex_dir file,
      In tex_dir (listing f textures_dir) /\ In file (listing f tex_dir) /\
      _rel_res_path project_root file = Ok x.
Proof.
  induction names as [|n names IH]; cbn [first_texture_set]; [discriminate|].
  unfold rbind at 1, glob_checked.
  destruct (Py.contains "**" _); [discriminate|].
  destruct (Fs.glob f textures_dir _) as [|tex_dir rest] eqn:E; [exact IH|].
  unfold rbind. destruct (texture_set_of f project_root tex_dir) as [ts|] eqn:Et;
    [|discriminate].
  destruct (decide (ts = ∅)); [exact IH|]. intros [= <-] ch x Hx.
  unfold texture_set_of in Et.
  destruct (add_channels_entries _ _ _ _ _ Et ch x Hx) as [Hs|(file & Hf & Hr)].
  - rewrite lookup_empty in Hs. discriminate Hs.
  - exists tex_dir, file. split; [|auto].
    assert (Hin : In tex_dir (Fs.glob f textures_dir (n +:+ "*")))
      by (rewrite E; left; reflexivity).
    rewrite glob_listing in Hin. apply filter_In in Hin. tauto.
Qed.

Lemma texture_sets_loop_entries (textures_dir : Path)
    (mappings : list (string * list string))
    (acc ts : gmap string (gmap string string)) :
  texture_sets_loop f project_root textures_dir mappings acc = Ok ts ->
  forall key set, ts !! key = Some set ->
    acc !! key = Some set \/
    exists names, first_texture_set f project_root textures_dir names = Ok (Some set).
Proof.
  revert acc. induction mappings as [|[k names] rest IH]; intros acc;
    cbn [texture_sets_loop].
  - intros [= <-]. auto.
  - unfold rbind.
    destruct (first_texture_set f project_root textures_dir names) as [r|] eqn:E;
      [|discriminate].
    intros H key set Hk. destruct (IH _ H key set Hk) as [Ha|Ha]; [|right; exact Ha].
    destruct r as [s0|]; [|left; exact Ha].
    apply lookup_insert_Some in Ha as [[<- <-]|[_ Ha]]; [right; eauto | left; exact Ha].
Qed.

(** Every channel entry is the resource path of an entry of a directory
    of the textures directory. *)
Lemma texture_entry_origin (textures_dir : Path)
    (ts : gmap string (gmap string string)) (key ch : string)
    (set : gmap string string) (x : string) :
  build_texture_sets f project_root textures_dir = Ok ts ->
  ts !! key = Some set -> set !! ch = Some x ->
  exists dir file,
    In (textures_dir ++ [dir; file]) (map fst f) /\
    _rel_res_path project_root (textures_dir ++ [dir; file]) = Ok x.
Proof.
  unfold build_texture_sets. destruct (Fs.exists_ f textures_dir).
  2:{ intros [= <-] Hk. rewrite lookup_empty in Hk. discriminate Hk. }
  intros H Hk Hc.
  destruct (texture_sets_loop_entries _ _ _ _ H key set Hk) as [Ha|[names Hn]].
  { rewrite lookup_empty in Ha. discriminate Ha. }
  destruct (first_texture_set_entries _ _ _ Hn ch x Hc) as (tex_dir & file & Hd & Hf & Hr).
  pose proof (listing_child _ _ _ Hd) as Ed.
  pose proof (listing_child _ _ _ Hf) as Ef.
  exists (Fs.name tex_dir), (Fs.name file).
  assert (E : textures_dir ++ [Fs.name tex_dir; Fs.name file] = file).
  { rewrite Ef at 2. rewrite Ed at 2. rewrite <- app_assoc. reflexivity. }
  rewrite E. split; [|exact Hr].
  unfold listing in Hf. destruct (Fs.is_dir f tex_dir); [|destruct Hf].
  apply filter_In in Hf. tauto.
Qed.

End TextureEntries.

Section ManifestFrame.

Variable env : Env.

(** The manifest writer changes the manifest and nothing else once the
    directory of the manifest is there. *)
Lemma write_manifest_keeps (project_root packs_dir textures_dir : Path)
    (variants : gmap string (list string)) (pack_dirs : list Path)
    (s s' : State) (p : Path) :
  write_manifest env project_root packs_dir textures_dir variants pack_dirs s
    = (Ok p, s') ->
  exists s1,
    update_fs (FsOps.makedirs (Fs.parent (manifest_path_of project_root))) s
      = (Ok tt, s1) /\
    forall q, q <> manifest_path_of project_root ->
              Fs.stat (fs s') q = Fs.stat (fs s1) q.
Proof.
  unfold write_manifest. intros H.
  apply bind_ok_inv in H as ([] & s1 & H1 & H).
  apply bind_ok_inv in H as (f & s1' & [= <- <-] & H).
  apply bind_ok_inv in H as (ts & s1' & Hts & H).
  apply lift_inv in Hts as [_ ->].
  apply bind_ok_inv in H as (pr & s1' & Hpr & H).
  apply lift_inv in Hpr as [_ ->].
  apply bind_ok_inv in H as (tr & s1' & Htr & H).
  apply lift_inv in Htr as [_ ->].
  apply bind_ok_inv in H as ([] & s2 & Hw & [= <- <-]).
  apply update_fs_ok in Hw as [Hw _].
  exists s1. split; [exact H1|]. intros q Hq.
  eapply write_file_stat_other; eassumption.
Qed.

End ManifestFrame.

Lemma In_fst_exists (f : Fs.t) (p : Path) :
  In p (map fst f) -> Fs.exists_ f p = true.
Proof.
  intros H. apply in_map_iff in H as ([q n] & <- & H). eapply In_exists, H.
Qed.

(* ================================================================== *)
(** ** The attempts of the pack phase *)
(* ================================================================== *)

Section AttemptLemmas.

Variable env : Env.
Variables (packs_dir project_root : Path).

Lemma bind_assoc {A B C} (m : M A) (k : A -> M B) (h : B -> M C) (s : State) :
  bind (bind m k) h s = bind m (fun a => bind (k a) h) s.
Proof. unfold bind. destruct (m s) as [[a|e] s1]; reflexivity. Qed.

Lemma bind_ext {A B} (m : M A) (k k' : A -> M B) (s : State) :
  (forall a s1, k a s1 = k' a s1) -> bind m k s = bind m k' s.
Proof. intros H. unfold bind. destruct (m s) as [[a|e] s1]; [apply H | reflexivity]. Qed.

Lemma fetch_kenney_pack_split (pack : KenneyPack) (s : State) :
  fetch_kenney_pack env pack packs_dir project_root s
  = bind (kenney_locate env project_root pack)
         (fun z => kenney_unpack env pack packs_dir z) s.
Proof.
  unfold fetch_kenney_pack, kenney_locate.
  rewrite bind_assoc. apply bind_ext. intros ingest_dir s1.
  rewrite bind_assoc. reflexivity.
Qed.

Lemma fetch_polyhaven_asset_split (asset : PolyHavenAsset) (s : State) :
  fetch_polyhaven_asset env asset packs_dir project_root s
  = bind (polyhaven_locate env project_root asset)
         (fun z => match z with
                   | None => ret None
                   | Some z => polyhaven_unpack env asset packs_dir z
                   end) s.
Proof.
  unfold fetch_polyhaven_asset, polyhaven_locate.
  rewrite bind_assoc. reflexivity.
Qed.

Lemma fetch_item_counts (it : Item) (s : State) :
  counts_its_extraction env packs_dir project_root
    {| item := it; before := s;
       outcome := (fetch_item env packs_dir project_root it s).1;
       after := (fetch_item env packs_dir project_root it s).2 |}.
Proof.
  unfold counts_its_extraction, extraction_call. cbn [item before outcome after].
  destruct it as [pack|asset]; cbn [fetch_item up_to_extraction dir_of].
  - unfold bind. rewrite fetch_kenney_pack_split. unfold bind.
    destruct (kenney_locate env project_root pack s) as [[z|e] s1];
      [|intros d; discriminate].
    unfold kenney_unpack, bind.
    destruct (update_fs (FsOps.makedirs packs_dir) s1) as [[[]|e] s2];
      [|intros d; discriminate].
    destruct (remove_if_exists (packs_dir ++ [slug pack]) s2) as [[[]|e] s3];
      [|intros d; discriminate].
    unfold ret.
    destruct (extract_zip env z (packs_dir ++ [slug pack]) s3) as [[[]|e] s4];
      split; reflexivity.
  - rewrite fetch_polyhaven_asset_split. unfold bind.
    destruct (polyhaven_locate env project_root asset s) as [[[z|]|e] s1];
      [| intros d; discriminate.. ].
    unfold polyhaven_unpack, bind.
    destruct (update_fs (FsOps.makedirs packs_dir) s1) as [[[]|e] s2];
      [|intros d; discriminate].
    destruct (update_fs (FsOps.copy2 z _) s2) as [[[]|e] s3];
      [|intros d; discriminate].
    destruct (remove_if_exists _ s3) as [[[]|e] s4];
      [|intros d; discriminate].
    unfold try_except, bind, ret.
    destruct (extract_zip env _ _ s4) as [[[]|e] s5]; split; reflexivity.
Qed.

Lemma attempts_count (items : list Item) (s : State) :
  Forall (counts_its_extraction env packs_dir project_root)
         (attempts env packs_dir project_root items s).
Proof.
  revert s. induction items as [|it rest IH]; intros s; cbn [attempts];
    constructor; [apply fetch_item_counts | apply IH].
Qed.

End AttemptLemmas.

Section LoopLemmas.

Variable env : Env.
Variables (packs_dir project_root : Path).

Lemma attempts_app (l1 l2 : list Item) (s : State) :
  attempts env packs_dir project_root (l1 ++ l2) s
  = attempts env packs_dir project_root l1 s
    ++ attempts env packs_dir project_root l2
         (state_after env packs_dir project_root l1 s).
Proof.
  revert s. induction l1 as [|it l1 IH]; intros s; [reflexivity|].
  cbn [app attempts]. rewrite IH. reflexivity.
Qed.

Lemma state_after_app (l1 l2 : list Item) (s : State) :
  state_after env packs_dir project_root (l1 ++ l2) s
  = state_after env packs_dir project_root l2
      (state_after env packs_dir project_root l1 s).
Proof. unfold state_after. apply fold_left_app. Qed.

Lemma extracted_app (l1 l2 : list Attempt) :
  extracted (l1 ++ l2) = extracted l1 ++ extracted l2.
Proof. unfold extracted. apply omap_app. Qed.

Lemma extracted_cons (it : Item) (rest : list Item) (s : State) :
  extracted (attempts env packs_dir project_root (it :: rest) s)
  = match (fetch_item env packs_dir project_root it s).1 with
    | Ok (Some d) => [d]
    | _ => []
    end ++ extracted (attempts env packs_dir project_root rest
                        (fetch_item env packs_dir project_root it s).2).
Proof.
  cbn [attempts]. unfold extracted. cbn [omap list_omap outcome].
  destruct (fetch_item env packs_dir project_root it s).1 as [[d|]|e]; reflexivity.
Qed.

Lemma state_after_cons (it : Item) (rest : list Item) (s : State) :
  state_after env packs_dir project_root (it :: rest) s
  = state_after env packs_dir project_root rest
      (fetch_item env packs_dir project_root it s).2.
Proof. reflexivity. Qed.

Lemma kenney_loop_attempts (packs : list KenneyPack) (acc : list Path) (s : State) :
  kenney_loop env packs packs_dir project_root acc s
  = (Ok (acc ++ extracted (attempts env packs_dir project_root
                             (map KenneyItem packs) s)),
     state_after env packs_dir project_root (map KenneyItem packs) s).
Proof.
  revert acc s. induction packs as [|pack rest IH]; intros acc s.
  - cbn. rewrite app_nil_r. reflexivity.
  - cbn [map]. rewrite extracted_cons, state_after_cons.
    cbn [kenney_loop fetch_item]. unfold try_except, bind, ret.
    destruct (fetch_kenney_pack env pack packs_dir project_root s) as [[d|e] s1];
      cbn [fst snd]; rewrite IH; [rewrite <- app_assoc|]; reflexivity.
Qed.

Lemma polyhaven_loop_attempts (assets : list PolyHavenAsset) (acc : list Path)
    (s : State) :
  polyhaven_loop env assets packs_dir project_root acc s
  = (Ok (acc ++ extracted (attempts env packs_dir project_root
                             (map PolyHavenItem assets) s)),
     state_after env packs_dir project_root (map PolyHavenItem assets) s).
Proof.
  revert acc s. induction assets as [|asset rest IH]; intros acc s.
  - cbn. rewrite app_nil_r. reflexivity.
  - cbn [map]. rewrite extracted_cons, state_after_cons.
    cbn [polyhaven_loop fetch_item]. unfold try_except, bind, ret.
    destruct (fetch_polyhaven_asset env asset packs_dir project_root s)
      as [[[d|]|e] s1];
      cbn [fst snd]; rewrite IH; [rewrite <- app_assoc| |]; reflexivity.
Qed.

(** The pack phase returns the directories its attempts have returned,
    in their order, and nothing else. *)
Lemma fetch_packs_attempts (args : Args) (s : State) :
  fetch_packs env (all args || ww2_assets args) (all args || polyhaven args)
    packs_dir project_root s
  = (Ok (extracted (attempts env packs_dir project_root (items_of args) s)),
     state_after env packs_dir project_root (items_of args) s).
Proof.
  unfold fetch_packs, items_of, packs_of, assets_of.
  rewrite map_app, <- app_assoc, !attempts_app, !state_after_app, !extracted_app.
  unfold bind at 1. rewrite kenney_loop_attempts. cbn [app].
  unfold bind at 1.
  destruct (all args || ww2_assets args)%bool.
  - rewrite kenney_loop_attempts.
    destruct (all args || polyhaven args)%bool.
    + rewrite polyhaven_loop_attempts, <- app_assoc. reflexivity.
    + cbn. rewrite !app_nil_r. reflexivity.
  - unfold ret at 1. cbn [map attempts extracted omap list_omap app].
    unfold state_after at 2 4. cbn [fold_left].
    destruct (all args || polyhaven args)%bool.
    + rewrite polyhaven_loop_attempts. reflexivity.
    + cbn. rewrite !app_nil_r. reflexivity.
Qed.

End LoopLemmas.

(* ================================================================== *)
(** ** The link picker *)
(* ================================================================== *)

Lemma prefix_contains (p s : string) :
  String.prefix p s = true -> Py.contains p s = true.
Proof. destruct s; simpl; intros ->; reflexivity. Qed.

Lemma contains_tail (p : string) (c : ascii) (s : string) :
  Py.contains p (String c s) = false -> Py.contains p s = false.
Proof. simpl. intros H. apply orb_false_iff in H. tauto. Qed.

Lemma contains_drop (p : string) (k : nat) (s : string) :
  Py.contains p s = false -> Py.contains p (Py.drop_str k s) = false.
Proof.
  revert s. induction k as [|k IH]; intros s H; destruct s; simpl; auto.
  apply IH. eapply contains_tail, H.
Qed.

(** Without a backslash in the text the expression matches nowhere. *)
Lemma kenney_re_needs_backslash (s : string) :
  Py.contains bs s = false -> Re.match_here kenney_zip_re s = None.
Proof.
  intros H. unfold kenney_zip_re.
  change (Re.match_here (Re.Lit "https://kenney" :: ?r) s)
    with (if String.prefix "https://kenney" s
          then (fun n => String.length "https://kenney" + n) <$>
                 Re.match_here r (Py.drop_str (String.length "https://kenney") s)
          else None).
  destruct (String.prefix "https://kenney" s); [|reflexivity].
  set (t := Py.drop_str _ s).
  assert (Ht : Py.contains bs t = false) by (apply contains_drop, H).
  change (Re.match_here (Re.Lit ?b :: ?r) t)
    with (if String.prefix b t
          then (fun n => String.length b + n) <$>
                 Re.match_here r (Py.drop_str (String.length b) t)
          else None).
  destruct (String.prefix _ t) eqn:Hp; [|reflexivity].
  apply prefix_contains in Hp. fold bs in Hp. congruence.
Qed.

Lemma findall_needs_backslash (s : string) (skip : nat) :
  Py.contains bs s = false -> Re.findall_from kenney_zip_re skip s = [].
Proof.
  revert skip. induction s as [|c s IH]; intros skip H.
  - simpl. destruct skip; reflexivity.
  - pose proof (contains_tail _ _ _ H) as H'.
    cbn [Re.findall_from]. destruct skip as [|k]; [|apply IH, H'].
    rewrite (kenney_re_needs_backslash _ H). apply IH, H'.
Qed.

(** A page is turned down whatever links it holds, unless it holds a
    backslash. *)
Lemma pick_needs_backslash (html : string) :
  Py.contains bs html = false -> _pick_best_kenney_zip_link html = None.
Proof.
  intros H. unfold _pick_best_kenney_zip_link, Re.findall.
  rewrite (findall_needs_backslash _ 0 H). reflexivity.
Qed.

(** C1 (evaluated at the failing input). The page holds a direct link
    https://kenney.nl/media/pages/assets/building-kit/kenney_building-kit.zip,
    with the canonical path segment and a kenney_ name; the picker
    returns no link for it, and [fetch_kenney_pack] gives up on the pack
    with the page fetched and nothing downloaded. *)
Theorem kenney_link_is_not_picked :
  Py.contains
    "https://kenney.nl/media/pages/assets/building-kit/kenney_building-kit.zip"
    World.kenney_page = true /\
  _pick_best_kenney_zip_link World.kenney_page = None /\
  let r := fetch_kenney_pack World.kenney_online World.building_kit
             World.packs World.root (World.start World.bare) in
  r.1 = Raise (RuntimeError
                 "Could not find download link on https://kenney.nl/assets/building-kit")
  /\ net_log r.2 = [HttpGet "https://kenney.nl/assets/building-kit"].
Proof. vm_compute. repeat split; reflexivity. Qed.

(* ================================================================== *)
(** ** The command-line flags *)
(* ================================================================== *)

(** [main] reads every flag but [local_only]. *)
Lemma main_ignores_local_only (env : Env) (a : Args) (b : bool) (s : State) :
  main env {| project := project a; no_textures := no_textures a;
              local_only := b; ww2_assets := ww2_assets a;
              ww2_textures := ww2_textures a; polyhaven := polyhaven a;
              list_assets := list_assets a; all := all a |} s
  = main env a s.
Proof. reflexivity. Qed.

(** C2 (evaluated at the failing input). With --local-only, an empty
    cache and no network, the run still asks the network for every base
    pack and every base texture. *)
Theorem local_only_run_uses_network :
  local_only World.local_only_args = true /\
  Fs.glob World.bare World.ingest "*.zip" = [] /\
  net_log (main World.offline World.local_only_args (World.start World.bare)).2
  = map (fun p => HttpGet (page_url p)) KENNEY_PACKS
    ++ map (fun t => Download ("https://ambientcg.com/get?file=" +:+ file_name t)
                              (World.ingest ++ [file_name t]))
           AMBIENTCG_TEXTURES.
Proof. vm_compute. repeat split; reflexivity. Qed.

(* ================================================================== *)
(** ** Failure isolation *)
(* ================================================================== *)

(** C7 (evaluated at the failing input). The first texture of the
    catalogue is cached as a file that is no ZIP archive; the second is
    cached and intact. The texture group stops at the first: the second
    is never unpacked and no other texture is asked for, though the
    manifest is written. *)
Theorem corrupt_texture_skips_the_rest :
  let s := World.start World.corrupt_texture_cache in
  let asphalt := {| file_name := "Asphalt012_2K-JPG.zip" |} in
  let s' := (main World.offline World.default_args s).2 in
  texture_cache_lookup (fs s) World.ingest asphalt
    = Some (World.ingest ++ ["Asphalt012_2K-JPG.zip"]) /\
  (fetch_ambientcg_textures World.offline AMBIENTCG_TEXTURES
     World.tex World.root s).1 = Raise BadZipFile /\
  Fs.exists_ (fs s') (World.tex ++ ["Asphalt012_2K-JPG"]) = false /\
  net_log s' = map (fun p => HttpGet (page_url p)) KENNEY_PACKS /\
  Fs.is_file (fs s') World.manifest = true.
Proof. vm_compute. repeat split; reflexivity. Qed.

(* ================================================================== *)
(** ** The cache lookup *)
(* ================================================================== *)

Lemma prefix_split (a b : string) :
  String.prefix a b = true <-> exists y, b = a +:+ y.
Proof.
  revert b. induction a as [|c a IH]; intros b.
  - split; [intros _; exists b; reflexivity | intros _; destruct b; reflexivity].
  - destruct b as [|d b]; simpl.
    + split; [discriminate | intros [y Hy]; discriminate].
    + destruct (ascii_dec c d) as [->|Hne].
      * rewrite IH. split; intros [y Hy]; exists y.
        -- subst b. reflexivity.
        -- change (String d b = String d (a +:+ y)) in Hy. congruence.
      * split; [discriminate|]. intros [y Hy].
        change (String d b = String c (a +:+ y)) in Hy. congruence.
Qed.

Lemma contains_split (a b : string) :
  Py.contains a b = true <-> exists x y, b = x +:+ a +:+ y.
Proof.
  induction b as [|d b IH].
  - change (Py.contains a "") with (String.prefix a "" || false)%bool.
    rewrite orb_false_r, prefix_split. split.
    + intros [y Hy]. exists "", y. exact Hy.
    + intros ([|? ?] & y & Hy); [exists y; exact Hy | discriminate].
  - change (Py.contains a (String d b))
      with (String.prefix a (String d b) || Py.contains a b)%bool.
    rewrite orb_true_iff, prefix_split, IH. split.
    + intros [[y Hy]|(x & y & ->)]; [exists "", y; exact Hy|].
      exists (String d x), y. reflexivity.
    + intros ([|c x] & y & Hy); [left; exists y; exact Hy|].
      right. exists x, y.
      change (String d b = String c (x +:+ a +:+ y)) in Hy. congruence.
Qed.

Lemma lower_app (a b : string) : Py.lower (a +:+ b) = Py.lower a +:+ Py.lower b.
Proof. induction a as [|c a IH]; simpl; [reflexivity | rewrite IH; reflexivity]. Qed.

Lemma delete_char_cons (c d : ascii) (t : string) :
  Py.replace_from (String c "") "" 0 (String d t)
  = if Ascii.eqb c d then Py.replace_from (String c "") "" 0 t
    else String d (Py.replace_from (String c "") "" 0 t).
Proof.
  change (Py.replace_from (String c "") "" 0 (String d t))
    with (if match ascii_dec c d with
             | left _ => String.prefix "" t
             | right _ => false
             end
          then Py.replace_from (String c "") "" 0 t
          else String d (Py.replace_from (String c "") "" 0 t)).
  destruct (ascii_dec c d) as [->|Hne].
  - rewrite prefix_nil, Ascii.eqb_refl. reflexivity.
  - apply Ascii.eqb_neq in Hne. rewrite Hne. reflexivity.
Qed.

Lemma delete_char_app (c : ascii) (a b : string) :
  Py.replace (String c "") "" (a +:+ b)
  = Py.replace (String c "") "" a +:+ Py.replace (String c "") "" b.
Proof.
  change (Py.replace (String c "") "" ?t)
    with (Py.replace_from (String c "") "" 0 t).
  induction a as [|d a IH]; [reflexivity|].
  change (String d a +:+ b) with (String d (a +:+ b)).
  rewrite !delete_char_cons, IH. destruct (Ascii.eqb c d); reflexivity.
Qed.

Lemma normalize_app (a b : string) :
  normalize (a +:+ b) = normalize a +:+ normalize b.
Proof.
  unfold normalize. rewrite lower_app.
  rewrite (delete_char_app "_"), (delete_char_app "-"). reflexivity.
Qed.

(** The lookup of [fetch_kenney_pack] is the stricter of the two: what
    it matches, the normalised comparison matches as well. *)
Lemma kenney_match_is_normalized_match (slug_ name : string) :
  Py.contains (Py.lower slug_) (Py.lower name) = true ->
  Py.contains (normalize slug_) (normalize name) = true.
Proof.
  rewrite !contains_split. intros (x & y & H). unfold normalize. rewrite H.
  exists (Py.replace "-" "" (Py.replace "_" "" x)),
         (Py.replace "-" "" (Py.replace "_" "" y)).
  rewrite !(delete_char_app "_"), !(delete_char_app "-"). reflexivity.
Qed.

(** C8 (evaluated at the failing input). A cached file that differs from
    the slug in one separator only: the normalised slug is in the
    normalised file name, [find_local_zip] finds the file, and the
    lookup of [fetch_kenney_pack] does not, so the pack goes to the
    network. The file of the scenario, which differs in case only, is
    found. *)
Theorem kenney_lookup_misses_separator_variant :
  let name := "kenney-city-kit-suburban.zip" in
  Py.contains (normalize (slug World.suburban)) (normalize name) = true /\
  find_local_zip World.hyphen_cache World.root (slug World.suburban)
    = Some (World.ingest ++ [name]) /\
  kenney_cache_lookup World.hyphen_cache World.ingest World.suburban = None /\
  net_log (fetch_kenney_pack World.offline World.suburban World.packs
             World.root (World.start World.hyphen_cache)).2
    = [HttpGet "https://kenney.nl/assets/city-kit-suburban"] /\
  kenney_cache_lookup World.mixed_case_cache World.ingest World.suburban
    = Some (World.ingest ++ ["Kenney_City-Kit-Suburban.zip"]).
Proof. vm_compute. repeat split; reflexivity. Qed.

(** C10. In [fetch_kenney_pack] and in [fetch_polyhaven_asset], when the
    steps before the extraction have gone through, the extraction starts
    from a state in which nothing is listed at or below the pack
    directory, and in the state it ends in, finished or failed, every
    file below the pack directory is a member of the archive just
    unpacked. *)
Theorem reextraction_leaves_no_stale_file (env : Env) :
  (forall (pack : KenneyPack) (packs_dir local_zip : Path) (s s1 s2 : State),
      parents_listed (fs s) = true ->
      update_fs (FsOps.makedirs packs_dir) s = (Ok tt, s1) ->
      remove_if_exists (packs_dir ++ [slug pack]) s1 = (Ok tt, s2) ->
      nothing_at (packs_dir ++ [slug pack]) s2 /\
      kenney_unpack env pack packs_dir local_zip s =
        (extract_zip env local_zip (packs_dir ++ [slug pack]) ;;;
         ret (packs_dir ++ [slug pack])) s2 /\
      only_fresh_files env local_zip (packs_dir ++ [slug pack]) s2
        (kenney_unpack env pack packs_dir local_zip s).2)
  /\
  (forall (asset : PolyHavenAsset) (packs_dir local_zip : Path)
          (s s1 s2 s3 : State),
      let out_zip := packs_dir ++ ["polyhaven_" +:+ ph_file_name asset] in
      let out_dir :=
        packs_dir ++ ["polyhaven_" +:+ Py.replace ".zip" "" (ph_file_name asset)] in
      parents_listed (fs s) = true ->
      update_fs (FsOps.makedirs packs_dir) s = (Ok tt, s1) ->
      update_fs (FsOps.copy2 local_zip out_zip) s1 = (Ok tt, s2) ->
      remove_if_exists out_dir s2 = (Ok tt, s3) ->
      nothing_at out_dir s3 /\
      polyhaven_unpack env asset packs_dir local_zip s =
        try_except (extract_zip env out_zip out_dir ;;; ret (Some out_dir))
                   (fun _ => ret None) s3 /\
      only_fresh_files env out_zip out_dir s3
        (polyhaven_unpack env asset packs_dir local_zip s).2).
Proof.
  split.
  - intros pack packs_dir local_zip s s1 s2 Hf H1 H2.
    assert (Hf1 : parents_listed (fs s1) = true).
    { apply update_fs_ok in H1 as [H1 _]. eapply makedirs_listed; eauto. }
    pose proof (remove_if_exists_clears _ _ _ Hf1 H2) as Hclear.
    assert (Heq : kenney_unpack env pack packs_dir local_zip s =
                  (extract_zip env local_zip (packs_dir ++ [slug pack]) ;;;
                   ret (packs_dir ++ [slug pack])) s2).
    { unfold kenney_unpack. rewrite (bind_ok _ _ _ _ _ H1).
      rewrite (bind_ok _ _ _ _ _ H2). reflexivity. }
    repeat split; [exact Hclear | exact Heq |].
    rewrite Heq, state_after_ret. apply fresh_after_clear, Hclear.
  - intros asset packs_dir local_zip s s1 s2 s3 out_zip out_dir Hf H1 H2 H3.
    assert (Hf1 : parents_listed (fs s1) = true).
    { apply update_fs_ok in H1 as [H1 _]. eapply makedirs_listed; eauto. }
    assert (Hf2 : parents_listed (fs s2) = true).
    { apply update_fs_ok in H2 as [H2 _]. eapply copy2_listed; eauto. }
    pose proof (remove_if_exists_clears _ _ _ Hf2 H3) as Hclear.
    assert (Heq : polyhaven_unpack env asset packs_dir local_zip s =
                  try_except (extract_zip env out_zip out_dir ;;; ret (Some out_dir))
                             (fun _ => ret None) s3).
    { unfold polyhaven_unpack. rewrite (bind_ok _ _ _ _ _ H1).
      fold out_zip. rewrite (bind_ok _ _ _ _ _ H2).
      fold out_dir. rewrite (bind_ok _ _ _ _ _ H3). reflexivity. }
    repeat split; [exact Hclear | exact Heq |].
    rewrite Heq.
    rewrite state_after_try.
    apply fresh_after_clear, Hclear.
Qed.

Lemma reextraction_witness :
  let s := World.start World.stale_packs in
  let s1 := (update_fs (FsOps.makedirs World.packs) s).2 in
  let zip := World.ingest ++ ["kenney_nature-kit.zip"] in
  let out_dir := World.packs ++ [slug World.nature] in
  let s2 := (remove_if_exists out_dir s1).2 in
  let hzip := World.ingest ++ ["hangar_01.zip"] in
  let out_zip := World.packs ++ ["polyhaven_hangar_01.zip"] in
  let hout := World.packs ++ ["polyhaven_hangar_01"] in
  let t2 := (update_fs (FsOps.copy2 hzip out_zip) s1).2 in
  let t3 := (remove_if_exists hout t2).2 in
  (parents_listed (fs s) = true /\
   update_fs (FsOps.makedirs World.packs) s = (Ok tt, s1) /\
   remove_if_exists out_dir s1 = (Ok tt, s2) /\
   update_fs (FsOps.copy2 hzip out_zip) s1 = (Ok tt, t2) /\
   remove_if_exists hout t2 = (Ok tt, t3)) /\
  (nothing_at out_dir s2 /\
   only_fresh_files World.offline zip out_dir s2
     (kenney_unpack World.offline World.nature World.packs zip s).2) /\
  (nothing_at hout t3 /\
   only_fresh_files World.offline out_zip hout t3
     (polyhaven_unpack World.offline World.hangar World.packs hzip s).2).
Proof.
  intros s s1 zip out_dir s2 hzip out_zip hout t2 t3.
  assert (H0 : parents_listed (fs s) = true) by (vm_compute; reflexivity).
  assert (H1 : update_fs (FsOps.makedirs World.packs) s = (Ok tt, s1))
    by (vm_compute; reflexivity).
  assert (H2 : remove_if_exists out_dir s1 = (Ok tt, s2))
    by (vm_compute; reflexivity).
  assert (H3 : update_fs (FsOps.copy2 hzip out_zip) s1 = (Ok tt, t2))
    by (vm_compute; reflexivity).
  assert (H4 : remove_if_exists hout t2 = (Ok tt, t3))
    by (vm_compute; reflexivity).
  split; [repeat split; assumption|].
  destruct (reextraction_leaves_no_stale_file World.offline) as [K P].
  split.
  - destruct (K World.nature World.packs zip s s1 s2 H0 H1 H2) as (? & _ & ?).
    split; assumption.
  - destruct (P World.hangar World.packs hzip s s1 t2 t3 H0 H1 H3 H4) as (? & _ & ?).
    split; assumption.
Defined.

(** The same run, computed: the old oak is gone, the one member the
    broken archive gave up is there, and the fetch has failed. *)
Example reextraction_run :
  let zip := World.ingest ++ ["kenney_nature-kit.zip"] in
  let r := kenney_unpack World.offline World.nature World.packs zip
             (World.start World.stale_packs) in
  r.1 = Raise BadZipFile /\
  List.filter (fun e : Path * node =>
                 Fs.within (World.packs ++ ["kenney_nature-kit"]) e.1) (fs r.2)
  = [ (World.packs ++ ["kenney_nature-kit"], Dir);
      (World.packs ++ ["kenney_nature-kit"; "Models"], Dir);
      (World.packs ++ ["kenney_nature-kit"; "Models"; "tree_palm.glb"],
       File (Raw "glb2")) ].
Proof. vm_compute. split; reflexivity. Qed.

(** C4. When [write_manifest] is given no pack directory and writes the
    manifest, the document on disk maps each of the six pool keys to the
    empty list and has no other pool, whatever classification result was
    passed in; use_external_assets and status.assets_downloaded are
    false and the warning is a non-empty text. *)
Theorem no_packs_manifest_is_empty (env : Env)
    (project_root packs_dir textures_dir : Path)
    (variants_in : gmap string (list string)) (s s' : State) (p : Path) :
  write_manifest env project_root packs_dir textures_dir variants_in [] s
    = (Ok p, s') ->
  exists m : Manifest,
    Fs.lookup (fs s') p = Some (File (Json m)) /\
    Forall (fun key => variants m !! key = Some []) pool_keys /\
    (forall key pool, variants m !! key = Some pool -> In key pool_keys /\ pool = []) /\
    use_external_assets m = false /\
    assets_downloaded (status m) = false /\
    warning (status m) <> "".
Proof.
  intros H. apply write_manifest_inv in H
    as (s1 & ts & pr & tr & _ & _ & _ & _ & -> & Hm).
  simpl in Hm. eexists. split; [exact Hm|]. simpl.
  split; [|split; [|repeat split; discriminate]].
  - unfold pool_keys. repeat constructor.
  - intros key pool Hk. apply pools_dict_lookup in Hk.
    unfold pool_keys. simpl. intuition (subst; auto).
Qed.

Lemma no_packs_manifest_witness :
  let stale : gmap string (list string) :=
    {[ "euro_buildings" := ["res://assets/external/packs/x/house.glb"] ]} in
  let r := write_manifest World.offline World.root World.packs World.tex stale []
             (World.start World.bare) in
  r.1 = Ok World.manifest /\
  exists m : Manifest,
    Fs.lookup (fs r.2) World.manifest = Some (File (Json m)) /\
    Forall (fun key => variants m !! key = Some []) pool_keys /\
    (forall key pool, variants m !! key = Some pool -> In key pool_keys /\ pool = []) /\
    use_external_assets m = false /\
    assets_downloaded (status m) = false /\
    warning (status m) <> "".
Proof.
  intros stale r.
  assert (H : write_manifest World.offline World.root World.packs World.tex
                stale [] (World.start World.bare) = (Ok World.manifest, r.2))
    by (vm_compute; reflexivity).
  split; [vm_compute; reflexivity|].
  exact (no_packs_manifest_is_empty _ _ _ _ _ _ _ _ H).
Defined.

Lemma ltb_length_nonempty {A} (l : list A) :
  Nat.ltb 0 (length l) = true <-> l <> [].
Proof.
  destruct l; simpl; split; done.
Qed.

(** C3, as the code has it. The pack phase of a run is a row of
    attempts, one for each Kenney pack and each Poly Haven asset of the
    run, each made in the state the attempt before it has left. An
    attempt returns a pack directory exactly when it gets to its call of
    [extract_zip] and that call returns. In the manifest the run writes,
    status.asset_count is the number of attempts of this run that have
    returned a directory, use_external_assets is true if and only if
    there is at least one, and status.assets_downloaded is the same
    value. Textures are no attempts of the pack phase, and nothing is
    read from an earlier manifest. *)
Theorem external_assets_flag (env : Env) (args : Args) (s s' : State) (code : nat) :
  list_assets args = false ->
  main env args s = (Ok code, s') ->
  exists (project_root : Path) (m : Manifest),
    find_project_root (project args) s = (Ok project_root, s) /\
    read_manifest (fs s') (manifest_path_of project_root) = Some m /\
    let packs_dir := project_root ++ packs_rel in
    let log := attempts env packs_dir project_root (items_of args) s in
    Forall (counts_its_extraction env packs_dir project_root) log /\
    asset_count (status m) = length (extracted log) /\
    (use_external_assets m = true <-> extracted log <> []) /\
    assets_downloaded (status m) = use_external_assets m.
Proof.
  intros Hl H.
  destruct (main_inv env args s s' code Hl H)
    as (project_root & pack_dirs & s1 & s2 & v & Hroot & Hp & _ & _ & Hw).
  apply write_manifest_inv in Hw as (_ & ts & pr & tr & _ & _ & _ & _ & _ & Hm).
  change (project_root ++ ["assets"; "external"; "packs"])
    with (project_root ++ packs_rel) in Hp.
  rewrite fetch_packs_attempts in Hp.
  exists project_root. eexists. split; [exact Hroot|].
  split; [unfold read_manifest; rewrite Hm; reflexivity|].
  cbv zeta. cbn [status asset_count use_external_assets assets_downloaded].
  split; [apply attempts_count|].
  revert Hp.
  generalize (attempts env (project_root ++ packs_rel) project_root (items_of args) s).
  generalize (state_after env (project_root ++ packs_rel) project_root (items_of args) s).
  intros st log Hp.
  assert (Hpd : pack_dirs = extracted log) by congruence.
  subst pack_dirs. clear Hp.
  split; [reflexivity|]. split; [|reflexivity].
  apply ltb_length_nonempty.
Qed.

Lemma external_assets_flag_witness :
  let s := World.start World.mixed_case_cache in
  let r := main World.offline World.default_args s in
  (list_assets World.default_args = false /\ r.1 = Ok 0) /\
  extracted (attempts World.offline World.packs World.root
               (items_of World.default_args) s)
    = [World.packs ++ ["kenney_city-kit-suburban"]] /\
  exists (project_root : Path) (m : Manifest),
    find_project_root (project World.default_args) s = (Ok project_root, s) /\
    read_manifest (fs r.2) (manifest_path_of project_root) = Some m /\
    let packs_dir := project_root ++ packs_rel in
    let log := attempts World.offline packs_dir project_root
                 (items_of World.default_args) s in
    Forall (counts_its_extraction World.offline packs_dir project_root) log /\
    asset_count (status m) = length (extracted log) /\
    (use_external_assets m = true <-> extracted log <> []) /\
    assets_downloaded (status m) = use_external_assets m.
Proof.
  intros s r.
  assert (H : main World.offline World.default_args s = (Ok 0, r.2))
    by (vm_compute; reflexivity).
  split; [split; [reflexivity | vm_compute; reflexivity]|].
  split; [vm_compute; reflexivity|].
  exact (external_assets_flag World.offline World.default_args s r.2 0 eq_refl H).
Defined.

(** C3 as stated fails: a run in which no model pack can be had and one
    texture pack is found in the cache and unpacked to the end. A bundle
    has been extracted in this run, and the manifest says
    use_external_assets = false. *)
Lemma texture_only_run_flag_is_false :
  let s := World.start World.texture_only_cache in
  let after_packs :=
    fetch_packs World.offline false false World.packs World.root s in
  let textures :=
    fetch_ambientcg_textures World.offline AMBIENTCG_TEXTURES World.tex World.root
      after_packs.2 in
  let final := (main World.offline World.default_args s).2 in
  after_packs.1 = Ok [] /\
  textures.1 = Ok [World.tex ++ ["Concrete023_2K-JPG"]] /\
  Fs.is_file (fs final)
    (World.tex ++ ["Concrete023_2K-JPG"; "Concrete023_2K-JPG_Color.jpg"]) = true /\
  use_external_assets <$> read_manifest (fs final) World.manifest = Some false /\
  (assets_downloaded ∘ status) <$> read_manifest (fs final) World.manifest
    = Some false.
Proof. vm_compute. repeat split; reflexivity. Qed.

(** C9. In the manifest a run of [main] writes, every path is the text
    res:// followed by the components of a path below the project root,
    joined by slashes (a backslash in a name comes out as a slash):
    packs_dir is res://assets/external/packs and textures_dir is
    res://assets/external/textures/ambientcg; every entry of every
    variant pool stands for a file on disk inside a pack directory below
    assets/external/packs; every channel entry of every texture set
    stands for an entry on disk in a directory of
    assets/external/textures/ambientcg. The components of the project
    root itself are in none of them. *)
Theorem manifest_holds_resource_paths_only (env : Env) (args : Args)
    (s s' : State) (code : nat) :
  list_assets args = false ->
  main env args s = (Ok code, s') ->
  exists (project_root : Path) (m : Manifest),
    find_project_root (project args) s = (Ok project_root, s) /\
    read_manifest (fs s') (manifest_path_of project_root) = Some m /\
    (forall key pool x, variants m !! key = Some pool -> In x pool ->
       exists pack rel,
         rel <> [] /\ x = res_of (packs_rel ++ pack :: rel) /\
         Fs.is_file (fs s') (project_root ++ packs_rel ++ pack :: rel) = true) /\
    (forall key set ch x, textures m !! key = Some set -> set !! ch = Some x ->
       exists dir file,
         x = res_of (textures_rel ++ [dir; file]) /\
         Fs.exists_ (fs s') (project_root ++ textures_rel ++ [dir; file]) = true) /\
    packs_dir m = res_of packs_rel /\
    textures_dir m = res_of textures_rel.
Proof.
  intros Hl H.
  destruct (main_inv env args s s' code Hl H)
    as (project_root & pack_dirs & s1 & s2 & v & Hroot & Hp & _ & Hv & Hw).
  destruct (write_manifest_keeps _ _ _ _ _ _ _ _ _ Hw) as (s3' & Hmk' & Hkeep).
  apply write_manifest_inv in Hw
    as (s3 & ts & pr & tr & Hmk & Hts & Hpr & Htr & _ & Hm).
  rewrite Hmk in Hmk'. injection Hmk' as <-.
  apply update_fs_ok in Hmk as [Hmk _].
  cbn zeta in Hm. eexists project_root, _.
  split; [exact Hroot|]. unfold read_manifest. rewrite Hm.
  split; [reflexivity|]. cbn [variants textures packs_dir textures_dir].
  assert (Hother : forall rel pre, 
            pre = packs_rel \/ pre = textures_rel -> rel <> [] ->
            project_root ++ pre ++ rel <> manifest_path_of project_root).
  { intros rel pre Hpre Hrel E. unfold manifest_path_of in E.
    apply app_inv_head in E.
    destruct Hpre as [-> | ->]; destruct rel; try tauto; discriminate E. }
  split; [|split; [|split]].
  - intros key pool x Hk Hx. destruct (Nat.ltb 0 (length pack_dirs)).
    2:{ apply pools_dict_lookup in Hk.
        destruct Hk as [[_ ->]|[[_ ->]|[[_ ->]|[[_ ->]|[[_ ->]|[_ ->]]]]]];
          destruct Hx. }
    destruct (pool_entry_origin _ _ _ _ _ _ _ Hv Hk Hx) as (p & d & Hr & Hf & Hd & Hb).
    apply fetch_packs_sublist in Hp.
    apply list_elem_of_In in Hd. eapply elem_of_sublist in Hd; [|exact Hp].
    destruct (pack_dirs_of_children args (project_root ++ packs_rel))
      as (names & _ & Hn).
    unfold packs_rel in Hn at 1. rewrite Hn in Hd.
    apply list_elem_of_In, in_map_iff in Hd as (pack & <- & _).
    apply below_true in Hb as (c & rel & ->).
    exists pack, (c :: rel). split; [discriminate|].
    assert (E : ((project_root ++ packs_rel) ++ [pack]) ++ c :: rel
                = project_root ++ (packs_rel ++ pack :: c :: rel)).
    { rewrite <- !app_assoc. reflexivity. }
    rewrite E in Hr, Hf.
    rewrite rel_res_path_app in Hr by discriminate. injection Hr as <-.
    split; [reflexivity|].
    unfold Fs.is_file in *. rewrite Hkeep by (apply (Hother _ packs_rel); [auto | discriminate]).
    destruct (Fs.stat (fs s2) _) as [[|c0]|] eqn:Es; try discriminate Hf.
    rewrite (makedirs_stat _ _ _ _ _ Hmk Es). reflexivity.
  - intros key set ch x Hk Hc.
    destruct (texture_entry_origin _ _ _ _ _ _ _ _ Hts Hk Hc) as (dir & file & Hin & Hr).
    exists dir, file.
    rewrite <- app_assoc in Hr, Hin.
    rewrite rel_res_path_app in Hr by discriminate. injection Hr as <-.
    split; [reflexivity|].
    apply In_fst_exists in Hin. unfold Fs.exists_ in *.
    rewrite Hkeep by (apply (Hother _ textures_rel); [auto | discriminate]).
    exact Hin.
  - rewrite rel_res_path_app in Hpr by discriminate. injection Hpr as <-. reflexivity.
  - rewrite rel_res_path_app in Htr by discriminate. injection Htr as <-. reflexivity.
Qed.

Lemma manifest_paths_witness :
  let s := World.start World.pack_and_texture_cache in
  let r := main World.offline World.default_args s in
  (list_assets World.default_args = false /\ r.1 = Ok 0) /\
  exists (project_root : Path) (m : Manifest),
    find_project_root (project World.default_args) s = (Ok project_root, s) /\
    read_manifest (fs r.2) (manifest_path_of project_root) = Some m /\
    (forall key pool x, variants m !! key = Some pool -> In x pool ->
       exists pack rel,
         rel <> [] /\ x = res_of (packs_rel ++ pack :: rel) /\
         Fs.is_file (fs r.2) (project_root ++ packs_rel ++ pack :: rel) = true) /\
    (forall key set ch x, textures m !! key = Some set -> set !! ch = Some x ->
       exists dir file,
         x = res_of (textures_rel ++ [dir; file]) /\
         Fs.exists_ (fs r.2) (project_root ++ textures_rel ++ [dir; file]) = true) /\
    packs_dir m = res_of packs_rel /\
    textures_dir m = res_of textures_rel.
Proof.
  intros s r.
  assert (H : main World.offline World.default_args s = (Ok 0, r.2))
    by (vm_compute; reflexivity).
  split; [split; [reflexivity | vm_compute; reflexivity]|].
  exact (manifest_holds_resource_paths_only
           World.offline World.default_args s r.2 0 eq_refl H).
Defined.

(** The entries of that run. *)
Example manifest_paths_run :
  let m := read_manifest
             (fs (main World.offline World.default_args
                    (World.start World.pack_and_texture_cache)).2)
             World.manifest in
  (fun m => variants m !! "industrial_buildings") <$> m
    = Some (Some ["res://assets/external/packs/kenney_city-kit-suburban/Models/building-type-a.glb"]) /\
  (fun m => textures m !! "terrain_pavement") <$> m
    = Some (Some {[ "albedo" := "res://assets/external/textures/ambientcg/Concrete023_2K-JPG/Concrete023_2K-JPG_Color.jpg";
                    "normal" := "res://assets/external/textures/ambientcg/Concrete023_2K-JPG/Concrete023_2K-JPG_NormalGL.jpg" ]}) /\
  packs_dir <$> m = Some "res://assets/external/packs" /\
  textures_dir <$> m = Some "res://assets/external/textures/ambientcg".
Proof. vm_compute. repeat split; reflexivity. Qed.

(** C6, as the code has it. On a filesystem that lists each path once
    and whose names are plain (no backslash in particular), and for pack
    directories none of which lies at or below another: the three tree
    pools of [build_variant_pools] have pairwise distinct entries; no
    pool lists a resource path more than twice; and a pool lists a path
    twice only if it is a pool of buildings and the model the path
    stands for lies in both buckets the pool is drawn from: its path
    names the pack word of the pool (industrial for
    industrial_buildings, suburban for the two others) and names
    building and kit as well. *)
Theorem variant_pools_repeat_at_most_twice (f : Fs.t) (project_root : Path)
    (pack_dirs : list Path) (v : gmap string (list string)) :
  NoDup (map fst f) ->
  plain_paths f = true ->
  disjoint_dirs pack_dirs = true ->
  build_variant_pools f project_root pack_dirs = Ok v ->
  (forall key pool, In key tree_keys -> v !! key = Some pool -> NoDup pool) /\
  (forall key pool x, v !! key = Some pool -> occurrences x pool <= 2) /\
  (forall key pool x, v !! key = Some pool -> 2 <= occurrences x pool ->
     In key building_keys /\
     exists p, In p (model_files f pack_dirs) /\
               _rel_res_path project_root p = Ok x /\
               path_has (pack_word key) p = true /\
               path_has "building" p = true /\ path_has "kit" p = true).
Proof.
  intros Hf Hplain Hd.
  assert (Hmf : bounded 1 (model_files f pack_dirs)).
  { apply bounded_once; [apply model_files_plain, Hplain |
                         apply model_files_NoDup; assumption]. }
  destruct (classify_bounded _ Hmf) as (B1 & B2 & B3 & B4 & B5 & B6).
  unfold build_variant_pools, rbind.
  destruct (rp _ (euro_candidates _)) as [l1|] eqn:E1; [|discriminate].
  destruct (rp _ (ind_candidates _)) as [l2|] eqn:E2; [|discriminate].
  destruct (rp _ (shack_candidates _)) as [l3|] eqn:E3; [|discriminate].
  destruct (rp _ (conifer_candidates _)) as [l4|] eqn:E4; [|discriminate].
  destruct (rp _ (broadleaf_candidates _)) as [l5|] eqn:E5; [|discriminate].
  destruct (rp _ (palm_candidates _)) as [l6|] eqn:E6; [|discriminate].
  intros [= <-]. split; [|split].
  - intros key pool Hkey Hk. apply pools_dict_lookup in Hk.
    unfold tree_keys in Hkey. simpl in Hkey.
    destruct Hk as [[-> _]|[[-> _]|[[-> _]|[[_ ->]|[[_ ->]|[_ ->]]]]]].
    1-3: exfalso; destruct Hkey as [H|[H|[H|[]]]]; discriminate H.
    all: apply once_NoDup; intros x; (eapply pool_bounded; [|eassumption]; eassumption).
  - intros key pool x Hk. apply pools_dict_lookup in Hk.
    destruct Hk as [[_ ->]|[[_ ->]|[[_ ->]|[[_ ->]|[[_ ->]|[_ ->]]]]]].
    1-3: (eapply pool_bounded; [|eassumption]; eassumption).
    all: eapply Nat.le_trans; [(eapply pool_bounded; [|eassumption]; eassumption) | lia].
  - intros key pool x Hk Hx. apply pools_dict_lookup in Hk.
    assert (Hb : forall P, bounded 1 (List.filter P (model_files f pack_dirs)))
      by (intros P; apply bounded_filter, Hmf).
    destruct Hk as [[-> ->]|[[-> ->]|[[-> ->]|[[_ ->]|[[_ ->]|[_ ->]]]]]].
    1-3: (split; [unfold building_keys; simpl; tauto|];
          match goal with
          | E : rp _ ?xs = Ok ?l, H : 2 <= occurrences _ (take _ ?l) |- _ =>
              unfold classify in E;
              cbn [euro_candidates ind_candidates shack_candidates] in E;
              destruct (twice_in_both _ _ _ _ _ _ _ _ (Hb _) (Hb _) E H)
                as (p & Ha & Hbk & Hp)
          end;
          apply filter_In in Ha as [Hin Ha];
          apply filter_In in Hbk as [_ Hbk];
          apply andb_true_iff in Hbk as [Hb1 Hb2];
          exists p; repeat split; assumption).
    all: exfalso;
      match goal with
      | E : rp _ ?xs = Ok ?l, H : 2 <= occurrences ?y (take _ ?l) |- _ =>
          assert (Hle : occurrences y (take 32 l) <= 1)
            by (eapply pool_bounded; [|exact E]; assumption); lia
      end.
Qed.

Lemma variant_pools_witness :
  let f := World.two_kits_unpacked in
  let pack_dirs := [ World.packs ++ ["kenney_city-kit-suburban"];
                     World.packs ++ ["kenney_nature-kit"] ] in
  (NoDup (map fst f) /\ plain_paths f = true /\ disjoint_dirs pack_dirs = true) /\
  exists v,
    build_variant_pools f World.root pack_dirs = Ok v /\
    (forall key pool, In key tree_keys -> v !! key = Some pool -> NoDup pool) /\
    (forall key pool x, v !! key = Some pool -> occurrences x pool <= 2) /\
    (forall key pool x, v !! key = Some pool -> 2 <= occurrences x pool ->
       In key building_keys /\
       exists p, In p (model_files f pack_dirs) /\
                 _rel_res_path World.root p = Ok x /\
                 path_has (pack_word key) p = true /\
                 path_has "building" p = true /\ path_has "kit" p = true).
Proof.
  intros f pack_dirs.
  assert (H1 : NoDup (map fst f))
    by (apply (bool_decide_unpack _); vm_compute; exact I).
  assert (H2 : plain_paths f = true) by (vm_compute; reflexivity).
  assert (H3 : disjoint_dirs pack_dirs = true) by (vm_compute; reflexivity).
  split; [repeat split; assumption|].
  assert (H0 : match build_variant_pools f World.root pack_dirs
               with Ok _ => true | Raise _ => false end = true)
    by (vm_compute; reflexivity).
  remember (build_variant_pools f World.root pack_dirs) as res eqn:E.
  symmetry in E. destruct res as [v|e]; [|discriminate H0].
  exists v. split; [reflexivity|].
  exact (variant_pools_repeat_at_most_twice f World.root pack_dirs v H1 H2 H3 E).
Defined.

(** The pools of that filesystem. *)
Example variant_pools_run :
  let r := build_variant_pools World.two_kits_unpacked World.root
             [ World.packs ++ ["kenney_city-kit-suburban"];
               World.packs ++ ["kenney_nature-kit"] ] in
  pool_of r "trees_conifer"
    = Some ["res://assets/external/packs/kenney_nature-kit/tree_pine.glb"] /\
  pool_of r "trees_palm"
    = Some ["res://assets/external/packs/kenney_nature-kit/tree_palm.glb"] /\
  pool_of r "trees_broadleaf"
    = Some ["res://assets/external/packs/kenney_nature-kit/tree_oak.glb"].
Proof. vm_compute. repeat split; reflexivity. Qed.

(** C6 as stated fails. The suburban kit holds one model,
    Models/building-type-a.glb. Its path has suburban in it, and
    building and kit as well, so the model is in the suburban bucket and
    in the building-kit bucket, and the euro pool, which chains the two,
    lists its resource path twice. *)
Lemma euro_pool_lists_a_model_twice :
  let x := "res://assets/external/packs/kenney_city-kit-suburban/Models/building-type-a.glb" in
  let dir := World.packs ++ ["kenney_city-kit-suburban"] in
  model_files World.suburban_unpacked [dir]
    = [dir ++ ["Models"; "building-type-a.glb"]] /\
  pool_of (build_variant_pools World.suburban_unpacked World.root [dir])
          "euro_buildings" = Some [x; x] /\
  ~ NoDup [x; x].
Proof.
  split; [vm_compute; reflexivity|]. split; [vm_compute; reflexivity|].
  intros H. apply NoDup_cons in H as [H _]. apply H. left.
Qed.

(** C5, as the code has it. Let the textures directory lie under the
    project root and let its entries have names free of wildcard
    characters (star, question mark, opening bracket). Then
    [build_texture_sets] returns without an error. For every logical key
    the candidates are tried in order: a candidate is passed over when
    no entry of the textures directory has a name that opens with it, or
    when the first such entry holds no channel file; the first candidate
    that is not passed over wins, and the texture set of the key is what
    the first entry that opens with that candidate gives, channel by
    channel. A key all of whose candidates are passed over is absent
    from the output, and so is every key outside the table. *)
Theorem first_fruitful_candidate_wins (f : Fs.t)
    (project_root textures_dir : Path) :
  Fs.within project_root textures_dir = true ->
  plain_entries f textures_dir = true ->
  exists ts,
    build_texture_sets f project_root textures_dir = Ok ts /\
    (forall key, ~ In key (map fst candidate_names) -> ts !! key = None) /\
    (forall key names, In (key, names) candidate_names ->
       match ts !! key with
       | Some set =>
           exists before name after,
             names = before ++ name :: after /\
             Forall (passed_over f project_root textures_dir) before /\
             wins_with f project_root textures_dir name set
       | None => Forall (passed_over f project_root textures_dir) names
       end).
Proof.
  intros Hunder Hplain. unfold build_texture_sets.
  destruct (Fs.exists_ f textures_dir) eqn:Hex.
  - assert (Hnd : NoDup (map fst texture_mappings))
      by (apply (bool_decide_unpack _); vm_compute; exact I).
    destruct (texture_sets_loop_spec f project_root textures_dir Hunder Hplain
                texture_mappings ∅ Hnd eq_refl) as (ts & Hts & Hout & Hin).
    exists ts. split; [exact Hts|]. split.
    + intros key Hkey. rewrite (Hout _ Hkey). apply lookup_empty.
    + intros key names Hkn. destruct (Hin _ _ Hkn) as (r & Hr & ->).
      assert (Hfree : forallb wildcard_free names = true).
      { cbn in Hkn. repeat (destruct Hkn as [[= <- <-]|Hkn]; [reflexivity|]).
        destruct Hkn. }
      destruct (first_texture_set_spec f project_root textures_dir Hunder Hplain
                  names Hfree) as (r' & Hr' & Hspec).
      rewrite Hr in Hr'. injection Hr' as <-.
      destruct r; [exact Hspec|]. rewrite lookup_empty. exact Hspec.
  - exists ∅. split; [reflexivity|]. split; [intros; apply lookup_empty|].
    intros key names _. rewrite lookup_empty.
    apply Forall_forall. intros name _. left. unfold no_entry.
    rewrite (listing_absent _ _ Hex). constructor.
Qed.

Lemma first_fruitful_candidate_witness :
  (Fs.within World.root World.tex = true /\
   plain_entries World.empty_bricks_dir World.tex = true) /\
  exists ts,
    build_texture_sets World.empty_bricks_dir World.root World.tex = Ok ts /\
    (forall key, ~ In key (map fst candidate_names) -> ts !! key = None) /\
    (forall key names, In (key, names) candidate_names ->
       match ts !! key with
       | Some set =>
           exists before name after,
             names = before ++ name :: after /\
             Forall (passed_over World.empty_bricks_dir World.root World.tex) before /\
             wins_with World.empty_bricks_dir World.root World.tex name set
       | None => Forall (passed_over World.empty_bricks_dir World.root World.tex) names
       end).
Proof.
  assert (H1 : Fs.within World.root World.tex = true) by reflexivity.
  assert (H2 : plain_entries World.empty_bricks_dir World.tex = true)
    by (vm_compute; reflexivity).
  split; [split; assumption|].
  exact (first_fruitful_candidate_wins World.empty_bricks_dir World.root World.tex
           H1 H2).
Defined.

(** C5 as stated fails. The directory of the first candidate of
    building_atlas_euro, Bricks079, is on disk and holds no channel
    file. It does not win and does not settle the key: the builder goes
    on to the second candidate, Concrete023, and the key gets the
    texture set of that directory. *)
Lemma later_candidate_is_consulted :
  let f := World.empty_bricks_dir in
  let bricks := World.tex ++ ["Bricks079_2K-JPG"] in
  In ("building_atlas_euro", ["Bricks079"; "Concrete023"]) texture_mappings /\
  Fs.glob f World.tex "Bricks079*" = [bricks] /\
  Fs.is_dir f bricks = true /\
  texture_set_of f World.root bricks = Ok ∅ /\
  texture_of (build_texture_sets f World.root World.tex) "building_atlas_euro"
  = Some {[ "albedo" := "res://assets/external/textures/ambientcg/Concrete023_2K-JPG/Concrete023_2K-JPG_Color.jpg" ]}.
Proof. vm_compute. repeat split; try reflexivity. left. reflexivity. Qed.

(* ================================================================== *)
(** ** Further properties: the project root *)
(* ================================================================== *)

Lemma parent_fixed (p : Path) : Fs.parent p = p <-> p = [].
Proof.
  split; [|intros ->; reflexivity]. unfold Fs.parent.
  destruct p as [|c p] using rev_ind; [reflexivity|].
  rewrite removelast_last. intros H.
  apply (f_equal (@length string)) in H. rewrite length_app in H.
  simpl in H. lia.
Qed.

Lemma within_refl (p : Path) : Fs.within p p = true.
Proof. apply within_true. exists []. symmetry. apply app_nil_r. Qed.

Lemma within_parent (d p : Path) :
  Fs.within d (Fs.parent p) = true -> Fs.within d p = true.
Proof.
  rewrite !within_true. intros [rel H].
  destruct p as [|c p] using rev_ind.
  - simpl in H. exists rel. exact H.
  - rewrite parent_snoc in H. subst p. exists (rel ++ [c]).
    symmetry. apply app_assoc.
Qed.

(** A directory strictly above [p] is at or above the parent of [p]. *)
Lemma below_parent (d p : Path) :
  Fs.below d p = true -> Fs.within d (Fs.parent p) = true.
Proof.
  rewrite below_true, within_true. intros (c & rel & ->).
  destruct (exists_last (l := c :: rel)) as (rel' & c' & E); [discriminate|].
  rewrite E, app_assoc, parent_snoc. eauto.
Qed.

Lemma parent_length (p : Path) : length (Fs.parent p) = length p - 1.
Proof.
  destruct p as [|c p] using rev_ind; [reflexivity|].
  rewrite parent_snoc, length_app. simpl. lia.
Qed.

Lemma within_length (d p : Path) :
  Fs.within d p = true -> length d <= length p.
Proof. rewrite within_true. intros [rel ->]. rewrite length_app. lia. Qed.

Lemma within_same_length (d p : Path) :
  Fs.within d p = true -> length d = length p -> d = p.
Proof.
  rewrite within_true. intros [rel ->]. rewrite length_app. intros H.
  destruct rel; [symmetry; apply app_nil_r | simpl in H; lia].
Qed.

(** What the upward walk returns: a directory at or above the start,
    fewer than [n] levels up, that holds the marker, no directory in
    between holding it. *)
Lemma find_root_loop_sound (f : Fs.t) (n : nat) (cur r : Path) :
  find_root_loop f n cur = Some r ->
  Fs.within r cur = true /\
  length cur - length r < n /\
  Fs.exists_ f (r ++ ["project.godot"]) = true /\
  forall d, Fs.below r d = true -> Fs.within d cur = true ->
            Fs.exists_ f (d ++ ["project.godot"]) = false.
Proof.
  revert cur. induction n as [|n IH]; intros cur; simpl; [discriminate|].
  destruct (Fs.exists_ f (cur ++ ["project.godot"])) eqn:E.
  - intros [= <-]. repeat split; [apply within_refl | lia | exact E |].
    intros d Hb Hw. apply below_within in Hb as Hb'.
    pose proof (within_length _ _ Hw). apply below_true in Hb as (c & rel & ->).
    rewrite length_app in H. simpl in H. lia.
  - destruct (decide (Fs.parent cur = cur)); [discriminate|].
    intros H. apply IH in H as (Hw & Hlen & Hm & Hnear).
    repeat split; [apply within_parent, Hw | | exact Hm |].
    + rewrite parent_length in Hlen. lia.
    + intros d Hb Hd.
      destruct (decide (d = cur)) as [->|Hne]; [exact E|].
      apply Hnear; [exact Hb|].
      apply below_parent. apply below_true.
      apply within_true in Hd as [[|c rel] ->];
        [rewrite app_nil_r in Hne; contradiction | eauto].
Qed.

(** The walk finds the marker whenever a directory at or above the start
    and fewer than [n] levels up holds it. *)
Lemma find_root_loop_complete (f : Fs.t) (n : nat) (cur d : Path) :
  Fs.within d cur = true -> length cur - length d < n ->
  Fs.exists_ f (d ++ ["project.godot"]) = true ->
  exists r, find_root_loop f n cur = Some r.
Proof.
  revert cur. induction n as [|n IH]; intros cur Hw Hlen Hm; [lia|]. simpl.
  destruct (Fs.exists_ f (cur ++ ["project.godot"])) eqn:E; [eauto|].
  destruct (decide (d = cur)) as [->|Hne]; [congruence|].
  assert (Hb : Fs.below d cur = true).
  { apply below_true. apply within_true in Hw as [[|c rel] ->];
      [rewrite app_nil_r in Hne; contradiction | eauto]. }
  destruct (decide (Fs.parent cur = cur)) as [Hp|Hp].
  - apply parent_fixed in Hp. subst cur.
    apply below_true in Hb as (c & rel & Hb). destruct d; discriminate.
  - apply IH; [apply below_parent, Hb | | exact Hm].
    rewrite parent_length. apply within_length in Hw.
    apply below_true in Hb as (c & rel & ->). rewrite length_app in *.
    simpl in *. lia.
Qed.

(** X1. When [find_project_root] returns, it has changed nothing, and
    the directory it returns lies at or above the start directory (the
    parent of [start] when [start] is a file), at most eleven levels up;
    it holds project.godot, and no directory between it and the start
    directory does. *)
Theorem find_project_root_nearest (start root : Path) (s s' : State) :
  find_project_root start s = (Ok root, s') ->
  let base := if Fs.is_file (fs s) start then Fs.parent start else start in
  s' = s /\
  Fs.within root base = true /\
  length base - length root <= 11 /\
  Fs.exists_ (fs s) (root ++ ["project.godot"]) = true /\
  forall d, Fs.below root d = true -> Fs.within d base = true ->
            Fs.exists_ (fs s) (d ++ ["project.godot"]) = false.
Proof.
  intros H base. pose proof (find_project_root_inv _ _ _ _ H) as ->.
  unfold find_project_root in H.
  apply bind_ok_inv in H as (f & s1 & [= <- <-] & H). fold base in H.
  destruct (find_root_loop (fs s) 12 base) as [r|] eqn:E; [|discriminate].
  inversion H; subst r.
  apply find_root_loop_sound in E as (Hw & Hlen & Hm & Hnear).
  repeat split; auto. lia.
Qed.

Lemma find_project_root_nearest_witness :
  let start := World.root ++ ["assets"; "ingest"] in
  let s := World.start (World.with_ingest []) in
  find_project_root start s = (Ok World.root, s) /\
  Fs.within World.root start = true /\
  length start - length World.root <= 11 /\
  Fs.exists_ (fs s) (World.root ++ ["project.godot"]) = true.
Proof.
  intros start s.
  assert (H : find_project_root start s = (Ok World.root, s))
    by (vm_compute; reflexivity).
  split; [exact H|].
  destruct (find_project_root_nearest start World.root s s H)
    as (_ & Hw & Hlen & Hm & _).
  repeat split; assumption.
Defined.

(** X2. [find_project_root] raises FileNotFoundError, leaving the state
    as it was, exactly when no directory at or above the start directory
    and at most eleven levels up holds project.godot. *)
Theorem find_project_root_fails_iff (start : Path) (s : State) :
  let base := if Fs.is_file (fs s) start then Fs.parent start else start in
  find_project_root start s = (Raise FileNotFoundError, s) <->
  forall d, Fs.within d base = true -> length base - length d <= 11 ->
            Fs.exists_ (fs s) (d ++ ["project.godot"]) = false.
Proof.
  intros base. unfold find_project_root, bind, get_fs, ret, raise.
  cbv beta iota. fold base.
  destruct (find_root_loop (fs s) 12 base) as [r|] eqn:E.
  - split; [discriminate|]. intros Hall. exfalso.
    apply find_root_loop_sound in E as (Hw & Hlen & Hm & _).
    rewrite Hall in Hm; [discriminate | exact Hw | lia].
  - split; [|reflexivity]. intros _ d Hw Hlen.
    destruct (Fs.exists_ (fs s) (d ++ ["project.godot"])) eqn:Hm; [|reflexivity].
    destruct (find_root_loop_complete (fs s) 12 base d Hw) as [r Hr];
      [lia | exact Hm | congruence].
Qed.

(* ================================================================== *)
(** ** Further properties: what goes to the network *)
(* ================================================================== *)

Lemma silent_ret {A} (a : A) : silent (ret a).
Proof. intros s. reflexivity. Qed.

Lemma silent_raise {A} (e : exn) : silent (@raise A e).
Proof. intros s. reflexivity. Qed.

Lemma silent_lift {A} (r : result A) : silent (lift r).
Proof. intros s. reflexivity. Qed.

Lemma silent_get_fs : silent get_fs.
Proof. intros s. reflexivity. Qed.

Lemma silent_update_fs (g : Fs.t -> result Fs.t) : silent (update_fs g).
Proof. intros s. unfold update_fs. destruct (g (fs s)); reflexivity. Qed.

Lemma silent_bind {A B} (m : M A) (k : A -> M B) :
  silent m -> (forall a, silent (k a)) -> silent (bind m k).
Proof.
  intros Hm Hk s. unfold bind. specialize (Hm s).
  destruct (m s) as [[a|e] s1]; simpl in *; [|exact Hm].
  rewrite Hk. exact Hm.
Qed.


Lemma silent_extract_members (dst : Path) (ms : list (Path * node)) :
  silent (extract_members dst ms).
Proof.
  induction ms as [|m ms IH]; simpl; [apply silent_ret|].
  apply silent_bind; [apply silent_update_fs | intros _; exact IH].
Qed.

Lemma silent_extract_zip (env : Env) (zip dst : Path) :
  silent (extract_zip env zip dst).
Proof.
  unfold extract_zip.
  apply silent_bind; [apply silent_update_fs | intros _].
  apply silent_bind; [apply silent_get_fs | intros f].
  apply silent_bind; [apply silent_lift | intros c].
  destruct (zip_decode env c); [|apply silent_raise].
  apply silent_bind; [apply silent_extract_members | intros _].
  destruct (intact a); [apply silent_ret | apply silent_raise].
Qed.

Lemma silent_remove_if_exists (d : Path) : silent (remove_if_exists d).
Proof.
  unfold remove_if_exists.
  apply silent_bind; [apply silent_get_fs | intros f].
  destruct (Fs.exists_ f d); [apply silent_update_fs | apply silent_ret].
Qed.

Lemma silent_kenney_unpack (env : Env) (pack : KenneyPack) (packs_dir zip : Path) :
  silent (kenney_unpack env pack packs_dir zip).
Proof.
  unfold kenney_unpack.
  apply silent_bind; [apply silent_update_fs | intros _].
  apply silent_bind; [apply silent_remove_if_exists | intros _].
  apply silent_bind; [apply silent_extract_zip | intros _; apply silent_ret].
Qed.



Lemma silent_ensure_ingest (project_root : Path) :
  silent (ensure_ingest_dir_exists project_root).
Proof.
  unfold ensure_ingest_dir_exists.
  apply silent_bind; [apply silent_update_fs | intros _; apply silent_ret].
Qed.

(** Sequencing adds up the calls. *)
Lemma calls_bind {A B} (m : M A) (k : A -> M B) (s : State)
    (c1 c2 : list NetCall) :
  calls_of m s c1 ->
  (forall a s1, m s = (Ok a, s1) -> calls_of (k a) s1 c2) ->
  (forall e s1, m s = (Raise e, s1) -> c2 = []) ->
  calls_of (bind m k) s (c1 ++ c2).
Proof.
  unfold calls_of, bind. intros H1 H2 H3.
  destruct (m s) as [[a|e] s1] eqn:E; simpl in *.
  - rewrite (H2 a s1 eq_refl), H1. symmetry. apply app_assoc.
  - rewrite (H3 e s1 eq_refl), app_nil_r. exact H1.
Qed.

Lemma calls_silent {A} (m : M A) (s : State) : silent m -> calls_of m s [].
Proof. intros H. unfold calls_of. rewrite app_nil_r. apply H. Qed.

Section NetworkCalls.

Variable env : Env.

(** [_http_get] makes one call, whatever its outcome. *)
Lemma calls_http_get (url : string) (s : State) :
  calls_of (_http_get env url) s [HttpGet url].
Proof.
  unfold calls_of, _http_get, bind, log_net, lift. simpl. reflexivity.
Qed.

(** [_download] makes one call, or none when the directory of the
    destination cannot be made. *)
Lemma calls_download (url : string) (dst : Path) (s : State) :
  calls_of (_download env url dst) s [Download url dst] \/
  calls_of (_download env url dst) s [].
Proof.
  unfold calls_of, _download, bind, update_fs, log_net, lift.
  destruct (FsOps.makedirs (Fs.parent dst) (fs s)) as [f1|e]; simpl.
  - left. destruct (urlopen env url) as [body|e]; simpl; [|reflexivity].
    destruct (FsOps.write_file dst (Raw body) _); reflexivity.
  - right. symmetry. apply app_nil_r.
Qed.

End NetworkCalls.

Lemma ensure_ingest_inv (project_root : Path) (s s1 : State) (d : Path) :
  ensure_ingest_dir_exists project_root s = (Ok d, s1) ->
  d = get_ingest_dir project_root /\ net_log s1 = net_log s /\
  FsOps.makedirs (get_ingest_dir project_root) (fs s) = Ok (fs s1).
Proof.
  unfold ensure_ingest_dir_exists. intros H.
  apply bind_ok_inv in H as ([] & s2 & H & [= <- <-]).
  apply update_fs_ok in H as [H1 H2]. auto.
Qed.

(** X3. Whatever happens, [fetch_kenney_pack] makes at most two network
    calls: none, or the GET of the pack's page, or that GET followed by
    one download into assets/ingest/<slug>.zip. *)
Theorem fetch_kenney_pack_calls (env : Env) (pack : KenneyPack)
    (packs_dir project_root : Path) (s : State) :
  exists calls,
    net_log (fetch_kenney_pack env pack packs_dir project_root s).2
      = net_log s ++ calls /\
    (calls = [] \/
     calls = [HttpGet (page_url pack)] \/
     exists zip_url,
       calls = [ HttpGet (page_url pack);
                 Download zip_url
                   (get_ingest_dir project_root ++ [slug pack +:+ ".zip"]) ]).
Proof.
  unfold fetch_kenney_pack. unfold bind at 1.
  destruct (ensure_ingest_dir_exists project_root s) as [[d|e] s1] eqn:E.
  2:{ exists []. rewrite app_nil_r. split; [|auto]. simpl.
      pose proof (silent_ensure_ingest project_root s) as H.
      rewrite E in H. exact H. }
  apply ensure_ingest_inv in E as (-> & Hlog & _).
  unfold bind at 1. unfold get_fs at 1. cbv beta iota.
  destruct (kenney_cache_lookup (fs s1) _ pack) as [z|].
  { exists []. rewrite app_nil_r. split; [|auto].
    unfold bind, ret. rewrite silent_kenney_unpack. exact Hlog. }
  unfold bind at 1. unfold bind at 1.
  pose proof (calls_http_get env (page_url pack) s1) as Hget.
  unfold calls_of in Hget.
  destruct (_http_get env (page_url pack) s1) as [[html|e] s2]; simpl in Hget.
  2:{ exists [HttpGet (page_url pack)]. simpl. rewrite Hget, Hlog. auto. }
  destruct (_pick_best_kenney_zip_link html) as [[|c u]|].
  1,3: exists [HttpGet (page_url pack)]; simpl; rewrite Hget, Hlog; auto.
  set (zip_url := String c u).
  set (dst := get_ingest_dir project_root ++ [slug pack +:+ ".zip"]).
  unfold bind at 1.
  destruct (calls_download env zip_url dst s2) as [Hd|Hd]; unfold calls_of in Hd.
  - exists [HttpGet (page_url pack); Download zip_url dst].
    split; [|right; right; exists zip_url; reflexivity].
    destruct (_download env zip_url dst s2) as [[[]|e] s3]; simpl in Hd |- *.
    + unfold ret. rewrite silent_kenney_unpack, Hd, Hget, Hlog.
      rewrite <- !app_assoc. reflexivity.
    + rewrite Hd, Hget, Hlog. rewrite <- !app_assoc. reflexivity.
  - exists [HttpGet (page_url pack)]. split; [|auto].
    rewrite app_nil_r in Hd.
    destruct (_download env zip_url dst s2) as [[[]|e] s3]; simpl in Hd |- *.
    + unfold ret. rewrite silent_kenney_unpack, Hd, Hget, Hlog. reflexivity.
    + rewrite Hd, Hget, Hlog. reflexivity.
Qed.

(** X4. When the ingest directory holds a file the lookup of
    [fetch_kenney_pack] matches, the fetch makes no network call. *)
Theorem kenney_cache_hit_is_offline (env : Env) (pack : KenneyPack)
    (packs_dir project_root : Path) (s s1 : State) (ingest_dir zip_file : Path) :
  ensure_ingest_dir_exists project_root s = (Ok ingest_dir, s1) ->
  kenney_cache_lookup (fs s1) ingest_dir pack = Some zip_file ->
  net_log (fetch_kenney_pack env pack packs_dir project_root s).2 = net_log s /\
  fetch_kenney_pack env pack packs_dir project_root s
    = kenney_unpack env pack packs_dir zip_file s1.
Proof.
  intros E Hz.
  assert (Heq : fetch_kenney_pack env pack packs_dir project_root s
                = kenney_unpack env pack packs_dir zip_file s1).
  { unfold fetch_kenney_pack. rewrite (bind_ok _ _ _ _ _ E).
    unfold bind, get_fs, ret. cbv beta iota. rewrite Hz. reflexivity. }
  split; [|exact Heq]. rewrite Heq, silent_kenney_unpack.
  apply ensure_ingest_inv in E as (_ & Hlog & _). exact Hlog.
Qed.

Lemma kenney_cache_hit_witness :
  let s := World.start World.mixed_case_cache in
  let s1 := (ensure_ingest_dir_exists World.root s).2 in
  let z := World.ingest ++ ["Kenney_City-Kit-Suburban.zip"] in
  (ensure_ingest_dir_exists World.root s = (Ok World.ingest, s1) /\
   kenney_cache_lookup (fs s1) World.ingest World.suburban = Some z) /\
  net_log (fetch_kenney_pack World.kenney_online World.suburban World.packs
             World.root s).2 = net_log s.
Proof.
  intros s s1 z.
  assert (H1 : ensure_ingest_dir_exists World.root s = (Ok World.ingest, s1))
    by (vm_compute; reflexivity).
  assert (H2 : kenney_cache_lookup (fs s1) World.ingest World.suburban = Some z)
    by (vm_compute; reflexivity).
  split; [split; assumption|].
  exact (proj1 (kenney_cache_hit_is_offline World.kenney_online World.suburban
                  World.packs World.root s s1 World.ingest z H1 H2)).
Defined.

(* ================================================================== *)
(** ** Extraction, seen from the disk *)
(* ================================================================== *)

(** X5. When [extract_zip] returns, the file it was given is an intact
    archive, the destination is a directory, and every member of the
    archive is on disk below the destination: a directory member as a
    directory, a file member as a file holding the content the archive
    has for that path. *)
Theorem extract_zip_unpacks_every_member (env : Env) (zip dst : Path)
    (s s' : State) :
  extract_zip env zip dst s = (Ok tt, s') ->
  exists (c0 : content) (a : Archive),
    FsOps.read_file zip (fs s) = Ok c0 /\
    zip_decode env c0 = Some a /\
    intact a = true /\
    Fs.is_dir (fs s') dst = true /\
    members_on_disk dst (members a) (fs s').
Proof. apply extract_zip_ok_inv. Qed.

Lemma extract_zip_unpacks_witness :
  let s := World.start World.mixed_case_cache in
  let zip := World.ingest ++ ["Kenney_City-Kit-Suburban.zip"] in
  let dst := World.packs ++ ["kenney_city-kit-suburban"] in
  let s' := (extract_zip World.offline zip dst s).2 in
  extract_zip World.offline zip dst s = (Ok tt, s') /\
  exists (c0 : content) (a : Archive),
    FsOps.read_file zip (fs s) = Ok c0 /\
    zip_decode World.offline c0 = Some a /\
    intact a = true /\
    Fs.is_dir (fs s') dst = true /\
    members_on_disk dst (members a) (fs s').
Proof.
  intros s zip dst s'.
  assert (H : extract_zip World.offline zip dst s = (Ok tt, s'))
    by (vm_compute; reflexivity).
  split; [exact H|].
  exact (extract_zip_unpacks_every_member World.offline zip dst s s' H).
Defined.

(* ================================================================== *)
(** ** Further properties: downloads and fetched packs *)
(* ================================================================== *)

(** X6. When [_download] returns, the server has answered the request,
    the destination file holds exactly the body it served, and the
    request is the one call added to the log. *)
Theorem download_stores_the_body (env : Env) (url : string) (dst : Path)
    (s s' : State) :
  _download env url dst s = (Ok tt, s') ->
  exists body,
    urlopen env url = Ok body /\
    FsOps.read_file dst (fs s') = Ok (Raw body) /\
    Fs.is_dir (fs s') (Fs.parent dst) = true /\
    net_log s' = net_log s ++ [Download url dst].
Proof.
  unfold _download. intros H.
  apply bind_ok_inv in H as ([] & s1 & H1 & H).
  apply update_fs_ok in H1 as [Hmk Hlog1].
  apply bind_ok_inv in H as ([] & s2 & Hl & H).
  unfold log_net in Hl. inversion Hl; subst s2. clear Hl.
  apply bind_ok_inv in H as (body & s3 & Hb & H).
  apply lift_inv in Hb as [Hb ->].
  apply update_fs_ok in H as [Hw Hlog2]. simpl in Hw, Hlog2.
  exists body. split; [exact Hb|].
  pose proof (write_file_stat_same _ _ _ _ Hw) as Hs.
  split; [unfold FsOps.read_file; rewrite Hs; reflexivity|]. split.
  - apply makedirs_is_dir in Hmk. unfold Fs.is_dir in *.
    destruct (Fs.stat (fs s1) (Fs.parent dst)) as [[|?]|] eqn:E; try discriminate.
    rewrite (write_file_keeps_dirs _ _ _ _ _ Hw E). reflexivity.
  - rewrite Hlog2, Hlog1. reflexivity.
Qed.

Lemma download_stores_witness :
  let url := "https://kenney.nl/assets/building-kit" in
  let dst := World.ingest ++ ["page.html"] in
  let s := World.start World.bare in
  let s' := (_download World.kenney_online url dst s).2 in
  _download World.kenney_online url dst s = (Ok tt, s') /\
  exists body,
    urlopen World.kenney_online url = Ok body /\
    FsOps.read_file dst (fs s') = Ok (Raw body) /\
    Fs.is_dir (fs s') (Fs.parent dst) = true /\
    net_log s' = net_log s ++ [Download url dst].
Proof.
  intros url dst s s'.
  assert (H : _download World.kenney_online url dst s = (Ok tt, s'))
    by (vm_compute; reflexivity).
  split; [exact H|].
  exact (download_stores_the_body World.kenney_online url dst s s' H).
Defined.

Section FetchedPacks.

Variable env : Env.

Lemma extract_zip_is_dir (zip dst : Path) (s s' : State) :
  extract_zip env zip dst s = (Ok tt, s') -> Fs.is_dir (fs s') dst = true.
Proof.
  unfold extract_zip. intros H.
  apply bind_ok_inv in H as ([] & s1 & H1 & H).
  apply update_fs_ok in H1 as [Hmk _].
  apply bind_ok_inv in H as (f & s1' & [= <- <-] & H).
  apply bind_ok_inv in H as (c0 & s1' & Hread & H).
  apply lift_inv in Hread as [Hread ->].
  destruct (zip_decode env c0) as [a|]; [|discriminate].
  apply bind_ok_inv in H as ([] & s2 & Hms & H).
  destruct (intact a); [|discriminate]. inversion H; subst s2.
  apply makedirs_is_dir in Hmk. unfold Fs.is_dir in *.
  destruct (Fs.stat (fs s1) dst) as [[|?]|] eqn:E; try discriminate.
  rewrite (extract_members_keep_dirs _ _ _ _ _ Hms E). reflexivity.
Qed.

(** X7. A pack directory that [fetch_kenney_pack] returns is the
    directory packs/<slug>, and it is a directory on disk when the fetch
    ends; the same holds of the directory packs/polyhaven_<name> that
    [fetch_polyhaven_asset] returns. *)
Theorem fetched_pack_is_on_disk :
  (forall (pack : KenneyPack) (packs_dir project_root d : Path) (s s' : State),
      fetch_kenney_pack env pack packs_dir project_root s = (Ok d, s') ->
      d = packs_dir ++ [slug pack] /\ Fs.is_dir (fs s') d = true) /\
  (forall (asset : PolyHavenAsset) (packs_dir project_root d : Path)
          (s s' : State),
      fetch_polyhaven_asset env asset packs_dir project_root s = (Ok (Some d), s') ->
      d = packs_dir
            ++ ["polyhaven_" +:+ Py.replace ".zip" "" (ph_file_name asset)] /\
      Fs.is_dir (fs s') d = true).
Proof.
  split.
  - intros pack packs_dir project_root d s s' H.
    unfold fetch_kenney_pack in H.
    apply bind_ok_inv in H as (ingest_dir & s1 & _ & H).
    apply bind_ok_inv in H as (f & s2 & _ & H).
    apply bind_ok_inv in H as (local_zip & s3 & _ & H).
    unfold kenney_unpack in H.
    apply bind_ok_inv in H as ([] & s4 & _ & H).
    apply bind_ok_inv in H as ([] & s5 & _ & H).
    apply bind_ok_inv in H as ([] & s6 & Hx & [= <- <-]).
    split; [reflexivity | eapply extract_zip_is_dir, Hx].
  - intros asset packs_dir project_root d s s' H.
    unfold fetch_polyhaven_asset in H.
    apply bind_ok_inv in H as (f & s1 & _ & H).
    apply bind_ok_inv in H as ([local_zip|] & s2 & _ & H); [|discriminate].
    unfold polyhaven_unpack in H.
    apply bind_ok_inv in H as ([] & s3 & _ & H).
    apply bind_ok_inv in H as ([] & s4 & _ & H).
    apply bind_ok_inv in H as ([] & s5 & _ & H).
    apply try_except_inv in H as [H|[[=] _]].
    apply bind_ok_inv in H as ([] & s6 & Hx & [= <- <-]).
    split; [reflexivity | eapply extract_zip_is_dir, Hx].
Qed.

End FetchedPacks.

Lemma fetched_pack_witness :
  let s := World.start World.mixed_case_cache in
  let r := fetch_kenney_pack World.offline World.suburban World.packs World.root s in
  let d := World.packs ++ ["kenney_city-kit-suburban"] in
  r.1 = Ok d /\ Fs.is_dir (fs r.2) d = true.
Proof.
  intros s r d.
  assert (H : fetch_kenney_pack World.offline World.suburban World.packs
                World.root s = (Ok d, r.2)) by (vm_compute; reflexivity).
  split; [vm_compute; reflexivity|].
  exact (proj2 (proj1 (fetched_pack_is_on_disk World.offline)
                  World.suburban World.packs World.root d s r.2 H)).
Defined.

(* ================================================================== *)
(** ** Further properties: the calls of a whole run *)
(* ================================================================== *)





Section RunCalls.

Variable env : Env.












Lemma silent_find_project_root (start : Path) : silent (find_project_root start).
Proof.
  unfold find_project_root.
  apply silent_bind; [apply silent_get_fs | intros f].
  destruct (find_root_loop _ _ _); [apply silent_ret | apply silent_raise].
Qed.

End RunCalls.






(* ================================================================== *)
(** ** Further properties: the variant pools *)
(* ================================================================== *)





Lemma take_length_le {A} (n : nat) (l : list A) : length (take n l) <= n.
Proof. rewrite length_take. lia. Qed.

(** X10. The dictionary [build_variant_pools] returns has exactly the
    six pool keys, and each pool is cut to its length: 24 entries for
    the three building pools, 32 for the three tree pools. *)
Theorem variant_pools_are_capped (f : Fs.t) (project_root : Path)
    (pack_dirs : list Path) (v : gmap string (list string)) :
  build_variant_pools f project_root pack_dirs = Ok v ->
  (forall key, is_Some (v !! key) <-> In key pool_keys) /\
  (forall key pool, v !! key = Some pool -> length pool <= pool_cap key).
Proof.
  unfold build_variant_pools, rbind.
  destruct (rp _ (euro_candidates _)) as [l1|]; [|discriminate].
  destruct (rp _ (ind_candidates _)) as [l2|]; [|discriminate].
  destruct (rp _ (shack_candidates _)) as [l3|]; [|discriminate].
  destruct (rp _ (conifer_candidates _)) as [l4|]; [|discriminate].
  destruct (rp _ (broadleaf_candidates _)) as [l5|]; [|discriminate].
  destruct (rp _ (palm_candidates _)) as [l6|]; [|discriminate].
  intros [= <-]. split.
  - intros key. split.
    + intros [pool Hk]. apply pools_dict_lookup in Hk. unfold pool_keys. simpl.
      destruct Hk as [[-> _]|[[-> _]|[[-> _]|[[-> _]|[[-> _]|[-> _]]]]]]; tauto.
    + unfold pool_keys. simpl.
      intros [<-|[<-|[<-|[<-|[<-|[<-|[]]]]]]]; eexists; reflexivity.
  - intros key pool Hk. apply pools_dict_lookup in Hk.
    destruct Hk as [[-> ->]|[[-> ->]|[[-> ->]|[[-> ->]|[[-> ->]|[-> ->]]]]]];
      apply take_length_le.
Qed.

Lemma variant_pools_capped_witness :
  let r := build_variant_pools World.two_kits_unpacked World.root
             [ World.packs ++ ["kenney_city-kit-suburban"];
               World.packs ++ ["kenney_nature-kit"] ] in
  exists v, r = Ok v /\
    (forall key, is_Some (v !! key) <-> In key pool_keys) /\
    (forall key pool, v !! key = Some pool -> length pool <= pool_cap key).
Proof.
  intros r.
  assert (H0 : match r with Ok _ => true | Raise _ => false end = true)
    by (vm_compute; reflexivity).
  destruct r as [v|e] eqn:E; [|discriminate H0].
  exists v. split; [reflexivity|].
  exact (variant_pools_are_capped _ _ _ v E).
Defined.

(** X11. Every entry of every pool [build_variant_pools] returns is the
    resource path of a file that is on disk: a regular file strictly
    below one of the pack directories, with a suffix that reads .glb,
    .gltf, .fbx or .obj when put in lower case. *)
Theorem pool_entries_are_model_files (f : Fs.t) (project_root : Path)
    (pack_dirs : list Path) (v : gmap string (list string)) :
  build_variant_pools f project_root pack_dirs = Ok v ->
  forall key pool x, v !! key = Some pool -> In x pool ->
    exists p d,
      _rel_res_path project_root p = Ok x /\
      Fs.is_file f p = true /\
      In (Py.lower (Fs.suffix p)) model_exts /\
      In d pack_dirs /\ Fs.below d p = true.
Proof.
  unfold build_variant_pools, rbind.
  destruct (rp _ (euro_candidates _)) as [l1|] eqn:E1; [|discriminate].
  destruct (rp _ (ind_candidates _)) as [l2|] eqn:E2; [|discriminate].
  destruct (rp _ (shack_candidates _)) as [l3|] eqn:E3; [|discriminate].
  destruct (rp _ (conifer_candidates _)) as [l4|] eqn:E4; [|discriminate].
  destruct (rp _ (broadleaf_candidates _)) as [l5|] eqn:E5; [|discriminate].
  destruct (rp _ (palm_candidates _)) as [l6|] eqn:E6; [|discriminate].
  intros [= <-] key pool x Hk Hx.
  assert (Hp : exists p, In p (model_files f pack_dirs) /\
                         _rel_res_path project_root p = Ok x).
  { apply pools_dict_lookup in Hk.
    destruct Hk as [[_ ->]|[[_ ->]|[[_ ->]|[[_ ->]|[[_ ->]|[_ ->]]]]]];
      apply In_take in Hx;
      match goal with
      | E : rp _ ?xs = Ok ?l, H : In x ?l |- _ =>
          apply rp_inv in E;
          destruct (Forall2_In_r _ _ _ _ E H) as (p & Hin & Hr);
          exists p; split; [apply classify_In; tauto | exact Hr]
      end. }
  destruct Hp as (p & Hin & Hr).
  apply model_files_spec in Hin as (H1 & H2 & d & Hd & H3).
  exists p, d. auto.
Qed.

Lemma pool_entries_witness :
  let f := World.two_kits_unpacked in
  let dirs := [ World.packs ++ ["kenney_city-kit-suburban"];
                World.packs ++ ["kenney_nature-kit"] ] in
  exists v, build_variant_pools f World.root dirs = Ok v /\
    forall key pool x, v !! key = Some pool -> In x pool ->
      exists p d,
        _rel_res_path World.root p = Ok x /\
        Fs.is_file f p = true /\
        In (Py.lower (Fs.suffix p)) model_exts /\
        In d dirs /\ Fs.below d p = true.
Proof.
  intros f dirs.
  assert (H0 : match build_variant_pools f World.root dirs
               with Ok _ => true | Raise _ => false end = true)
    by (vm_compute; reflexivity).
  remember (build_variant_pools f World.root dirs) as res eqn:E.
  symmetry in E. destruct res as [v|e]; [|discriminate H0].
  exists v. split; [reflexivity|].
  exact (pool_entries_are_model_files f World.root dirs v E).
Defined.

(* ================================================================== *)
(** ** The directories of a run *)
(* ================================================================== *)

(** X12. The directories the pack phase of a run hands on follow the
    catalogue: they are a selection of the directories the catalogue of
    the run stands for, in its order, so none is listed twice and none
    lies at or below another one. *)
Theorem pack_dirs_follow_the_catalogue (env : Env) (args : Args)
    (packs_dir project_root : Path) (l : list Path) (s s' : State) :
  fetch_packs env (all args || ww2_assets args) (all args || polyhaven args)
    packs_dir project_root s = (Ok l, s') ->
  l `sublist_of` pack_dirs_of args packs_dir /\
  NoDup l /\
  disjoint_dirs l = true.
Proof.
  intros H. apply fetch_packs_sublist in H.
  destruct (pack_dirs_of_children args packs_dir) as (names & Hn & Hp).
  split; [exact H|]. split.
  - eapply sublist_NoDup; [|exact H]. rewrite Hp.
    apply NoDup_ListNoDup. apply List.NoDup_map_NoDup_ForallPairs; [|exact Hn].
    intros a b _ _ E. apply app_inv_head in E. injection E as ->. reflexivity.
  - eapply disjoint_sublist; [exact H|]. rewrite Hp.
    apply disjoint_children. exact Hn.
Qed.

Lemma pack_dirs_catalogue_witness :
  let s := World.start World.pack_and_texture_cache in
  let r := fetch_packs World.offline
             (all World.default_args || ww2_assets World.default_args)
             (all World.default_args || polyhaven World.default_args)
             World.packs World.root s in
  exists l, r.1 = Ok l /\ l <> [] /\
    l `sublist_of` pack_dirs_of World.default_args World.packs /\
    NoDup l /\ disjoint_dirs l = true.
Proof.
  intros s r.
  destruct r as [[l|e] s'] eqn:E; [|vm_compute in E; discriminate E].
  exists l. split; [reflexivity|].
  split; [intros ->; vm_compute in E; discriminate E|].
  exact (pack_dirs_follow_the_catalogue World.offline World.default_args
           World.packs World.root l s s' E).
Defined.

(* ================================================================== *)
(** ** How a run can end *)
(* ================================================================== *)

Lemma bind_raise {A B} (m : M A) (k : A -> M B) (s s1 : State) (e : exn) :
  m s = (Raise e, s1) -> bind m k s = (Raise e, s1).
Proof. unfold bind. intros ->. reflexivity. Qed.

Lemma mkdir_chain_raise (todo : list string) (f : Fs.t) (base : Path) (e : exn) :
  FsOps.mkdir_chain f base todo = Raise e -> e = OSError.
Proof.
  revert f base. induction todo as [|c todo IH]; intros f base; simpl; [discriminate|].
  destruct (Fs.stat f (base ++ [c])) as [[|?]|]; eauto. intros [= <-]. reflexivity.
Qed.

Lemma rp_total (project_root : Path) (xs : list Path) :
  Forall (fun p => Fs.within project_root p = true) xs ->
  exists ss, rp project_root xs = Ok ss.
Proof.
  induction 1 as [|p xs Hp _ [ss IH]]; simpl; [eauto|].
  destruct (rel_res_path_total _ _ Hp) as [x ->]. simpl. rewrite IH. simpl. eauto.
Qed.

Lemma build_variant_pools_total (f : Fs.t) (project_root : Path)
    (pack_dirs : list Path) :
  Forall (fun d => Fs.within project_root d = true) pack_dirs ->
  exists v, build_variant_pools f project_root pack_dirs = Ok v.
Proof.
  intros Hd.
  assert (Hmf : forall p, In p (model_files f pack_dirs) ->
                          Fs.within project_root p = true).
  { intros p Hp. apply model_files_In in Hp as (_ & d & Hin & Hb).
    rewrite Forall_forall in Hd. specialize (Hd d (proj2 (list_elem_of_In _ _) Hin)).
    apply within_true in Hd as [r1 ->]. apply below_within, within_true in Hb as [r2 ->].
    apply within_true. exists (r1 ++ r2). symmetry. apply app_assoc. }
  assert (Hc : forall xs,
             (forall p, In p xs -> In p (model_files f pack_dirs)) ->
             exists ss, rp project_root xs = Ok ss).
  { intros xs Hxs. apply rp_total. apply Forall_forall. intros p Hp.
    apply Hmf, Hxs, list_elem_of_In, Hp. }
  unfold build_variant_pools, rbind.
  destruct (Hc (euro_candidates (classify (model_files f pack_dirs)))) as [l1 ->];
    [intros p Hp; apply classify_In; tauto|].
  destruct (Hc (ind_candidates (classify (model_files f pack_dirs)))) as [l2 ->];
    [intros p Hp; apply classify_In; tauto|].
  destruct (Hc (shack_candidates (classify (model_files f pack_dirs)))) as [l3 ->];
    [intros p Hp; apply classify_In; tauto|].
  destruct (Hc (conifer_candidates (classify (model_files f pack_dirs)))) as [l4 ->];
    [intros p Hp; apply classify_In; tauto|].
  destruct (Hc (broadleaf_candidates (classify (model_files f pack_dirs)))) as [l5 ->];
    [intros p Hp; apply classify_In; tauto|].
  destruct (Hc (palm_candidates (classify (model_files f pack_dirs)))) as [l6 ->];
    [intros p Hp; apply classify_In; tauto|].
  eauto.
Qed.

Lemma glob_checked_raise (f : Fs.t) (d : Path) (pat : string) (e : exn) :
  glob_checked f d pat = Raise e -> e = ValueError.
Proof.
  unfold glob_checked. destruct (Py.contains "**" pat); [|discriminate].
  intros [= <-]. reflexivity.
Qed.

Lemma glob_checked_In (f : Fs.t) (d : Path) (pat : string) (l : list Path) (p : Path) :
  glob_checked f d pat = Ok l -> In p l -> exists n, p = d ++ [n].
Proof.
  unfold glob_checked. destruct (Py.contains "**" pat); [discriminate|].
  intros [= <-]. apply glob_In.
Qed.

Section TextureFailures.

Variables (f : Fs.t) (project_root : Path).

Lemma add_channel_raise (tex_dir : Path) (base_name : string)
    (set : gmap string string) (ch : string * string) (e : exn) :
  Fs.within project_root tex_dir = true ->
  add_channel f project_root tex_dir base_name set ch = Raise e -> e = ValueError.
Proof.
  intros Hu. unfold add_channel, rbind.
  destruct (glob_checked f tex_dir _) as [[|file files]|e0] eqn:G.
  - discriminate.
  - destruct (glob_checked_In _ _ _ _ file G (or_introl eq_refl)) as [n ->].
    destruct (rel_res_path_total _ _ (within_child _ _ n Hu)) as [x ->]. discriminate.
  - intros [= <-]. eapply glob_checked_raise, G.
Qed.

Lemma add_channels_raise (tex_dir : Path) (base_name : string)
    (chs : list (string * string)) (set : gmap string string) (e : exn) :
  Fs.within project_root tex_dir = true ->
  add_channels f project_root tex_dir base_name set chs = Raise e -> e = ValueError.
Proof.
  intros Hu. revert set. induction chs as [|ch chs IH]; intros set; simpl; [discriminate|].
  unfold rbind.
  destruct (add_channel f project_root tex_dir base_name set ch) as [set'|e0] eqn:A.
  - apply IH.
  - intros [= <-]. eapply add_channel_raise, A. exact Hu.
Qed.

Lemma first_texture_set_raise (textures_dir : Path) (names : list string) (e : exn) :
  Fs.within project_root textures_dir = true ->
  first_texture_set f project_root textures_dir names = Raise e -> e = ValueError.
Proof.
  intros Hu. induction names as [|name names IH]; simpl; [discriminate|].
  unfold rbind.
  destruct (glob_checked f textures_dir _) as [[|tex_dir dirs]|e0] eqn:G.
  - exact IH.
  - destruct (glob_checked_In _ _ _ _ tex_dir G (or_introl eq_refl)) as [n ->].
    destruct (texture_set_of f project_root (textures_dir ++ [n])) as [set|e0] eqn:T.
    + destruct (decide (set = ∅)); [exact IH | discriminate].
    + intros [= <-]. unfold texture_set_of in T.
      eapply add_channels_raise, T. apply within_child, Hu.
  - intros [= <-]. eapply glob_checked_raise, G.
Qed.

Lemma texture_sets_loop_raise (textures_dir : Path)
    (mappings : list (string * list string))
    (acc : gmap string (gmap string string)) (e : exn) :
  Fs.within project_root textures_dir = true ->
  texture_sets_loop f project_root textures_dir mappings acc = Raise e ->
  e = ValueError.
Proof.
  intros Hu. revert acc.
  induction mappings as [|[key names] mappings IH]; intros acc; simpl; [discriminate|].
  unfold rbind.
  destruct (first_texture_set f project_root textures_dir names) as [r|e0] eqn:F.
  - apply IH.
  - intros [= <-]. eapply first_texture_set_raise, F. exact Hu.
Qed.

Lemma build_texture_sets_raise (textures_dir : Path) (e : exn) :
  Fs.within project_root textures_dir = true ->
  build_texture_sets f project_root textures_dir = Raise e -> e = ValueError.
Proof.
  intros Hu. unfold build_texture_sets.
  destruct (Fs.exists_ f textures_dir); [|discriminate].
  apply texture_sets_loop_raise, Hu.
Qed.

End TextureFailures.

Section Ends.

Variable env : Env.

(** The manifest writer fails on the filesystem, or on a pattern that
    pathlib refuses. *)
Lemma write_manifest_raise (project_root packs_dir textures_dir : Path)
    (variants : gmap string (list string)) (pack_dirs : list Path)
    (s s' : State) (e : exn) :
  Fs.within project_root packs_dir = true ->
  Fs.within project_root textures_dir = true ->
  write_manifest env project_root packs_dir textures_dir variants pack_dirs s
    = (Raise e, s') ->
  e = OSError \/ e = ValueError.
Proof.
  intros Hp Ht. unfold write_manifest. intros H.
  apply bind_inv in H as [([] & s1 & Hm & H)|(e' & Hm & [= ->])].
  2:{ left. unfold update_fs in Hm.
      destruct (FsOps.makedirs _ (fs s)) as [?|e0] eqn:E; [discriminate Hm|].
      injection Hm as -> _. eapply mkdir_chain_raise, E. }
  apply update_fs_ok in Hm as [Hm _]. apply makedirs_is_dir in Hm.
  apply bind_inv in H as [(f & s2 & [= <- <-] & H)|(e' & [=] & _)].
  destruct (build_texture_sets (fs s1) project_root textures_dir) as [ts|e0] eqn:Hts.
  2:{ right. apply bind_inv in H as [(? & s2 & [=] & _)|(e' & [= <- <-] & [= ->])].
      eapply build_texture_sets_raise, Hts. exact Ht. }
  destruct (rel_res_path_total _ _ Hp) as [pr Hpr].
  destruct (rel_res_path_total _ _ Ht) as [tr Htr].
  rewrite Hpr, Htr in H.
  apply bind_inv in H as [(? & s2 & [= <- <-] & H)|(e' & [=] & _)].
  apply bind_inv in H as [(? & s2 & [= <- <-] & H)|(e' & [=] & _)].
  apply bind_inv in H as [(? & s2 & [= <- <-] & H)|(e' & [=] & _)].
  apply bind_inv in H as [([] & s2 & _ & [=])|(e' & Hw & [= ->])].
  left. unfold update_fs, FsOps.write_file in Hw. rewrite Hm in Hw.
  destruct (Fs.stat (fs s1) (manifest_path_of project_root)) as [[|?]|];
    [|discriminate Hw..].
  injection Hw as <- _. reflexivity.
Qed.

Lemma find_project_root_raise (start : Path) (s s' : State) (e : exn) :
  find_project_root start s = (Raise e, s') -> e = FileNotFoundError /\ s' = s.
Proof.
  unfold find_project_root, bind, get_fs.
  destruct (find_root_loop _ _ _); intros [= <- <-]; auto.
Qed.

End Ends.

(** X13. Whatever the servers answer and whatever the cache holds, a run
    ends in one of four ways: with exit code 0; with FileNotFoundError
    and nothing touched, when no project root is found; with an OS error
    of the manifest writer; or with the ValueError that pathlib raises
    for a texture pattern holding a double star, which the name of a
    texture directory ending in a star brings about. No failed download,
    damaged archive or missing link ends a run. *)
Theorem run_ends_in_four_ways (env : Env) (args : Args) (s : State) :
  (exists s', main env args s = (Ok 0, s')) \/
  main env args s = (Raise FileNotFoundError, s) \/
  (exists s', main env args s = (Raise OSError, s') /\ list_assets args = false) \/
  (exists s', main env args s = (Raise ValueError, s') /\ list_assets args = false).
Proof.
  unfold main.
  destruct (find_project_root (project args) s) as [[root|e] s0] eqn:Hr.
  2:{ right. left. rewrite (bind_raise _ _ _ _ _ Hr).
      apply find_project_root_raise in Hr as [-> ->]. reflexivity. }
  pose proof (find_project_root_inv _ _ _ _ Hr) as ->.
  rewrite (bind_ok _ _ _ _ _ Hr).
  destruct (list_assets args); [left; eexists; reflexivity|].
  set (packs_dir := root ++ ["assets"; "external"; "packs"]).
  set (textures_dir := root ++ ["assets"; "external"; "textures"; "ambientcg"]).
  destruct (fetch_packs_total env (all args || ww2_assets args)
              (all args || polyhaven args) packs_dir root s) as (l & s1 & Hp).
  rewrite (bind_ok _ _ _ _ _ Hp).
  destruct (fetch_textures_total env (no_textures args)
              (all args || ww2_textures args) (all args || polyhaven args)
              textures_dir root s1) as (s2 & Ht).
  rewrite (bind_ok _ _ _ _ _ Ht).
  rewrite (bind_ok get_fs _ s2 s2 (fs s2) eq_refl).
  assert (Hl : Forall (fun d => Fs.within root d = true) l).
  { apply fetch_packs_sublist in Hp. apply Forall_forall. intros d Hd.
    eapply elem_of_sublist in Hd; [|exact Hp].
    destruct (pack_dirs_of_children args packs_dir) as (names & _ & Hn).
    rewrite Hn in Hd. apply list_elem_of_In, in_map_iff in Hd as (n & <- & _).
    apply within_true. eexists. unfold packs_dir. rewrite <- app_assoc. reflexivity. }
  destruct (build_variant_pools_total (fs s2) root l Hl) as [v Hv].
  rewrite (bind_ok (lift _) _ s2 s2 v (f_equal (fun r => (r, s2)) Hv)).
  destruct (write_manifest env root packs_dir textures_dir v l s2)
    as [[p|e] s3] eqn:Hw.
  - rewrite (bind_ok _ _ _ _ _ Hw). left. eexists. reflexivity.
  - rewrite (bind_raise _ _ _ _ _ Hw). right. right.
    apply write_manifest_raise in Hw as [-> | ->];
      [left; exists s3; auto | right; exists s3; auto | |];
      apply within_true; eexists; reflexivity.
Qed.

(* ================================================================== *)
(** ** The link parsers *)
(* ================================================================== *)

Lemma take_drop_str (n : nat) (s : string) :
  s = Py.take_str n s +:+ Py.drop_str n s.
Proof.
  revert s. induction n as [|n IH]; intros [|c s]; simpl; try reflexivity.
  rewrite append_cons. f_equal. apply IH.
Qed.

Lemma prefix_take (p : string) (n : nat) (s : string) :
  String.prefix p s = true -> String.length p <= n ->
  String.prefix p (Py.take_str n s) = true.
Proof.
  revert n s. induction p as [|a p IH]; intros n s; simpl.
  - intros _ _. apply prefix_nil.
  - destruct s as [|b s]; [discriminate|].
    destruct n as [|n]; [lia|]. simpl.
    destruct (ascii_dec a b); [|discriminate]. intros H Hn. apply IH; [exact H | lia].
Qed.

Lemma match_here_lit (text : string) (r : Re.regex) (s : string) (n : nat) :
  Re.match_here (Re.Lit text :: r) s = Some n ->
  String.prefix text s = true /\ String.length text <= n.
Proof.
  simpl. destruct (String.prefix text s); [|discriminate].
  destruct (Re.match_here r _) as [k|]; simpl; [|discriminate].
  intros [= <-]. split; [reflexivity | lia].
Qed.

(** Every match [findall] lists is the text the expression matches at
    some position of the string. *)
Lemma findall_from_In (r : Re.regex) (s : string) (skip : nat) (m : string) :
  In m (Re.findall_from r skip s) ->
  exists x t n, s = x +:+ t /\ Re.match_here r t = Some n /\ m = Py.take_str n t.
Proof.
  revert skip. induction s as [|c s IH]; intros skip; simpl.
  - destruct skip; [|intros []].
    destruct (Re.match_here r "") as [n|] eqn:E; [|intros []].
    intros [<-|[]]. exists "", "", n. destruct n; auto.
  - assert (Hs : forall k, In m (Re.findall_from r k s) ->
              exists x t n, String c s = x +:+ t /\ Re.match_here r t = Some n /\
                            m = Py.take_str n t).
    { intros k Hk. apply IH in Hk as (x & t & n & -> & Hm & ->).
      exists (String c x), t, n. auto. }
    destruct skip as [|k]; [|apply Hs].
    destruct (Re.match_here r (String c s)) as [n|] eqn:E; [|apply Hs].
    intros [<-|H]; [|eapply Hs, H].
    exists "", (String c s), n. auto.
Qed.

Lemma findall_In_page (r : Re.regex) (html m : string) :
  In m (Re.findall r html) -> Py.contains m html = true.
Proof.
  intros H. apply findall_from_In in H as (x & t & n & -> & _ & ->).
  apply contains_split. exists x, (Py.drop_str n t). f_equal. apply take_drop_str.
Qed.

Lemma findall_In_prefix (text : string) (r : Re.regex) (html m : string) :
  In m (Re.findall (Re.Lit text :: r) html) -> String.prefix text m = true.
Proof.
  intros H. apply findall_from_In in H as (x & t & n & _ & Hm & ->).
  apply match_here_lit in Hm as [Hp Hn]. apply prefix_take; assumption.
Qed.

Lemma find_rev_last {A} (P : A -> bool) (l : list A) :
  match List.find P (rev l) with
  | Some x => exists before after,
      l = before ++ x :: after /\ P x = true /\ Forall (fun y => P y = false) after
  | None => Forall (fun y => P y = false) l
  end.
Proof.
  induction l as [|a l IH] using rev_ind; simpl; [constructor|].
  rewrite rev_app_distr. simpl. destruct (P a) eqn:Pa.
  - exists l, []. auto.
  - destruct (List.find P (rev l)) as [x|].
    + destruct IH as (before & after & -> & Hx & Ha).
      exists before, (after ++ [a]). rewrite <- app_assoc. simpl.
      repeat split; auto. apply Forall_app. split; auto.
    + apply Forall_app. split; auto.
Qed.

Lemma last_is_last {A} (l : list A) :
  match last l with
  | Some x => exists before, l = before ++ [x]
  | None => l = []
  end.
Proof.
  induction l as [|a l IH] using rev_ind; simpl; [reflexivity|].
  rewrite last_snoc. eauto.
Qed.

(** X14. [_pick_best_kenney_zip_link] returns nothing exactly when the
    expression has no match in the page. Otherwise it returns the last
    match that is a canonical link, and the last match of all when no
    match is canonical. What it returns is text of the page and opens
    with https://kenney. *)
Theorem picked_link_is_the_last_canonical_match (html : string) :
  let zips := Re.findall kenney_zip_re html in
  match _pick_best_kenney_zip_link html with
  | None => zips = []
  | Some u =>
      (exists before after,
         zips = before ++ u :: after /\
         Forall (fun c => canonical_link c = false) after /\
         (canonical_link u = true \/
          (after = [] /\ Forall (fun c => canonical_link c = false) before))) /\
      Py.contains u html = true /\
      Py.startswith u "https://kenney" = true
  end.
Proof.
  intros zips. unfold _pick_best_kenney_zip_link. fold zips.
  assert (Hin : forall u, In u zips ->
            Py.contains u html = true /\ Py.startswith u "https://kenney" = true).
  { intros u Hu. split; [eapply findall_In_page, Hu|].
    eapply findall_In_prefix, Hu. }
  destruct zips as [|z zs] eqn:Ez; [reflexivity|]. rewrite <- Ez in *.
  pose proof (find_rev_last canonical_link zips) as Hf.
  fold canonical_link.
  change (fun cand => (Py.contains "/media/pages/assets/" cand
                       && Py.contains "kenney_" cand)%bool) with canonical_link.
  destruct (List.find canonical_link (rev zips)) as [u|].
  - destruct Hf as (before & after & E & Hu & Ha). split.
    + exists before, after. auto.
    + apply Hin. rewrite E. apply in_elt.
  - pose proof (last_is_last zips) as Hl.
    destruct (last zips) as [u|]; [|rewrite Hl in Ez; discriminate Ez].
    destruct Hl as [before E]. split.
    + exists before, []. split; [exact E|]. split; [constructor|]. right.
      split; [reflexivity|]. rewrite E in Hf. apply Forall_app in Hf. tauto.
    + apply Hin. rewrite E. apply in_elt.
Qed.

Lemma first_pattern_hit_In (patterns : list Re.regex) (html m : string) :
  first_pattern_hit patterns html = Some m ->
  exists pattern, In pattern patterns /\ In m (Re.findall pattern html) /\
    (Py.endswith m ".zip" || Py.contains "download" (Py.lower m)
     || Py.contains "polyhaven.com/a/" m)%bool = true.
Proof.
  induction patterns as [|p ps IH]; simpl; [discriminate|].
  destruct (List.find _ (Re.findall p html)) as [x|] eqn:E.
  - intros [= ->]. apply find_some in E as [H1 H2]. exists p. auto.
  - intros H. apply IH in H as (q & Hq & H). exists q. auto.
Qed.

Lemma polyhaven_patterns_open (pattern : Re.regex) :
  In pattern (polyhaven_any_link :: polyhaven_patterns) ->
  exists text r, pattern = Re.Lit text :: r /\ String.prefix "https://" text = true.
Proof.
  simpl. intros H.
  repeat (destruct H as [<-|H]; [eexists _, _; split; reflexivity|]).
  destruct H.
Qed.

Lemma prefix_chain (a b c : string) :
  String.prefix a b = true -> String.prefix b c = true -> String.prefix a c = true.
Proof.
  rewrite !prefix_split. intros [y ->] [z ->]. exists (y +:+ z).
  induction a as [|x a IH]; [reflexivity|]. rewrite !append_cons. f_equal. exact IH.
Qed.

(** X15. A URL [_parse_polyhaven_download_url] returns is text of the
    page, opens with https:// (so it is never empty) and has passed one
    of the tests of the two passes. *)
Theorem polyhaven_url_comes_from_the_page (html u : string) :
  _parse_polyhaven_download_url html = Some u ->
  Py.startswith u "https://" = true /\
  Py.contains u html = true /\
  link_looks_like_download u = true.
Proof.
  unfold _parse_polyhaven_download_url. intros H.
  assert (Hu : exists pattern,
             In pattern (polyhaven_any_link :: polyhaven_patterns) /\
             In u (Re.findall pattern html) /\ link_looks_like_download u = true).
  { destruct (first_pattern_hit polyhaven_patterns html) as [m|] eqn:E.
    - injection H as ->. apply first_pattern_hit_In in E as (p & Hp & Hin & Hc).
      exists p. split; [right; exact Hp|]. split; [exact Hin|].
      unfold link_looks_like_download. rewrite Hc. reflexivity.
    - apply find_some in H as [Hin Hc]. exists polyhaven_any_link.
      split; [left; reflexivity|]. split; [exact Hin|].
      unfold link_looks_like_download.
      apply orb_true_iff in Hc as [Hc|Hc]; [apply orb_true_iff in Hc as [Hc|Hc]|];
        rewrite Hc; rewrite ?orb_true_r; reflexivity. }
  destruct Hu as (p & Hp & Hin & Hc).
  apply polyhaven_patterns_open in Hp as (text & r & -> & Ht).
  split; [|split; [eapply findall_In_page, Hin | exact Hc]].
  unfold Py.startswith. eapply prefix_chain; [exact Ht|].
  eapply findall_In_prefix, Hin.
Qed.

Lemma polyhaven_url_witness :
  let html := "<a href='https://cdn.polyhaven.com/asset_downloads/hangar_01.zip'>get</a>" in
  let u := "https://cdn.polyhaven.com/asset_downloads/hangar_01.zip" in
  _parse_polyhaven_download_url html = Some u /\
  Py.startswith u "https://" = true /\
  Py.contains u html = true /\
  link_looks_like_download u = true.
Proof.
  intros html u.
  assert (H : _parse_polyhaven_download_url html = Some u) by (vm_compute; reflexivity).
  split; [exact H|].
  exact (polyhaven_url_comes_from_the_page html u H).
Defined.

(* ================================================================== *)
(** ** Resource paths and the cache lookups *)
(* ================================================================== *)



Lemma find_weaken {A} (P Q : A -> bool) (l : list A) (x : A) :
  (forall y, P y = true -> Q y = true) ->
  List.find P l = Some x -> exists x', List.find Q l = Some x' /\ In x' l.
Proof.
  intros HPQ. induction l as [|a l IH]; simpl; [discriminate|].
  destruct (Q a) eqn:Qa; [eauto|].
  destruct (P a) eqn:Pa; [rewrite (HPQ _ Pa) in Qa; discriminate Qa|].
  intros H. apply IH in H as (x' & H & Hin). eauto.
Qed.

(** X17. [find_local_zip] is at least as permissive as the cache lookup
    of [fetch_kenney_pack]: given the same ingest directory, whenever the
    lookup finds an archive for a pack, [find_local_zip] finds one of the
    archives of that directory for its slug. *)
Theorem find_local_zip_accepts_kenney_hits (f : Fs.t) (d : Path)
    (pack : KenneyPack) (z : Path) :
  kenney_cache_lookup f (get_ingest_dir d) pack = Some z ->
  exists z', find_local_zip f d (slug pack) = Some z' /\
             In z' (Fs.glob f (get_ingest_dir d) "*.zip").
Proof.
  unfold kenney_cache_lookup, find_local_zip. intros H.
  assert (He : Fs.exists_ f (get_ingest_dir d) = true).
  { apply find_some in H as [Hin _]. unfold Fs.glob in Hin.
    unfold Fs.exists_, Fs.is_dir in *.
    destruct (Fs.stat f (get_ingest_dir d)) as [[|?]|]; [reflexivity|destruct Hin..]. }
  rewrite He. eapply find_weaken; [|exact H].
  intros y Hy. cbv beta zeta. apply orb_true_iff. left.
  apply kenney_match_is_normalized_match. exact Hy.
Qed.

Lemma find_local_zip_witness :
  let z := World.ingest ++ ["Kenney_City-Kit-Suburban.zip"] in
  kenney_cache_lookup World.mixed_case_cache (get_ingest_dir World.root)
    World.suburban = Some z /\
  exists z', find_local_zip World.mixed_case_cache World.root
               (slug World.suburban) = Some z' /\
             In z' (Fs.glob World.mixed_case_cache (get_ingest_dir World.root) "*.zip").
Proof.
  intros z.
  assert (H : kenney_cache_lookup World.mixed_case_cache (get_ingest_dir World.root)
                World.suburban = Some z) by (vm_compute; reflexivity).
  split; [exact H|].
  exact (find_local_zip_accepts_kenney_hits World.mixed_case_cache World.root
           World.suburban z H).
Defined.

(* ================================================================== *)
(** ** What the manifest writer leaves alone *)
(* ================================================================== *)

(** X18. A call of [write_manifest] that returns has made no network
    call and has touched the manifest only: the manifest is a file at
    assets/external/manifest.json, every other path holds what it held
    before, and no other file has appeared. *)
Theorem write_manifest_touches_only_the_manifest (env : Env)
    (project_root packs_dir textures_dir : Path)
    (variants : gmap string (list string)) (pack_dirs : list Path)
    (s s' : State) (p : Path) :
  write_manifest env project_root packs_dir textures_dir variants pack_dirs s
    = (Ok p, s') ->
  p = manifest_path_of project_root /\
  net_log s' = net_log s /\
  Fs.is_file (fs s') p = true /\
  (forall q n, q <> p -> Fs.stat (fs s) q = Some n -> Fs.stat (fs s') q = Some n) /\
  (forall q c, q <> p -> In (q, File c) (fs s') -> In (q, File c) (fs s)).
Proof.
  unfold write_manifest. intros H.
  apply bind_ok_inv in H as ([] & s1 & H1 & H).
  apply bind_ok_inv in H as (f & s1' & [= <- <-] & H).
  apply bind_ok_inv in H as (ts & s1' & Hts & H).
  apply lift_inv in Hts as [_ ->].
  apply bind_ok_inv in H as (pr & s1' & Hpr & H).
  apply lift_inv in Hpr as [_ ->].
  apply bind_ok_inv in H as (tr & s1' & Htr & H).
  apply lift_inv in Htr as [_ ->].
  apply bind_ok_inv in H as ([] & s2 & Hw & [= <- <-]).
  apply update_fs_ok in H1 as [H1 L1]. apply update_fs_ok in Hw as [Hw L2].
  split; [reflexivity|]. split; [congruence|]. split; [|split].
  - unfold Fs.is_file. rewrite (write_file_stat_same _ _ _ _ Hw). reflexivity.
  - intros q n Hq Hn. rewrite (write_file_stat_other _ _ _ _ _ Hw Hq).
    eapply makedirs_stat; eassumption.
  - intros q c Hq Hin.
    destruct (write_file_In _ _ _ _ _ _ Hw Hin) as [Hin'|[-> _]]; [|tauto].
    eapply makedirs_files; eassumption.
Qed.

Lemma write_manifest_frame_witness :
  let s := World.start World.texture_only_cache in
  exists s',
    write_manifest World.offline World.root World.packs World.tex ∅ [] s
      = (Ok World.manifest, s') /\
    net_log s' = net_log s /\
    Fs.is_file (fs s') World.manifest = true /\
    (forall q n, q <> World.manifest -> Fs.stat (fs s) q = Some n ->
                 Fs.stat (fs s') q = Some n) /\
    (forall q c, q <> World.manifest -> In (q, File c) (fs s') ->
                 In (q, File c) (fs s)).
Proof.
  intros s.
  destruct (write_manifest World.offline World.root World.packs World.tex ∅ [] s)
    as [[p|e] s'] eqn:E; [|vm_compute in E; discriminate E].
  destruct (write_manifest_touches_only_the_manifest _ _ _ _ _ _ _ _ _ E)
    as (-> & H).
  exists s'. split; [reflexivity | exact H].
Defined.

Lemma add_channels_keys (f : Fs.t) (project_root tex_dir : Path)
    (base_name : string) (chs : list (string * string)) (keys : list string)
    (set set' : gmap string string) :
  (forall ch, In ch chs -> In ch.1 keys) ->
  channels_among keys set ->
  add_channels f project_root tex_dir base_name set chs = Ok set' ->
  channels_among keys set'.
Proof.
  revert set. induction chs as [|ch chs IH]; intros set Hk Hs; simpl.
  - intros [= <-]. exact Hs.
  - unfold add_channel, rbind.
    destruct (glob_checked f tex_dir _) as [[|file ?]|]; [| |simpl; discriminate].
    + apply IH; [intros; apply Hk; right; assumption | exact Hs].
    + destruct (_rel_res_path project_root file) as [p|]; simpl; [|discriminate].
      apply IH; [intros; apply Hk; right; assumption|].
      intros c x Hc. apply lookup_insert_Some in Hc as [[<- _]|[_ Hc]].
      * apply Hk. left. reflexivity.
      * eapply Hs, Hc.
Qed.

Lemma first_texture_set_good (f : Fs.t) (project_root textures_dir : Path)
    (names : list string) (set : gmap string string) :
  first_texture_set f project_root textures_dir names = Ok (Some set) ->
  set <> ∅ /\ channels_among (map fst channels) set.
Proof.
  induction names as [|name names IH]; simpl; [discriminate|].
  unfold rbind.
  destruct (glob_checked f textures_dir _) as [[|tex_dir ?]|];
    [exact IH | | simpl; discriminate].
  destruct (texture_set_of f project_root tex_dir) as [set0|] eqn:E;
    [|discriminate].
  destruct (decide (set0 = ∅)) as [|Hne]; [exact IH|].
  intros [= <-]. split; [exact Hne|].
  unfold texture_set_of in E. eapply add_channels_keys; [| |exact E].
  - intros ch Hch. exact (in_map fst channels ch Hch).
  - intros ch x Hx. rewrite lookup_empty in Hx. discriminate Hx.
Qed.

Lemma texture_sets_loop_good (f : Fs.t) (project_root textures_dir : Path)
    (mappings : list (string * list string)) (keys : list string)
    (acc ts : gmap string (gmap string string)) :
  (forall m, In m mappings -> In m.1 keys) ->
  (forall key set, acc !! key = Some set ->
     In key keys /\ set <> ∅ /\ channels_among (map fst channels) set) ->
  texture_sets_loop f project_root textures_dir mappings acc = Ok ts ->
  forall key set, ts !! key = Some set ->
    In key keys /\ set <> ∅ /\ channels_among (map fst channels) set.
Proof.
  revert acc. induction mappings as [|[k names] rest IH]; intros acc Hk Hacc; simpl.
  - intros [= <-]. exact Hacc.
  - unfold rbind.
    destruct (first_texture_set f project_root textures_dir names) as [r|] eqn:E;
      [|discriminate].
    apply IH; [intros; apply Hk; right; assumption|].
    destruct r as [set0|]; [|exact Hacc].
    intros key set Hl. apply lookup_insert_Some in Hl as [[<- <-]|[_ Hl]].
    + split; [apply (Hk (k, names)); left; reflexivity|].
      eapply first_texture_set_good, E.
    + eapply Hacc, Hl.
Qed.

(** X19. [build_texture_sets] never records an empty texture set: every
    key it returns is one of the four keys of the mapping table, and its
    set holds at least one channel, each under one of the six channel
    names. *)
Theorem texture_sets_are_well_formed (f : Fs.t) (project_root textures_dir : Path)
    (ts : gmap string (gmap string string)) :
  build_texture_sets f project_root textures_dir = Ok ts ->
  forall key set, ts !! key = Some set ->
    In key (map fst texture_mappings) /\
    set <> ∅ /\
    channels_among (map fst channels) set.
Proof.
  unfold build_texture_sets. destruct (Fs.exists_ f textures_dir).
  - apply texture_sets_loop_good.
    + intros m Hm. exact (in_map fst texture_mappings m Hm).
    + intros key set H. rewrite lookup_empty in H. discriminate H.
  - intros [= <-] key set H. rewrite lookup_empty in H. discriminate H.
Qed.

Lemma texture_sets_witness :
  exists ts,
    build_texture_sets World.empty_bricks_dir World.root World.tex = Ok ts /\
    is_Some (ts !! "building_atlas_euro") /\
    forall key set, ts !! key = Some set ->
      In key (map fst texture_mappings) /\
      set <> ∅ /\
      channels_among (map fst channels) set.
Proof.
  assert (H0 : match build_texture_sets World.empty_bricks_dir World.root World.tex
               with Ok _ => true | Raise _ => false end = true)
    by (vm_compute; reflexivity).
  remember (build_texture_sets World.empty_bricks_dir World.root World.tex) as res eqn:E.
  symmetry in E. destruct res as [ts|e]; [|discriminate H0].
  exists ts. split; [reflexivity|]. split.
  - assert (H : texture_of (build_texture_sets World.empty_bricks_dir World.root
                              World.tex) "building_atlas_euro" <> None)
      by (vm_compute; discriminate).
    rewrite E in H. simpl in H. destruct (ts !! "building_atlas_euro"); [eauto|tauto].
  - exact (texture_sets_are_well_formed World.empty_bricks_dir World.root
             World.tex ts E).
Defined.


(** X20. [build_texture_sets] puts the name of a texture directory into
    its patterns as it is. A directory named Grass004* gives patterns
    with a double star inside a component, which pathlib refuses with
    ValueError. A directory named Grass004[x] gives patterns whose
    bracket is read as a character class: its own file
    Grass004[x]_Color.jpg is not found, the set stays empty and the key
    is absent, while Grass004x_Color.jpg in the same directory is
    found. *)
Example directory_names_are_read_as_patterns :
  let tex_root := [ (World.tex, Dir) ] in
  let star := tex_root ++ [ (World.tex ++ ["Grass004*"], Dir) ] in
  let bracket :=
    tex_root ++ [ (World.tex ++ ["Grass004[x]"], Dir);
                  (World.tex ++ ["Grass004[x]"; "Grass004[x]_Color.jpg"],
                   File (Raw "")) ] in
  let class_hit :=
    bracket ++ [ (World.tex ++ ["Grass004[x]"; "Grass004x_Color.jpg"],
                  File (Raw "")) ] in
  build_texture_sets star World.root World.tex = Raise ValueError /\
  build_texture_sets bracket World.root World.tex = Ok ∅ /\
  texture_of (build_texture_sets class_hit World.root World.tex) "terrain_grass"
  = Some {[ "albedo" := "res://assets/external/textures/ambientcg/Grass004[x]/Grass004x_Color.jpg" ]}.
Proof. vm_compute. repeat split; reflexivity. Qed.
